(** * Credential lifecycle of the UMI backend: [src/services/tokenService.ts]

    The token service issues access/refresh token pairs, rotates refresh
    tokens inside a token family, detects refresh-token reuse, revokes
    families, blacklists access tokens, lists a user's sessions and sweeps
    dangling session-index entries.  All of its state lives in a Redis
    store that it reaches through [getRedisClient] ([src/utils/redis.ts]).

    The development is a shallow embedding.  Asynchronous methods become
    computations in a small state-and-exception monad over a [world] made of
    the Redis keyspace, the clock read by [Date.now()], a schedule saying
    which of the coming store round-trips are rejected, and the log of the
    commands the store has received.  The collaborators that are not code of
    the repository (the [jsonwebtoken] signer, [JSON.stringify]/[JSON.parse]
    and the configuration read from the environment) are parameters of the
    section that holds the service.

    The callers of the service are embedded after it: the guards of
    [src/middleware/authMiddleware.ts], the controllers of
    [src/controllers/authController.ts] that use tokens, and the error
    middleware of [src/middleware/errorHandler.ts]. *)

From stdpp Require Import gmap strings list sorting.
From Stdlib Require Import ZArith Lia Ascii.

Local Open Scope string_scope.
Local Open Scope Z_scope.

(** ** JavaScript values the service manipulates *)

(** [redis.get] answers [string | null] and optional fields are
    [string | undefined]: both are [option string].  A condition such as
    [if (refreshToken)] or [!tokenFamily] tests truthiness, which for these
    values fails on [null]/[undefined] and on the empty string. *)
Definition truthy (o : option string) : bool :=
  match o with
  | Some s => negb (String.eqb s "")
  | None => false
  end.

(** [a || b] on optional strings. *)
Definition js_or (a b : option string) : option string :=
  if truthy a then a else b.

(** How a template literal renders [${x}] when [x] may be [undefined]. *)
Definition render (o : option string) : string :=
  match o with
  | Some s => s
  | None => "undefined"
  end.

(** What can be thrown.  [RedisUnavailable] is the rejection of the store
    client when the store cannot be reached, [WrongType] and [InvalidExpire]
    are error replies of the store itself; [JsonWebTokenError] and
    [TokenExpiredError] come from [jwt.verify]; [Error msg] is
    [new Error(msg)]; [SyntaxError] is what [JSON.parse] raises. *)
Inductive error : Type :=
  | RedisUnavailable
  | WrongType
  | InvalidExpire
  | JsonWebTokenError
  | TokenExpiredError
  | Error (message : string)
  | SyntaxError.

Inductive outcome (A : Type) : Type :=
  | Returned (a : A)
  | Thrown (e : error).
Arguments Returned {A} a.
Arguments Thrown {A} e.

(** ** The Redis keyspace *)

Module Redis.

(** A key holds a string (with the time to live it was written with, in
    seconds, if any) or a set of strings.  The passing of time is not part
    of a run: a key that has expired is a key that is absent from the
    keyspace a method starts from. *)
Inductive rvalue : Type :=
  | RString (v : string) (ttl : option Z)
  | RSet (members : gset string).

Inductive command : Type :=
  | GET (key : string)
  | SETEX (key : string) (seconds : Z) (v : string)
  | DEL (key : string)
  | SADD (key member : string)
  | SREM (key member : string)
  | SMEMBERS (key : string)
  | EXISTS (key : string)
  | KEYS (pattern_prefix : string).

Definition is_write (c : command) : bool :=
  match c with
  | SETEX _ _ _ | DEL _ | SADD _ _ | SREM _ _ => true
  | _ => false
  end.

Definition get (k : string) (m : gmap string rvalue)
  : outcome (option string) * gmap string rvalue :=
  match m !! k with
  | None => (Returned None, m)
  | Some (RString v _) => (Returned (Some v), m)
  | Some (RSet _) => (Thrown WrongType, m)
  end.

(** SETEX replaces whatever the key held; a non-positive expiry is an
    error reply. *)
Definition setEx (k : string) (seconds : Z) (v : string) (m : gmap string rvalue)
  : outcome unit * gmap string rvalue :=
  if decide (0 < seconds)
  then (Returned tt, <[k := RString v (Some seconds)]> m)
  else (Thrown InvalidExpire, m).

Definition del (k : string) (m : gmap string rvalue)
  : outcome unit * gmap string rvalue :=
  (Returned tt, delete k m).

Definition sAdd (k x : string) (m : gmap string rvalue)
  : outcome unit * gmap string rvalue :=
  match m !! k with
  | None => (Returned tt, <[k := RSet {[x]}]> m)
  | Some (RSet s) => (Returned tt, <[k := RSet ({[x]} ∪ s)]> m)
  | Some (RString _ _) => (Thrown WrongType, m)
  end.

(** Removing the last member removes the key: Redis keeps no empty set. *)
Definition srem_set (k x : string) (s : gset string) (m : gmap string rvalue)
  : gmap string rvalue :=
  if decide (s ∖ {[x]} = ∅) then delete k m else <[k := RSet (s ∖ {[x]})]> m.

Definition sRem (k x : string) (m : gmap string rvalue)
  : outcome unit * gmap string rvalue :=
  match m !! k with
  | None => (Returned tt, m)
  | Some (RSet s) => (Returned tt, srem_set k x s m)
  | Some (RString _ _) => (Thrown WrongType, m)
  end.

Definition sMembers (k : string) (m : gmap string rvalue)
  : outcome (list string) * gmap string rvalue :=
  match m !! k with
  | None => (Returned [], m)
  | Some (RSet s) => (Returned (elements s), m)
  | Some (RString _ _) => (Thrown WrongType, m)
  end.

Definition exists_ (k : string) (m : gmap string rvalue)
  : outcome bool * gmap string rvalue :=
  (Returned (bool_decide (is_Some (m !! k))), m).

(** [keys p] is KEYS with the pattern [p*], the only shape the service
    uses; its prefixes contain no glob character. *)
Definition keys (p : string) (m : gmap string rvalue)
  : outcome (list string) * gmap string rvalue :=
  (Returned (filter (λ k, String.prefix p k = true) (elements (dom m))), m).

End Redis.

Import Redis.

(** ** The world and the monad of asynchronous methods *)

Record world : Type := World {
  store : gmap string rvalue;
  clock : Z;              (* milliseconds, what [Date.now()] returns *)
  faults : list bool;     (* [true]: the next store round-trip is rejected *)
  log : list command      (* commands the store has received, oldest first *)
}.

Definition M (A : Type) : Type := world → outcome A * world.

Definition ret {A} (a : A) : M A := λ w, (Returned a, w).

Definition throw {A} (e : error) : M A := λ w, (Thrown e, w).

Definition bind {A B} (m : M A) (k : A → M B) : M B :=
  λ w, match m w with
       | (Returned a, w') => k a w'
       | (Thrown e, w') => (Thrown e, w')
       end.

(** [try { body } catch (error) { handler error }] *)
Definition try_catch {A} (body : M A) (handler : error → M A) : M A :=
  λ w, match body w with
       | (Returned a, w') => (Returned a, w')
       | (Thrown e, w') => handler e w'
       end.

Notation "'let*' x ':=' m 'in' k" := (bind m (λ x, k))
  (at level 10, x name, m at level 100, k at level 200,
   format "'[v' 'let*'  x  ':='  m  'in' '/' k ']'").
Notation "m ;;; k" := (bind m (λ _, k))
  (at level 100, k at level 200, right associativity,
   format "'[v' m  ;;; '/' k ']'").

(** [for (const x of l) { body x }] *)
Fixpoint for_of {A} (l : list A) (body : A → M unit) : M unit :=
  match l with
  | [] => ret tt
  | x :: l' => body x ;;; for_of l' body
  end.

(** One round-trip to the store: rejected when the schedule says so (the
    store is not reached); otherwise the command is logged and the store
    answers, with a value or with an error reply. *)
Definition round_trip {A} (c : command)
    (f : gmap string rvalue → outcome A * gmap string rvalue) : M A :=
  λ w, match faults w with
       | true :: fs =>
           (Thrown RedisUnavailable,
            {| store := store w; clock := clock w; faults := fs; log := log w |})
       | fs =>
           let '(r, m') := f (store w) in
           (r, {| store := m'; clock := clock w; faults := tail fs;
                  log := (log w ++ [c])%list |})
       end.

(** [getRedisClient()] hands out the shared client, connecting first when
    there is none; the connection attempt is a round-trip that executes no
    command. *)
Definition getRedisClient : M unit :=
  λ w, match faults w with
       | true :: fs =>
           (Thrown RedisUnavailable,
            {| store := store w; clock := clock w; faults := fs; log := log w |})
       | fs =>
           (Returned tt,
            {| store := store w; clock := clock w; faults := tail fs; log := log w |})
       end.

Definition redis_get (k : string) : M (option string) := round_trip (GET k) (get k).
Definition redis_setEx (k : string) (seconds : Z) (v : string) : M unit :=
  round_trip (SETEX k seconds v) (setEx k seconds v).
Definition redis_del (k : string) : M unit := round_trip (DEL k) (del k).
Definition redis_sAdd (k x : string) : M unit := round_trip (SADD k x) (sAdd k x).
Definition redis_sRem (k x : string) : M unit := round_trip (SREM k x) (sRem k x).
Definition redis_sMembers (k : string) : M (list string) :=
  round_trip (SMEMBERS k) (sMembers k).
Definition redis_exists (k : string) : M bool := round_trip (EXISTS k) (exists_ k).
Definition redis_keys (p : string) : M (list string) := round_trip (KEYS p) (keys p).

Definition Date_now : M Z := λ w, (Returned (clock w), w).

(** ** Data of the token service *)

Record User : Type := {
  u_id : string;
  u_email : string;
  u_role : string
}.

(** [interface TokenPayload] *)
Record TokenPayload : Type := {
  p_id : string;
  p_email : string;
  p_role : string;
  p_tokenFamily : option string
}.

(** What [jwt.verify] returns: the payload with the [type] discriminator a
    refresh token carries and the expiry claim [exp] (seconds). *)
Record Decoded : Type := {
  d_id : string;
  d_email : string;
  d_role : string;
  d_tokenFamily : option string;
  d_type : option string;
  d_exp : option Z
}.

Inductive verdict : Type :=
  | Verified (decoded : Decoded)
  | Expired       (* jwt.verify throws TokenExpiredError *)
  | Invalid.      (* jwt.verify throws JsonWebTokenError *)

(** [interface RefreshTokenData] *)
Record RefreshTokenData : Type := {
  userId : string;
  tokenFamily : string;
  createdAt : Z;
  lastUsedAt : Z;
  userAgent : option string;
  ipAddress : option string
}.

(** An element of the array [getUserSessions] returns. *)
Record Session : Type := {
  s_tokenFamily : string;
  s_createdAt : Z;
  s_lastUsedAt : Z;
  s_userAgent : option string;
  s_ipAddress : option string
}.

(** Result of [generateTokenPair]; [refreshTokenRotation] returns its first
    two fields. *)
Record TokenPair : Type := {
  accessToken : string;
  refreshToken : string
}.

Record IssuedTokens : Type := {
  i_accessToken : string;
  i_refreshToken : string;
  i_tokenFamily : string
}.

(** [config.jwt] of [src/config/index.ts] *)
Record Config : Type := {
  jwt_secret : string;
  jwt_refreshSecret : string;
  jwt_expiresIn : string;
  jwt_refreshExpiresIn : string
}.

Definition REFRESH_TOKEN_PREFIX : string := "refresh_token:".
Definition TOKEN_FAMILY_PREFIX : string := "token_family:".
Definition USER_SESSIONS_PREFIX : string := "user_sessions:".
Definition BLACKLIST_PREFIX : string := "blacklist:".

(** [7 * 24 * 60 * 60], the expiry of refresh records and family pointers *)
Definition SEVEN_DAYS : Z := 7 * 24 * 60 * 60.

(** [Array.prototype.sort(compareFn)]: a stable sort that puts [a] before
    [b] when [compareFn a b] is negative. *)
Fixpoint sort_insert {A} (compareFn : A → A → Z) (x : A) (l : list A) : list A :=
  match l with
  | [] => [x]
  | y :: l' =>
      if decide (compareFn x y ≤ 0) then x :: y :: l'
      else y :: sort_insert compareFn x l'
  end.

Fixpoint Array_sort {A} (compareFn : A → A → Z) (l : list A) : list A :=
  match l with
  | [] => []
  | x :: l' => sort_insert compareFn x (Array_sort compareFn l')
  end.

(** ** class TokenService *)

Section TokenService.

Variable config : Config.

(** [jwt.sign(payload, secret, { expiresIn })]: the payload, the [type]
    field added to it (if any), the secret, the validity and the clock. *)
Variable jwt_sign : TokenPayload → option string → string → string → Z → string.

(** [jwt.verify(token, secret)] at a given clock. *)
Variable jwt_verify : string → string → Z → verdict.

(** [JSON.stringify] on a [RefreshTokenData], and [JSON.parse] read at
    that type: [None] stands for a text that is not the serialisation of
    such a record. *)
Variable JSON_stringify : RefreshTokenData → string.
Variable JSON_parse : string → option RefreshTokenData.

Definition sign (payload : TokenPayload) (type : option string)
    (secret expiresIn : string) : M string :=
  λ w, (Returned (jwt_sign payload type secret expiresIn (clock w)), w).

Definition verify (token secret : string) : M Decoded :=
  λ w, match jwt_verify token secret (clock w) with
       | Verified decoded => (Returned decoded, w)
       | Expired => (Thrown TokenExpiredError, w)
       | Invalid => (Thrown JsonWebTokenError, w)
       end.

(** [JSON.parse(str)] on a string that was tested truthy. *)
Definition parse (str : option string) : M RefreshTokenData :=
  match str ≫= JSON_parse with
  | Some data => ret data
  | None => throw SyntaxError
  end.

(** [generateTokenPair]; [uuid] is the identifier [uuidv4()] draws. *)
Definition generateTokenPair (uuid : string) (user : User)
    (ua ip : option string) : M IssuedTokens :=
  let family := uuid in
  let payload := {| p_id := u_id user; p_email := u_email user;
                    p_role := u_role user; p_tokenFamily := Some family |} in
  let* access := sign payload None (jwt_secret config) (jwt_expiresIn config) in
  let* refresh := sign payload (Some "refresh") (jwt_refreshSecret config)
                    (jwt_refreshExpiresIn config) in
  getRedisClient ;;;
  let* created := Date_now in
  let* used := Date_now in
  let refreshTokenData :=
    {| userId := u_id user; tokenFamily := family; createdAt := created;
       lastUsedAt := used; userAgent := ua; ipAddress := ip |} in
  redis_setEx (REFRESH_TOKEN_PREFIX +:+ refresh) SEVEN_DAYS
    (JSON_stringify refreshTokenData) ;;;
  redis_setEx (TOKEN_FAMILY_PREFIX +:+ family) SEVEN_DAYS refresh ;;;
  redis_sAdd (USER_SESSIONS_PREFIX +:+ u_id user) family ;;;
  ret {| i_accessToken := access; i_refreshToken := refresh;
         i_tokenFamily := family |}.

(** [revokeTokenFamily]; the argument is optional because the rotation
    passes [decoded.tokenFamily!]. *)
Definition revokeTokenFamily (family : option string) : M unit :=
  if negb (truthy family) then ret tt
  else
    getRedisClient ;;;
    let* current := redis_get (TOKEN_FAMILY_PREFIX +:+ render family) in
    (if truthy current
     then redis_del (REFRESH_TOKEN_PREFIX +:+ render current)
     else ret tt) ;;;
    redis_del (TOKEN_FAMILY_PREFIX +:+ render family) ;;;
    let* keys := redis_keys USER_SESSIONS_PREFIX in
    for_of keys (λ key, redis_sRem key (render family)).

Definition security_breach : error :=
  Error "Refresh token not found - possible security breach".

(** [refreshTokenRotation] *)
Definition refreshTokenRotation (oldRefreshToken : string)
    (ua ip : option string) : M TokenPair :=
  getRedisClient ;;;
  try_catch
    (let* decoded := verify oldRefreshToken (jwt_refreshSecret config) in
     (if decide (d_type decoded = Some "refresh") then ret tt
      else throw (Error "Invalid token type")) ;;;
     let* tokenDataStr := redis_get (REFRESH_TOKEN_PREFIX +:+ oldRefreshToken) in
     (if truthy tokenDataStr then ret tt
      else revokeTokenFamily (d_tokenFamily decoded) ;;; throw security_breach) ;;;
     let* tokenData := parse tokenDataStr in
     redis_del (REFRESH_TOKEN_PREFIX +:+ oldRefreshToken) ;;;
     let payload := {| p_id := d_id decoded; p_email := d_email decoded;
                       p_role := d_role decoded;
                       p_tokenFamily := d_tokenFamily decoded |} in
     let* access := sign payload None (jwt_secret config) (jwt_expiresIn config) in
     let* refresh := sign payload (Some "refresh") (jwt_refreshSecret config)
                       (jwt_refreshExpiresIn config) in
     let* used := Date_now in
     let newTokenData :=
       {| userId := userId tokenData; tokenFamily := tokenFamily tokenData;
          createdAt := createdAt tokenData; lastUsedAt := used;
          userAgent := js_or ua (userAgent tokenData);
          ipAddress := js_or ip (ipAddress tokenData) |} in
     redis_setEx (REFRESH_TOKEN_PREFIX +:+ refresh) SEVEN_DAYS
       (JSON_stringify newTokenData) ;;;
     redis_setEx (TOKEN_FAMILY_PREFIX +:+ render (d_tokenFamily decoded))
       SEVEN_DAYS refresh ;;;
     ret {| accessToken := access; refreshToken := refresh |})
    (λ error,
       (match error with
        | TokenExpiredError => redis_del (REFRESH_TOKEN_PREFIX +:+ oldRefreshToken)
        | _ => ret tt
        end) ;;;
       throw error).

(** [blacklistAccessToken]: [exp - now] is [NaN] when the token carries no
    [exp], and [NaN > 0] is false. *)
Definition blacklistAccessToken (token : string) : M unit :=
  try_catch
    (let* decoded := verify token (jwt_secret config) in
     getRedisClient ;;;
     let exp := d_exp decoded in
     let* ms := Date_now in
     let now := ms / 1000 in
     match exp with
     | Some e =>
         let ttl := e - now in
         if decide (ttl > 0)
         then redis_setEx (BLACKLIST_PREFIX +:+ token) ttl "1"
         else ret tt
     | None => ret tt
     end)
    (λ _, ret tt).

(** [isTokenBlacklisted] *)
Definition isTokenBlacklisted (token : string) : M bool :=
  getRedisClient ;;;
  let* result := redis_get (BLACKLIST_PREFIX +:+ token) in
  ret (bool_decide (is_Some result)).

(** [revokeAllUserTokens] *)
Definition revokeAllUserTokens (user : string) : M unit :=
  getRedisClient ;;;
  let* tokenFamilies := redis_sMembers (USER_SESSIONS_PREFIX +:+ user) in
  for_of tokenFamilies (λ family, revokeTokenFamily (Some family)) ;;;
  redis_del (USER_SESSIONS_PREFIX +:+ user).

(** The loop of [getUserSessions], pushing onto [sessions]. *)
Fixpoint collect_sessions (families : list string) (sessions : list Session)
    : M (list Session) :=
  match families with
  | [] => ret sessions
  | family :: rest =>
      let* current := redis_get (TOKEN_FAMILY_PREFIX +:+ family) in
      let* pushed :=
        (if truthy current then
           let* tokenDataStr := redis_get (REFRESH_TOKEN_PREFIX +:+ render current) in
           if truthy tokenDataStr then
             let* tokenData := parse tokenDataStr in
             ret (sessions ++
                  [ {| s_tokenFamily := family;
                       s_createdAt := createdAt tokenData;
                       s_lastUsedAt := lastUsedAt tokenData;
                       s_userAgent := userAgent tokenData;
                       s_ipAddress := ipAddress tokenData |} ])%list
           else ret sessions
         else ret sessions) in
      collect_sessions rest pushed
  end.

(** [(a, b) => b.lastUsedAt - a.lastUsedAt] *)
Definition by_lastUsedAt_desc (a b : Session) : Z :=
  s_lastUsedAt b - s_lastUsedAt a.

(** [getUserSessions] *)
Definition getUserSessions (user : string) : M (list Session) :=
  getRedisClient ;;;
  let* tokenFamilies := redis_sMembers (USER_SESSIONS_PREFIX +:+ user) in
  let* sessions := collect_sessions tokenFamilies [] in
  ret (Array_sort by_lastUsedAt_desc sessions).

(** [cleanupExpiredTokens] *)
Definition cleanupExpiredTokens : M unit :=
  getRedisClient ;;;
  let* allUserKeys := redis_keys USER_SESSIONS_PREFIX in
  for_of allUserKeys (λ userKey,
    let* tokenFamilies := redis_sMembers userKey in
    for_of tokenFamilies (λ family,
      let* present := redis_exists (TOKEN_FAMILY_PREFIX +:+ family) in
      if negb present then redis_sRem userKey family else ret tt)).

End TokenService.

(** ** Vocabulary of the specification *)

(** The failures the specification names, and how a thrown value is read as
    one of them: the controller recognises a breach by
    [error.message?.includes('security breach')], the error handler tells
    [TokenExpiredError] from [JsonWebTokenError] by name, and a wrong
    [type] is the plain error ['Invalid token type']. *)
Inductive failure : Type :=
  | InvalidToken
  | TokenExpired
  | SecurityBreach
  | StoreUnavailable
  | Unclassified.

Fixpoint includes (needle hay : string) : bool :=
  String.prefix needle hay ||
  match hay with
  | EmptyString => false
  | String _ rest => includes needle rest
  end.

Definition failure_of (e : error) : failure :=
  match e with
  | TokenExpiredError => TokenExpired
  | JsonWebTokenError => InvalidToken
  | RedisUnavailable => StoreUnavailable
  | Error message =>
      if includes "security breach" message then SecurityBreach
      else if String.eqb message "Invalid token type" then InvalidToken
      else Unclassified
  | _ => Unclassified
  end.

(** The store can be reached for the rest of the run. *)
Definition available (w : world) : Prop := faults w = [].

(** From [w] to [w'] the schedule lost only accepted round-trips. *)
Definition quiet (w w' : world) : Prop :=
  ∃ n, faults w = (replicate n false ++ faults w')%list.

(** From [w] to [w'] the schedule lost accepted round-trips and then a
    rejected one. *)
Definition rejected (w w' : world) : Prop :=
  ∃ n, faults w = (replicate n false ++ true :: faults w')%list.

(** A computation is fail-closed when the rejection of one of its
    round-trips ends it with that rejection as the thrown value. *)
Definition fail_closed {A} (c : M A) : Prop :=
  ∀ w o w', c w = (o, w') →
    quiet w w' ∨ (rejected w w' ∧ o = Thrown RedisUnavailable).

(** Members of the set at [k]; a missing key is the empty set. *)
Definition members_of (m : gmap string rvalue) (k : string) : gset string :=
  match m !! k with
  | Some (RSet s) => s
  | _ => ∅
  end.

(** The string at [k], if [k] holds one. *)
Definition string_at (m : gmap string rvalue) (k : string) : option string :=
  match m !! k with
  | Some (RString v _) => Some v
  | _ => None
  end.

(** The shape of the keyspace the service maintains: a key under
    [user_sessions:] holds a non-empty set of non-empty family identifiers,
    a key under one of the three other prefixes holds a string. *)
Definition entry_ok (k : string) (v : rvalue) : bool :=
  if String.prefix USER_SESSIONS_PREFIX k then
    match v with
    | RSet s => negb (bool_decide ("" ∈ s)) && negb (bool_decide (s = ∅))
    | RString _ _ => false
    end
  else if String.prefix TOKEN_FAMILY_PREFIX k
          || String.prefix REFRESH_TOKEN_PREFIX k
          || String.prefix BLACKLIST_PREFIX k then
    match v with
    | RString _ _ => true
    | RSet _ => false
    end
  else true.

Definition well_formed (m : gmap string rvalue) : Prop :=
  map_Forall (λ k v, entry_ok k v = true) m.

(** What SREM of [x] makes of the content of a key that holds no string. *)
Definition srem_value (x : string) (v : option rvalue) : option rvalue :=
  match v with
  | Some (RSet s) =>
      if decide (s ∖ {[x]} = ∅) then None else Some (RSet (s ∖ {[x]}))
  | other => other
  end.

Definition holds_string (v : option rvalue) : Prop :=
  match v with
  | Some (RString _ _) => True
  | _ => False
  end.

(** The keys KEYS [user_sessions:*] enumerates. *)
Definition index_keys (m : gmap string rvalue) : list string :=
  filter (λ k, String.prefix USER_SESSIONS_PREFIX k = true) (elements (dom m)).

(** The store part of a loop of [sRem]s. *)
Fixpoint srem_all (keys : list string) (x : string) (m : gmap string rvalue)
    : outcome unit * gmap string rvalue :=
  match keys with
  | [] => (Returned tt, m)
  | k :: rest =>
      match sRem k x m with
      | (Returned _, m') => srem_all rest x m'
      | (Thrown e, m') => (Thrown e, m')
      end
  end.

(** The store part of [revokeTokenFamily] on a truthy family. *)
Definition revoke_store (f : string) (m : gmap string rvalue)
    : outcome unit * gmap string rvalue :=
  match m !! (TOKEN_FAMILY_PREFIX +:+ f) with
  | Some (RSet _) => (Thrown WrongType, m)
  | pointer =>
      let m1 :=
        match pointer with
        | Some (RString current _) =>
            if String.eqb current "" then m
            else delete (REFRESH_TOKEN_PREFIX +:+ current) m
        | _ => m
        end in
      let m2 := delete (TOKEN_FAMILY_PREFIX +:+ f) m1 in
      srem_all (index_keys m2) f m2
  end.

(** The session a family of the index resolves to: its pointer must hold a
    non-empty refresh token whose record is a non-empty text that parses. *)
Definition resolve (JSON_parse : string → option RefreshTokenData)
    (m : gmap string rvalue) (family : string) : option Session :=
  match string_at m (TOKEN_FAMILY_PREFIX +:+ family) with
  | Some current =>
      if String.eqb current "" then None
      else
        match string_at m (REFRESH_TOKEN_PREFIX +:+ current) with
        | Some str =>
            if String.eqb str "" then None
            else
              match JSON_parse str with
              | Some data =>
                  Some {| s_tokenFamily := family;
                          s_createdAt := createdAt data;
                          s_lastUsedAt := lastUsedAt data;
                          s_userAgent := userAgent data;
                          s_ipAddress := ipAddress data |}
              | None => None
              end
        | None => None
        end
  | None => None
  end.

(** Every non-empty text under [refresh_token:] is a serialised record. *)
Definition record_ok (JSON_parse : string → option RefreshTokenData)
    (k : string) (v : rvalue) : bool :=
  if String.prefix REFRESH_TOKEN_PREFIX k then
    match v with
    | RString str _ =>
        String.eqb str "" || bool_decide (is_Some (JSON_parse str))
    | RSet _ => true
    end
  else true.

Definition records_parse (JSON_parse : string → option RefreshTokenData)
    (m : gmap string rvalue) : Prop :=
  map_Forall (λ k v, record_ok JSON_parse k v = true) m.

(** Both conditions at once: the keyspaces the service produces. *)
Definition sound_entry (JSON_parse : string → option RefreshTokenData)
    (k : string) (v : rvalue) : bool :=
  entry_ok k v && record_ok JSON_parse k v.

Definition sound (JSON_parse : string → option RefreshTokenData)
    (m : gmap string rvalue) : Prop :=
  map_Forall (λ k v, sound_entry JSON_parse k v = true) m.

(** A computation keeps a property of the keyspace. *)
Definition preserves {A} (I : gmap string rvalue → Prop) (c : M A) : Prop :=
  ∀ w, I (store w) → I (store (snd (c w))).

(** The codec round-trips. *)
Definition json_round_trip (JSON_stringify : RefreshTokenData → string)
    (JSON_parse : string → option RefreshTokenData) : Prop :=
  ∀ d, JSON_parse (JSON_stringify d) = Some d.

(** Most recently used first. *)
Definition most_recent_first (a b : Session) : Prop :=
  s_lastUsedAt b ≤ s_lastUsedAt a.

(** The commands the sweeper may send: reads, and SREM on an index key. *)
Definition sweeper_command (c : command) : bool :=
  match c with
  | KEYS _ | SMEMBERS _ | EXISTS _ => true
  | SREM k _ => String.prefix USER_SESSIONS_PREFIX k
  | _ => false
  end.

(** What the service expects of the signer: a token verifies, with the
    secret and at the instant it was signed, to the claims it was signed
    with. *)
Definition claims_round_trip
    (jwt_sign : TokenPayload → option string → string → string → Z → string)
    (jwt_verify : string → string → Z → verdict) : Prop :=
  ∀ p type secret expiresIn ms, ∃ exp,
    jwt_verify (jwt_sign p type secret expiresIn ms) secret ms
    = Verified {| d_id := p_id p; d_email := p_email p; d_role := p_role p;
                  d_tokenFamily := p_tokenFamily p; d_type := type;
                  d_exp := exp |}.

(** ** A concrete signer and codec

    Used to run the service on concrete worlds.  A token is the letter [T]
    followed by the binary numeral that encodes its claims, its secret and
    its expiry; a serialised record is the letter [J] followed by the
    numeral of its fields. *)

Fixpoint bits_of_pos (p : positive) : string :=
  match p with
  | xH => ""
  | xO q => String "0"%char (bits_of_pos q)
  | xI q => String "1"%char (bits_of_pos q)
  end.

Fixpoint pos_of_bits (s : string) : option positive :=
  match s with
  | EmptyString => Some xH
  | String c r =>
      if Ascii.eqb c "0"%char then xO <$> pos_of_bits r
      else if Ascii.eqb c "1"%char then xI <$> pos_of_bits r
      else None
  end.

Definition demo_validity (expiresIn : string) : Z :=
  if String.eqb expiresIn "7d" then SEVEN_DAYS else 24 * 60 * 60.

Definition demo_sign (p : TokenPayload) (type : option string)
    (secret expiresIn : string) (ms : Z) : string :=
  String "T"%char (bits_of_pos (encode
    (p_id p, p_email p, p_role p, p_tokenFamily p, type, secret,
     ms / 1000 + demo_validity expiresIn))).

Definition demo_verify (token secret : string) (ms : Z) : verdict :=
  match token with
  | String c bits =>
      match pos_of_bits bits ≫= decode with
      | Some (i, e, r, f, ty, sec, exp) =>
          if negb (Ascii.eqb c "T"%char) then Invalid
          else if negb (String.eqb sec secret) then Invalid
          else if decide (ms / 1000 < exp)
          then Verified {| d_id := i; d_email := e; d_role := r;
                           d_tokenFamily := f; d_type := ty; d_exp := Some exp |}
          else Expired
      | None => Invalid
      end
  | EmptyString => Invalid
  end.

Definition demo_stringify (d : RefreshTokenData) : string :=
  String "J"%char (bits_of_pos (encode
    (userId d, tokenFamily d, createdAt d, lastUsedAt d, userAgent d, ipAddress d))).

Definition demo_parse (s : string) : option RefreshTokenData :=
  match s with
  | String c bits =>
      if Ascii.eqb c "J"%char then
        '(u, f, c, l, a, i) ← pos_of_bits bits ≫= decode;
        Some {| userId := u; tokenFamily := f; createdAt := c; lastUsedAt := l;
                userAgent := a; ipAddress := i |}
      else None
  | EmptyString => None
  end.

Definition demo_config : Config :=
  {| jwt_secret := "s1"; jwt_refreshSecret := "s2";
     jwt_expiresIn := "24h"; jwt_refreshExpiresIn := "7d" |}.

Definition alice : User := {| u_id := "u1"; u_email := "a@x"; u_role := "admin" |}.

(** An empty store at five seconds past the epoch. *)
Definition w_empty : world :=
  {| store := ∅; clock := 5000; faults := []; log := [] |}.

(** [alice] logs in with family [f1]. *)
Definition login1 : outcome IssuedTokens * world :=
  generateTokenPair demo_config demo_sign demo_stringify "f1" alice (Some "ua") None
    w_empty.

Definition token1 : string :=
  match fst login1 with
  | Returned r => i_refreshToken r
  | Thrown _ => ""
  end.

Definition access1 : string :=
  match fst login1 with
  | Returned r => i_accessToken r
  | Thrown _ => ""
  end.

(** Two seconds later. *)
Definition w_logged_in : world :=
  {| store := store (snd login1); clock := 7000; faults := []; log := [] |}.

(** The first refresh token is exchanged. *)
Definition rotation1 : outcome TokenPair * world :=
  refreshTokenRotation demo_config demo_sign demo_verify demo_stringify demo_parse
    token1 None (Some "ip") w_logged_in.

Definition pair1 : TokenPair :=
  match fst rotation1 with
  | Returned p => p
  | Thrown _ => {| accessToken := ""; refreshToken := "" |}
  end.

Definition w_rotated : world :=
  {| store := store (snd rotation1); clock := 9000; faults := []; log := [] |}.

(** Long after the first refresh token has expired. *)
Definition w_late : world :=
  {| store := store (snd login1); clock := 700000000; faults := []; log := [] |}.

(** A token signed with the refresh secret that carries no [type]. *)
Definition untyped_token : string :=
  demo_sign {| p_id := "u1"; p_email := "a@x"; p_role := "admin";
               p_tokenFamily := Some "f1" |} None "s2" "7d" 5000.

(** [alice] logs in on a second and a third device, and then the pointer of
    the second family expires. *)
Definition login2 : outcome IssuedTokens * world :=
  generateTokenPair demo_config demo_sign demo_stringify "f2" alice (Some "phone")
    None w_logged_in.

Definition issued2 : IssuedTokens :=
  match fst login2 with
  | Returned r => r
  | Thrown _ => {| i_accessToken := ""; i_refreshToken := ""; i_tokenFamily := "" |}
  end.

Definition login3 : outcome IssuedTokens * world :=
  generateTokenPair demo_config demo_sign demo_stringify "f3" alice None
    (Some "10.0.0.3")
    {| store := store (snd login2); clock := 8000; faults := []; log := [] |}.

Definition w_three_devices : world :=
  {| store := store (snd login3); clock := 9000; faults := []; log := [] |}.

Definition w_dangling : world :=
  {| store := delete (TOKEN_FAMILY_PREFIX +:+ "f2") (store (snd login3));
     clock := 9000; faults := []; log := [] |}.

(** The store is reached once more and then fails. *)
Definition w_failing : world :=
  {| store := store (snd login1); clock := 7000; faults := [false; true];
     log := [] |}.

(** ** The callers of the token service

    [src/middleware/authMiddleware.ts] guards the routes,
    [src/controllers/authController.ts] answers them through
    [src/services/authService.ts], whose token methods forward to the token
    service unchanged, and [src/middleware/errorHandler.ts] turns what a
    controller throws into a response. *)

(** [s.substring(n)] *)
Fixpoint substring_from (n : nat) (s : string) : string :=
  match n, s with
  | S n', String _ rest => substring_from n' rest
  | _, _ => s
  end.

(** The JSON bodies these callers send, by their fields. *)
Inductive body : Type :=
  | ErrorBody (error : string)
  | ReuseBody (error code : string)
  | TokensBody (access refresh : string)
  | LoginBody (user : User) (access refresh : string)
  | MessageBody (message : string)
  | SessionsBody (sessions : list Session) (currentSession : option string).

(** [res.status(status).json(json)]; [res.json] alone sends status 200. *)
Record response : Type := Response {
  status : Z;
  json : body
}.

(** How a middleware ends: it has answered, or it has called [next()] with
    [req.user] as given. *)
Inductive handled : Type :=
  | Responded (res : response)
  | Next (user : option User).

(** What a controller can throw: [new AppError(message, statusCode)], or an
    error that came out of the service. *)
Inductive raised : Type :=
  | AppError (message : string) (statusCode : Z)
  | Uncaught (e : error).

Inductive answer : Type :=
  | Sent (res : response)
  | Raised (err : raised).

(** An [async (req, res) => ...] controller. *)
Definition controller : Type := world → answer * world.

Definition send (res : response) : controller := λ w, (Sent res, w).

Definition raise (err : raised) : controller := λ w, (Raised err, w).

(** [const a = await m; k a] inside a controller: a rejection of [m]
    rejects the controller. *)
Definition call {A} (m : M A) (k : A → controller) : controller :=
  λ w, match m w with
       | (Returned a, w') => k a w'
       | (Thrown e, w') => (Raised (Uncaught e), w')
       end.

(** An error object as [errorHandler] inspects it: an instance of
    [AppError], or another object with its [name], [type], [code],
    [meta?.target?.[0]], [message] and [statusCode]. *)
Inductive thrown : Type :=
  | AppErrorObject (message : string) (statusCode : Z)
  | ErrorObject (name : string) (type code target message : option string)
      (statusCode : option Z).

(** [getDefaultMessage] *)
Definition getDefaultMessage (statusCode : Z) : string :=
  if statusCode =? 400 then "Bad Request"
  else if statusCode =? 401 then "Unauthorized"
  else if statusCode =? 403 then "Forbidden"
  else if statusCode =? 404 then "Not Found"
  else if statusCode =? 409 then "Conflict"
  else if statusCode =? 500 then "Internal Server Error"
  else "Error".

Definition unauthorized (error : string) : handled :=
  Responded {| status := 401; json := ErrorBody error |}.

(** [requireAdmin] *)
Definition requireAdmin (user : option User) : handled :=
  match user with
  | None => unauthorized "Authentication required"
  | Some u =>
      if negb (String.eqb (u_role u) "admin")
      then Responded {| status := 403; json := ErrorBody "Admin access required" |}
      else Next user
  end.

Section Callers.

Variable config : Config.
Variable jwt_sign : TokenPayload → option string → string → string → Z → string.
Variable jwt_verify : string → string → Z → verdict.
Variable JSON_stringify : RefreshTokenData → string.
Variable JSON_parse : string → option RefreshTokenData.

(** [prisma.user.findUnique({ where: { id } })], as the fields the
    middleware copies to [req.user]; the database answers every query. *)
Variable findUnique : string → option User.

(** [err.name] of an error raised by the store client and [err.message] of
    an error raised by a library; whether [process.env.NODE_ENV] is
    ['production']. *)
Variable library_name : error → string.
Variable library_message : error → string.
Variable production : bool.

(** [requireAuth], on [req.headers.authorization].  A verified token
    carries the claims of [TokenPayload], none of which is [userId], so
    [decoded.userId || decoded.id] is [decoded.id]. *)
Definition requireAuth (authorization : option string) : M handled :=
  try_catch
    (match authorization with
     | Some authHeader =>
         if negb (truthy authorization) || negb (String.prefix "Bearer " authHeader)
         then ret (unauthorized "Authorization header missing or invalid")
         else
           let token := substring_from 7 authHeader in
           let* isBlacklisted := isTokenBlacklisted token in
           if isBlacklisted then ret (unauthorized "Token has been revoked")
           else
             let* decoded := verify jwt_verify token (jwt_secret config) in
             let userId := d_id decoded in
             match findUnique userId with
             | None => ret (unauthorized "User not found")
             | Some user =>
                 ret (Next (Some {| u_id := u_id user; u_email := u_email user;
                                    u_role := u_role user |}))
             end
     | None => ret (unauthorized "Authorization header missing or invalid")
     end)
    (λ error,
       match error with
       | TokenExpiredError => ret (unauthorized "Token expired")
       | JsonWebTokenError => ret (unauthorized "Invalid token")
       | _ => ret (Responded {| status := 500;
                                json := ErrorBody "Authentication error" |})
       end).

(** [optionalAuth] *)
Definition optionalAuth (authorization : option string) : M handled :=
  try_catch
    (match authorization with
     | Some authHeader =>
         if negb (truthy authorization) || negb (String.prefix "Bearer " authHeader)
         then ret (Next None)
         else
           let token := substring_from 7 authHeader in
           let* isBlacklisted := isTokenBlacklisted token in
           if isBlacklisted then ret (unauthorized "Token has been revoked")
           else
             let* decoded := verify jwt_verify token (jwt_secret config) in
             let userId := d_id decoded in
             match findUnique userId with
             | Some user =>
                 ret (Next (Some {| u_id := u_id user; u_email := u_email user;
                                    u_role := u_role user |}))
             | None => ret (Next None)
             end
     | None => ret (Next None)
     end)
    (λ _, ret (Next None)).

(** [err.message] *)
Definition message_of (e : error) : string :=
  match e with
  | Error message => message
  | _ => library_message e
  end.

(** [err.name]: the errors of [jsonwebtoken] are named after their class,
    [new Error(...)] is named ['Error']. *)
Definition name_of (e : error) : string :=
  match e with
  | JsonWebTokenError => "JsonWebTokenError"
  | TokenExpiredError => "TokenExpiredError"
  | SyntaxError => "SyntaxError"
  | Error _ => "Error"
  | _ => library_name e
  end.

(** What reaches [errorHandler] when a controller throws: an [AppError]
    with its two fields, or an error of the service, which has a name and a
    message and none of [type], [code], [meta] and [statusCode]. *)
Definition error_object (err : raised) : thrown :=
  match err with
  | AppError message statusCode => AppErrorObject message statusCode
  | Uncaught e => ErrorObject (name_of e) None None None (Some (message_of e)) None
  end.

(** [errorHandler]; of the body it sends, only the [error] field is kept. *)
Definition errorHandler (err : thrown) : response :=
  let '(statusCode, message) :=
    match err with
    | AppErrorObject message statusCode => (statusCode, message)
    | ErrorObject name type code target message statusCode =>
        if String.eqb name "ValidationError" || bool_decide (type = Some "validation")
        then (400, if truthy message then render message else "Validation failed")
        else if String.eqb name "UnauthorizedError" then (401, "Unauthorized")
        else if String.eqb name "JsonWebTokenError" then (401, "Invalid token")
        else if String.eqb name "TokenExpiredError" then (401, "Token expired")
        else if bool_decide (code = Some "P2002")
        then (409, render (js_or target (Some "field")) +:+ " already exists")
        else if bool_decide (code = Some "P2025") then (404, "Record not found")
        else if String.eqb name "SyntaxError"
                && bool_decide (type = Some "entity.parse.failed")
        then (400, "Invalid JSON in request body")
        else
          match statusCode with
          | Some code' =>
              if negb (truthy message) && negb (code' =? 0)
              then (code', getDefaultMessage code')
              else if truthy message then (500, render message)
              else (500, "Internal server error")
          | None =>
              if truthy message then (500, render message)
              else (500, "Internal server error")
          end
    end in
  {| status := statusCode;
     json := ErrorBody (if production && (statusCode =? 500)
                        then "Internal Server Error" else message) |}.

(** [asyncHandler(fn)] with the error middleware [app.ts] installs after the
    routes: what [fn] throws is passed to [next] and answered by
    [errorHandler]. *)
Definition asyncHandler (fn : controller) : world → response * world :=
  λ w, match fn w with
       | (Sent res, w') => (res, w')
       | (Raised err, w') => (errorHandler (error_object err), w')
       end.

End Callers.

(** The controllers of [src/controllers/authController.ts] that use the
    token service. *)
Module AuthController.

Section Controllers.

Variable config : Config.
Variable jwt_sign : TokenPayload → option string → string → string → Z → string.
Variable jwt_verify : string → string → Z → verdict.
Variable JSON_stringify : RefreshTokenData → string.
Variable JSON_parse : string → option RefreshTokenData.
Variable library_message : error → string.

(** [login], on the credentials of the body, the [user-agent] header and
    the address of the request.  [validateCredentials] is the method of the
    auth service that reads the user table and compares the password hash;
    [uuid] is what [uuidv4()] draws in [generateTokenPair]; of the user in
    the body, [fullName] is left out. *)
Definition login (validateCredentials : string → string → option User)
    (uuid : string) (email password : string) (ua ip : option string)
    : controller :=
  match validateCredentials email password with
  | None => raise (AppError "Invalid email or password" 401)
  | Some user =>
      call (generateTokenPair config jwt_sign JSON_stringify uuid
              {| u_id := u_id user; u_email := u_email user;
                 u_role := u_role user |} ua ip)
        (λ tokens,
           send {| status := 200;
                   json := LoginBody user (i_accessToken tokens)
                             (i_refreshToken tokens) |})
  end.

(** [refreshToken], on [req.body.refreshToken], the [user-agent] header and
    the address of the request.  The rotation never resolves to a falsy
    value, so the test [!tokens] never succeeds. *)
Definition refreshToken (body_refreshToken ua ip : option string) : controller :=
  if negb (truthy body_refreshToken)
  then raise (AppError "Refresh token required" 400)
  else
    λ w, match refreshTokenRotation config jwt_sign jwt_verify JSON_stringify
                 JSON_parse (render body_refreshToken) ua ip w with
         | (Returned tokens, w') =>
             (Sent {| status := 200;
                      json := TokensBody (accessToken tokens) (refreshToken tokens) |},
              w')
         | (Thrown error, w') =>
             if includes "security breach" (message_of library_message error)
             then (Sent {| status := 401;
                           json := ReuseBody
                             "Security breach detected. All sessions have been terminated."
                             "TOKEN_REUSE_DETECTED" |},
                   w')
             else (Raised (Uncaught error), w')
         end.

(** [logout], on [req.headers.authorization] *)
Definition logout (authorization : option string) : controller :=
  let done := send {| status := 200;
                      json := MessageBody "Logged out successfully" |} in
  match authorization with
  | Some authHeader =>
      if truthy authorization && String.prefix "Bearer " authHeader
      then call (blacklistAccessToken config jwt_verify (substring_from 7 authHeader))
             (λ _, done)
      else done
  | None => done
  end.

(** [getSessions], on [req.user] and [req.headers.authorization] *)
Definition getSessions (user : option User) (authorization : option string)
    : controller :=
  match user with
  | None => raise (AppError "User not authenticated" 401)
  | Some u =>
      call (getUserSessions JSON_parse (u_id u))
        (λ sessions,
           send {| status := 200;
                   json := SessionsBody sessions
                             (substring_from 7 <$> authorization) |})
  end.

(** [revokeSession], on [req.user] and [req.body.tokenFamily] *)
Definition revokeSession (user : option User) (tokenFamily : option string)
    : controller :=
  match user with
  | None => raise (AppError "User not authenticated" 401)
  | Some _ =>
      if negb (truthy tokenFamily)
      then raise (AppError "Token family required" 400)
      else call (revokeTokenFamily tokenFamily)
             (λ _, send {| status := 200;
                           json := MessageBody "Session revoked successfully" |})
  end.

End Controllers.

End AuthController.

(** A user table, the messages of library errors and a second user, to run
    the callers. *)
Definition bob : User := {| u_id := "u2"; u_email := "b@x"; u_role := "collector" |}.

(** In the user table [alice] is a collector by now, whatever her tokens
    say. *)
Definition demo_users (id : string) : option User :=
  if String.eqb id "u1"
  then Some {| u_id := "u1"; u_email := "a@x"; u_role := "collector" |}
  else if String.eqb id "u2" then Some bob
  else None.

Definition demo_name (e : error) : string := "Error".

Definition demo_message (e : error) : string := "library error".

(** [bob] logs in with family [g1] while [alice] is logged in. *)
Definition login_bob : outcome IssuedTokens * world :=
  generateTokenPair demo_config demo_sign demo_stringify "g1" bob None None
    w_logged_in.

Definition w_two_users : world :=
  {| store := store (snd login_bob); clock := 8000; faults := []; log := [] |}.

(** * Properties *)

Local Open Scope list_scope.

(** ** Keys *)

Lemma prefix_append (p s : string) : String.prefix p (p +:+ s) = true.
Proof.
  induction p as [|c p IH]; simpl; [by destruct s|].
  destruct (Ascii.ascii_dec c c); [done|congruence].
Qed.


Lemma pointer_key_not_index (f : string) :
  String.prefix USER_SESSIONS_PREFIX (TOKEN_FAMILY_PREFIX +:+ f) = false.
Proof. reflexivity. Qed.

Lemma record_key_not_index (t : string) :
  String.prefix USER_SESSIONS_PREFIX (REFRESH_TOKEN_PREFIX +:+ t) = false.
Proof. reflexivity. Qed.

Lemma blacklist_key_not_index (t : string) :
  String.prefix USER_SESSIONS_PREFIX (BLACKLIST_PREFIX +:+ t) = false.
Proof. reflexivity. Qed.

Lemma index_key_not_pointer (u f : string) :
  USER_SESSIONS_PREFIX +:+ u ≠ TOKEN_FAMILY_PREFIX +:+ f.
Proof. discriminate. Qed.

Lemma index_key_not_record (u t : string) :
  USER_SESSIONS_PREFIX +:+ u ≠ REFRESH_TOKEN_PREFIX +:+ t.
Proof. discriminate. Qed.

Lemma pointer_key_not_record (f t : string) :
  TOKEN_FAMILY_PREFIX +:+ f ≠ REFRESH_TOKEN_PREFIX +:+ t.
Proof. discriminate. Qed.

(** ** Running the monad when the store is available *)

Lemma round_trip_available {A} (c : command)
    (f : gmap string rvalue → outcome A * gmap string rvalue) m t lg :
  round_trip c f (World m t [] lg)
  = (fst (f m), World (snd (f m)) t [] (lg ++ [c])).
Proof. unfold round_trip; simpl. by destruct (f m). Qed.

Lemma getRedisClient_available m t lg :
  getRedisClient (World m t [] lg) = (Returned tt, World m t [] lg).
Proof. reflexivity. Qed.

Lemma available_inv (w : world) :
  available w → w = World (store w) (clock w) [] (log w).
Proof. destruct w; unfold available; simpl; by intros ->. Qed.

Lemma bind_returned {A B} (m : M A) (k : A → M B) (w w1 : world) (a : A) :
  m w = (Returned a, w1) → bind m k w = k a w1.
Proof. unfold bind. by intros ->. Qed.

(** Unfolds the service and the monad down to the store commands. *)
Ltac run :=
  unfold bind, try_catch, ret, throw, verify, sign, parse, Date_now,
    redis_get, redis_setEx, redis_del, redis_sAdd, redis_sRem,
    redis_sMembers, redis_exists, redis_keys;
  rewrite ?getRedisClient_available, ?round_trip_available; simpl.

(** ** SREM and loops of SREM on the keyspace *)

Lemma srem_value_idemp (x : string) (v : option rvalue) :
  srem_value x (srem_value x v) = srem_value x v.
Proof.
  destruct v as [[? ?|s]|]; simpl; try done.
  destruct (decide (s ∖ {[x]} = ∅)) as [|Hne]; simpl; [done|].
  replace (s ∖ {[x]} ∖ {[x]}) with (s ∖ {[x]}) by set_solver.
  by rewrite decide_False.
Qed.

Lemma srem_value_holds_string (x : string) (v : option rvalue) :
  holds_string (srem_value x v) → holds_string v.
Proof.
  destruct v as [[? ?|s]|]; simpl; try done.
  by destruct (decide (s ∖ {[x]} = ∅)).
Qed.

Lemma sRem_returned (k x : string) (m m' : gmap string rvalue) :
  sRem k x m = (Returned tt, m') →
  ¬ holds_string (m !! k) ∧ m' = partial_alter (srem_value x) k m.
Proof.
  unfold sRem, srem_set.
  destruct (m !! k) as [[? ?|s]|] eqn:Hk; intros [= <-];
    (split; [simpl; tauto|]).
  - apply map_eq. intros j. rewrite lookup_partial_alter.
    destruct (decide (k = j)) as [->|Hne].
    + rewrite Hk. simpl.
      destruct (decide (s ∖ {[x]} = ∅)); by simplify_map_eq.
    + destruct (decide (s ∖ {[x]} = ∅)); by simplify_map_eq.
  - apply map_eq. intros j. rewrite lookup_partial_alter.
    destruct (decide (k = j)) as [->|Hne]; [by rewrite Hk|done].
Qed.

Lemma sRem_returns (k x : string) (m : gmap string rvalue) :
  ¬ holds_string (m !! k) → ∃ m', sRem k x m = (Returned tt, m').
Proof.
  unfold sRem. destruct (m !! k) as [[? ?|s]|]; simpl; intros H; eauto.
  by destruct H.
Qed.

Lemma srem_all_returned (keys : list string) (x : string)
    (m m' : gmap string rvalue) :
  srem_all keys x m = (Returned tt, m') →
  (∀ k, k ∈ keys → ¬ holds_string (m !! k))
  ∧ (∀ k, m' !! k = if decide (k ∈ keys) then srem_value x (m !! k) else m !! k).
Proof.
  revert m. induction keys as [|k0 keys IH]; intros m; simpl.
  - intros [= <-]. split; [by intros k ?%elem_of_nil|done].
  - destruct (sRem k0 x m) as [[[]|e] m1] eqn:Hstep; [|discriminate].
    apply sRem_returned in Hstep as [Hk0 ->]. intros [Hrest Hlook]%IH.
    split.
    + intros k [->|Hin]%elem_of_cons; [done|].
      specialize (Hrest k Hin). rewrite lookup_partial_alter in Hrest.
      destruct (decide (k0 = k)) as [->|]; [done|]. done.
    + intros k. rewrite Hlook, lookup_partial_alter.
      destruct (decide (k0 = k)) as [->|Hne].
      * rewrite (decide_True (P := k ∈ k :: keys)) by apply list_elem_of_here.
        destruct (decide (k ∈ keys)); [apply srem_value_idemp|done].
      * destruct (decide (k ∈ keys)) as [Hin|Hnin].
        -- by rewrite decide_True by (by apply list_elem_of_further).
        -- rewrite decide_False; [done|].
           intros [->|?]%elem_of_cons; done.
Qed.

Lemma srem_all_returns (keys : list string) (x : string) (m : gmap string rvalue) :
  (∀ k, k ∈ keys → ¬ holds_string (m !! k)) →
  ∃ m', srem_all keys x m = (Returned tt, m').
Proof.
  revert m. induction keys as [|k0 keys IH]; intros m Hkeys; simpl; [eauto|].
  destruct (sRem_returns k0 x m) as [m1 Hstep];
    [apply Hkeys, list_elem_of_here|].
  rewrite Hstep. apply IH. intros k Hin.
  apply sRem_returned in Hstep as [_ ->]. rewrite lookup_partial_alter.
  destruct (decide (k0 = k)) as [->|].
  - intros H%srem_value_holds_string. revert H. apply Hkeys, list_elem_of_here.
  - by apply Hkeys, list_elem_of_further.
Qed.

(** A loop of SREM that finds nothing to remove leaves the keyspace as it
    is. *)
Lemma srem_all_fixed (keys : list string) (x : string) (m : gmap string rvalue) :
  (∀ k, k ∈ keys → ¬ holds_string (m !! k) ∧ srem_value x (m !! k) = m !! k) →
  srem_all keys x m = (Returned tt, m).
Proof.
  intros Hkeys.
  destruct (srem_all_returns keys x m) as [m' Hrun];
    [intros k Hin; by destruct (Hkeys k Hin)|].
  rewrite Hrun. f_equal. apply map_eq. intros k.
  apply srem_all_returned in Hrun as [_ ->].
  destruct (decide (k ∈ keys)) as [Hin|]; [|done]. by apply Hkeys.
Qed.

Lemma elem_of_index_keys (m : gmap string rvalue) (k : string) :
  k ∈ index_keys m ↔ String.prefix USER_SESSIONS_PREFIX k = true ∧ is_Some (m !! k).
Proof.
  unfold index_keys. rewrite list_elem_of_filter, elem_of_elements, elem_of_dom.
  done.
Qed.

Lemma for_of_sRem (keys : list string) (x : string) m t lg :
  ∃ lg', for_of keys (λ k, redis_sRem k x) (World m t [] lg)
         = (fst (srem_all keys x m), World (snd (srem_all keys x m)) t [] lg').
Proof.
  revert m lg. induction keys as [|k keys IH]; intros m lg; simpl.
  - by eexists.
  - run. destruct (sRem k x m) as [[[]|e] m1]; simpl; [apply IH|by eexists].
Qed.

(** ** Revocation of a family on the keyspace *)

Lemma revoke_run (f : string) m t lg :
  truthy (Some f) = true →
  ∃ lg', revokeTokenFamily (Some f) (World m t [] lg)
         = (fst (revoke_store f m), World (snd (revoke_store f m)) t [] lg').
Proof.
  intros Hf. unfold revokeTokenFamily, revoke_store. rewrite Hf. simpl. run.
  unfold get.
  destruct (m !! (TOKEN_FAMILY_PREFIX +:+ f)) as [[current ttl|s]|]; simpl.
  - destruct (String.eqb current ""); simpl.
    + run. apply for_of_sRem.
    + run. apply for_of_sRem.
  - by eexists.
  - run. apply for_of_sRem.
Qed.


Lemma srem_value_members (x : string) (m : gmap string rvalue) (k : string) (s : gset string) :
  srem_value x (m !! k) = Some (RSet s) → (x ∉ s) ∧ (s ≠ ∅).
Proof.
  destruct (m !! k) as [[? ?|s0]|]; simpl; try done.
  destruct (decide (s0 ∖ {[x]} = ∅)); [done|]. intros [= <-]. set_solver.
Qed.

(** A sweep of SREM over the whole index that returned: under the index
    prefix no key holds a string, an empty set or a set with [x] in it; the
    other keys are untouched. *)
Lemma srem_index_returned (x : string) (m m' : gmap string rvalue) :
  srem_all (index_keys m) x m = (Returned tt, m') →
  (∀ k, String.prefix USER_SESSIONS_PREFIX k = true →
        ¬ holds_string (m' !! k) ∧ srem_value x (m' !! k) = m' !! k)
  ∧ (∀ k, String.prefix USER_SESSIONS_PREFIX k = false → m' !! k = m !! k).
Proof.
  intros [Hty Hlook]%srem_all_returned. split.
  - intros k Hk. rewrite Hlook.
    destruct (decide (k ∈ index_keys m)) as [Hin|Hnin].
    + split; [|apply srem_value_idemp].
      intros ?%srem_value_holds_string. by apply (Hty k).
    + destruct (m !! k) as [v|] eqn:Hv; [|simpl; split; [tauto|reflexivity]].
      destruct Hnin. apply elem_of_index_keys. by rewrite Hv.
  - intros k Hk. rewrite Hlook, decide_False; [done|].
    intros [Hp _]%elem_of_index_keys. congruence.
Qed.

Lemma srem_fixed_not_member (x : string) (m : gmap string rvalue) (k : string) :
  srem_value x (m !! k) = m !! k → x ∉ members_of m k.
Proof.
  unfold members_of. intros Hfix.
  destruct (m !! k) as [[? ?|s]|] eqn:Hv; [set_solver| |set_solver].
  rewrite <- Hv in Hfix.
  destruct (srem_value_members x m k s) as [? _]; [congruence|done].
Qed.

(** After a revocation that returned, the pointer is gone and under the
    index prefix no key holds a string, an empty set or a set with the
    family in it. *)
Lemma revoke_store_returned (f : string) (m m' : gmap string rvalue) :
  revoke_store f m = (Returned tt, m') →
  m' !! (TOKEN_FAMILY_PREFIX +:+ f) = None
  ∧ (∀ k, String.prefix USER_SESSIONS_PREFIX k = true →
          ¬ holds_string (m' !! k) ∧ srem_value f (m' !! k) = m' !! k)
  ∧ (∀ k, String.prefix USER_SESSIONS_PREFIX k = true → f ∉ members_of m' k).
Proof.
  unfold revoke_store.
  assert (Hpost : ∀ after,
    after !! (TOKEN_FAMILY_PREFIX +:+ f) = None →
    srem_all (index_keys after) f after = (Returned tt, m') →
    m' !! (TOKEN_FAMILY_PREFIX +:+ f) = None
    ∧ (∀ k, String.prefix USER_SESSIONS_PREFIX k = true →
            ¬ holds_string (m' !! k) ∧ srem_value f (m' !! k) = m' !! k)
    ∧ (∀ k, String.prefix USER_SESSIONS_PREFIX k = true → f ∉ members_of m' k)).
  { intros after Hgone [Hidx Hout]%srem_index_returned. repeat split.
    - rewrite Hout; [done|apply pointer_key_not_index].
    - by apply Hidx.
    - by apply Hidx.
    - intros k Hk. by apply srem_fixed_not_member, Hidx. }
  destruct (m !! (TOKEN_FAMILY_PREFIX +:+ f)) as [[current ttl|s]|] eqn:Hptr;
    [| discriminate |]; apply Hpost, lookup_delete_eq.
Qed.

(** Revoking again changes nothing. *)
Lemma revoke_store_idempotent (f : string) (m m' : gmap string rvalue) :
  revoke_store f m = (Returned tt, m') →
  revoke_store f m' = (Returned tt, m').
Proof.
  intros (Hgone & Hidx & _)%revoke_store_returned.
  unfold revoke_store. rewrite Hgone. simpl.
  rewrite (delete_id m') by done.
  apply srem_all_fixed. intros k [Hk _]%elem_of_index_keys. by apply Hidx.
Qed.

(** ** Well-formed keyspaces *)

Lemma well_formed_index (m : gmap string rvalue) (k : string) :
  well_formed m →
  String.prefix USER_SESSIONS_PREFIX k = true →
  ¬ holds_string (m !! k) ∧ "" ∉ members_of m k.
Proof.
  intros Hwf Hk. unfold members_of.
  destruct (m !! k) as [v|] eqn:Hv; [|split; [tauto|set_solver]].
  specialize (Hwf k v Hv). unfold entry_ok in Hwf. rewrite Hk in Hwf.
  destruct v as [? ?|s]; [done|]. simpl. split; [tauto|].
  apply andb_true_iff in Hwf as [Hno _].
  apply negb_true_iff, bool_decide_eq_false in Hno. done.
Qed.

Lemma well_formed_pointer (m : gmap string rvalue) (f : string) (s : gset string) :
  well_formed m → m !! (TOKEN_FAMILY_PREFIX +:+ f) ≠ Some (RSet s).
Proof.
  intros Hwf Hv. specialize (Hwf _ _ Hv). unfold entry_ok in Hwf.
  rewrite pointer_key_not_index, prefix_append in Hwf. done.
Qed.

Lemma well_formed_record (m : gmap string rvalue) (t : string) (s : gset string) :
  well_formed m → m !! (REFRESH_TOKEN_PREFIX +:+ t) ≠ Some (RSet s).
Proof.
  intros Hwf Hv. specialize (Hwf _ _ Hv). unfold entry_ok in Hwf.
  rewrite record_key_not_index, prefix_append in Hwf.
  by rewrite orb_true_r in Hwf.
Qed.

Lemma well_formed_delete (m : gmap string rvalue) (k : string) :
  well_formed m → well_formed (delete k m).
Proof. apply map_Forall_delete. Qed.

Lemma revoke_store_returns (f : string) (m : gmap string rvalue) :
  well_formed m → ∃ m', revoke_store f m = (Returned tt, m').
Proof.
  intros Hwf. unfold revoke_store.
  assert (Hloop : ∀ after, well_formed after →
            ∃ m', srem_all (index_keys after) f after = (Returned tt, m')).
  { intros after Hafter. apply srem_all_returns.
    intros k [Hk _]%elem_of_index_keys.
    by apply (well_formed_index after k Hafter Hk). }
  destruct (m !! (TOKEN_FAMILY_PREFIX +:+ f)) as [[current ttl|s]|] eqn:Hptr.
  - apply Hloop, well_formed_delete.
    destruct (String.eqb current ""); [done|by apply well_formed_delete].
  - by destruct (well_formed_pointer m f s Hwf).
  - by apply Hloop, well_formed_delete.
Qed.

(** ** Sorting *)

Section Sorting.

Context {A : Type} (compareFn : A → A → Z).

Hypothesis compare_total : ∀ a b, compareFn a b ≤ 0 ∨ compareFn b a ≤ 0.
Hypothesis compare_trans :
  ∀ a b c, compareFn a b ≤ 0 → compareFn b c ≤ 0 → compareFn a c ≤ 0.

Lemma sort_insert_perm (x : A) (l : list A) :
  sort_insert compareFn x l ≡ₚ x :: l.
Proof.
  induction l as [|y l IH]; simpl; [done|].
  destruct (decide (compareFn x y ≤ 0)); [done|].
  rewrite IH. apply Permutation_swap.
Qed.

Lemma Array_sort_perm (l : list A) : Array_sort compareFn l ≡ₚ l.
Proof.
  induction l as [|x l IH]; simpl; [done|].
  by rewrite sort_insert_perm, IH.
Qed.

Lemma sort_insert_sorted (x : A) (l : list A) :
  StronglySorted (λ a b, compareFn a b ≤ 0) l →
  StronglySorted (λ a b, compareFn a b ≤ 0) (sort_insert compareFn x l).
Proof.
  induction 1 as [|y l Hl IH Hy]; simpl.
  - repeat constructor.
  - destruct (decide (compareFn x y ≤ 0)) as [Hxy|Hxy].
    + constructor; [by constructor|].
      constructor; [done|].
      eapply Forall_impl; [exact Hy|]. intros z Hz. by eapply compare_trans.
    + constructor; [done|].
      rewrite sort_insert_perm. constructor; [|done].
      destruct (compare_total x y); [done|done].
Qed.

Lemma Array_sort_sorted (l : list A) :
  StronglySorted (λ a b, compareFn a b ≤ 0) (Array_sort compareFn l).
Proof.
  induction l as [|x l IH]; simpl; [constructor|by apply sort_insert_sorted].
Qed.

End Sorting.

Lemma sessions_sorted (l : list Session) :
  StronglySorted most_recent_first (Array_sort by_lastUsedAt_desc l).
Proof.
  assert (H : StronglySorted (λ a b, by_lastUsedAt_desc a b ≤ 0)
                (Array_sort by_lastUsedAt_desc l)).
  { apply Array_sort_sorted; unfold by_lastUsedAt_desc; intros; lia. }
  induction H as [|x rest Hrest IH Hx]; constructor; [done|].
  eapply Forall_impl; [exact Hx|].
  unfold by_lastUsedAt_desc, most_recent_first. intros; lia.
Qed.

(** ** The sweep on the keyspace *)

Lemma members_of_srem (x k : string) (m : gmap string rvalue) :
  members_of (partial_alter (srem_value x) k m) k = members_of m k ∖ {[x]}.
Proof.
  unfold members_of. rewrite lookup_partial_alter_eq.
  destruct (m !! k) as [[? ?|s]|]; simpl; [set_solver| |set_solver].
  destruct (decide (s ∖ {[x]} = ∅)) as [->|]; done.
Qed.

(** The inner loop of [cleanupExpiredTokens] on the index key [k]. *)
Lemma sweep_members_run (k : string) (fams : list string) m t lg :
  String.prefix USER_SESSIONS_PREFIX k = true →
  ¬ holds_string (m !! k) →
  ∃ m' lg',
    for_of fams (λ family,
      let* present := redis_exists (TOKEN_FAMILY_PREFIX +:+ family) in
      if negb present then redis_sRem k family else ret tt)
      (World m t [] lg)
    = (Returned tt, World m' t [] (lg ++ lg'))
    ∧ Forall (λ c, sweeper_command c = true) lg'
    ∧ (∀ j, j ≠ k → m' !! j = m !! j)
    ∧ ¬ holds_string (m' !! k)
    ∧ (∀ f, f ∈ members_of m' k ↔
            f ∈ members_of m k
            ∧ ¬ (f ∈ fams ∧ m !! (TOKEN_FAMILY_PREFIX +:+ f) = None)).
Proof.
  intros Hk. revert m lg. induction fams as [|f0 fams IH]; intros m lg Hty.
  - exists m, []. simpl. unfold ret. rewrite app_nil_r.
    do 4 (split; [done|]). intros f. split; [|by intros [? _]].
    intros Hf. split; [done|]. intros [Hin _]. by apply elem_of_nil in Hin.
  - cbn [for_of].
    destruct (m !! (TOKEN_FAMILY_PREFIX +:+ f0)) as [v0|] eqn:Hptr.
    + erewrite bind_returned; cycle 1.
      { run. unfold exists_. rewrite Hptr.
        rewrite bool_decide_eq_true_2 by eauto. reflexivity. }
      destruct (IH m (lg ++ [EXISTS (TOKEN_FAMILY_PREFIX +:+ f0)]) Hty)
        as (m' & lg' & Hrun & Hlog & Hother & Hty' & Hmem).
      exists m', (EXISTS (TOKEN_FAMILY_PREFIX +:+ f0) :: lg').
      rewrite Hrun, <- app_assoc. simpl.
      split; [done|]. split; [by constructor|]. do 2 (split; [done|]).
      intros f. rewrite Hmem. split.
      * intros [Hf Hn]. split; [done|].
        intros [[->|Hin]%elem_of_cons Hnone]; [congruence|]. by apply Hn.
      * intros [Hf Hn]. split; [done|].
        intros [Hin Hnone]. apply Hn. split; [|done].
        by apply list_elem_of_further.
    + destruct (sRem_returns k f0 m Hty) as [m1 Hstep].
      erewrite bind_returned; cycle 1.
      { run. unfold exists_. rewrite Hptr.
        rewrite bool_decide_eq_false_2 by (by intros [? ?]). simpl.
        run. rewrite Hstep. simpl. reflexivity. }
      apply sRem_returned in Hstep as [_ ->].
      set (m1 := partial_alter (srem_value f0) k m).
      assert (Hty1 : ¬ holds_string (m1 !! k)).
      { unfold m1. rewrite lookup_partial_alter_eq.
        by intros ?%srem_value_holds_string. }
      destruct (IH m1 ((lg ++ [EXISTS (TOKEN_FAMILY_PREFIX +:+ f0)])
                         ++ [SREM k f0]) Hty1)
        as (m' & lg' & Hrun & Hlog & Hother & Hty' & Hmem).
      exists m', (EXISTS (TOKEN_FAMILY_PREFIX +:+ f0) :: SREM k f0 :: lg').
      rewrite Hrun, <- !app_assoc. simpl.
      assert (Hsame : ∀ f, m1 !! (TOKEN_FAMILY_PREFIX +:+ f)
                           = m !! (TOKEN_FAMILY_PREFIX +:+ f)).
      { intros f. unfold m1. apply lookup_partial_alter_ne.
        intros ->. by rewrite pointer_key_not_index in Hk. }
      assert (Hm1 : members_of m1 k = members_of m k ∖ {[f0]})
        by apply members_of_srem.
      split; [done|]. split; [by repeat constructor|].
      split; [|split; [done|]].
      { intros j Hj. rewrite Hother by done.
        unfold m1. by apply lookup_partial_alter_ne. }
      intros f. rewrite Hmem, Hm1, Hsame, elem_of_difference, elem_of_singleton.
      split.
      * intros [[Hf Hne] Hn]. split; [done|].
        intros [[->|Hin]%elem_of_cons Hnone]; [done|]. by apply Hn.
      * intros [Hf Hn]. split; [split; [done|]|].
        -- intros ->. apply Hn. split; [apply list_elem_of_here|done].
        -- intros [Hin Hnone]. apply Hn. split; [|done].
           by apply list_elem_of_further.
Qed.

(** The outer loop, over index keys that hold no string. *)
Lemma sweep_keys_run (keys : list string) m t lg :
  (∀ k, k ∈ keys → String.prefix USER_SESSIONS_PREFIX k = true) →
  (∀ k, String.prefix USER_SESSIONS_PREFIX k = true → ¬ holds_string (m !! k)) →
  ∃ m' lg',
    for_of keys (λ userKey,
      let* tokenFamilies := redis_sMembers userKey in
      for_of tokenFamilies (λ family,
        let* present := redis_exists (TOKEN_FAMILY_PREFIX +:+ family) in
        if negb present then redis_sRem userKey family else ret tt))
      (World m t [] lg)
    = (Returned tt, World m' t [] (lg ++ lg'))
    ∧ Forall (λ c, sweeper_command c = true) lg'
    ∧ (∀ j, j ∉ keys → m' !! j = m !! j)
    ∧ (∀ k, String.prefix USER_SESSIONS_PREFIX k = true → ¬ holds_string (m' !! k))
    ∧ (∀ k, k ∈ keys → ∀ f,
         f ∈ members_of m' k ↔
         f ∈ members_of m k ∧ is_Some (m !! (TOKEN_FAMILY_PREFIX +:+ f))).
Proof.
  revert m lg. induction keys as [|k keys IH]; intros m lg Hkeys Hty.
  - exists m, []. simpl. unfold ret. rewrite app_nil_r.
    do 4 (split; [done|]). by intros k ?%elem_of_nil.
  - assert (Hk : String.prefix USER_SESSIONS_PREFIX k = true)
      by apply Hkeys, list_elem_of_here.
    cbn [for_of].
    assert (Hfams : sMembers k m = (Returned (elements (members_of m k)), m)).
    { unfold sMembers, members_of. specialize (Hty k Hk).
      destruct (m !! k) as [[? ?|s]|]; simpl in *; [tauto|done|].
      by rewrite elements_empty. }
    destruct (sweep_members_run k (elements (members_of m k)) m t
                (lg ++ [SMEMBERS k]) Hk (Hty k Hk))
      as (m1 & lg1 & Hrun1 & Hlog1 & Hother1 & Hty1 & Hmem1).
    erewrite bind_returned; cycle 1.
    { erewrite bind_returned; [exact Hrun1|].
      unfold redis_sMembers. rewrite round_trip_available, Hfams. simpl.
      reflexivity. }
    assert (Htyped1 : ∀ j, String.prefix USER_SESSIONS_PREFIX j = true →
                           ¬ holds_string (m1 !! j)).
    { intros j Hj. destruct (decide (j = k)) as [->|Hne]; [done|].
      rewrite Hother1 by done. by apply Hty. }
    destruct (IH m1 ((lg ++ [SMEMBERS k]) ++ lg1)) as
      (m' & lg' & Hrun & Hlog & Hother & Hty' & Hmem); [|done|].
    { intros j Hj. by apply Hkeys, list_elem_of_further. }
    exists m', (SMEMBERS k :: lg1 ++ lg').
    rewrite Hrun, <- !app_assoc. simpl.
    assert (Hsame : ∀ f, m1 !! (TOKEN_FAMILY_PREFIX +:+ f)
                         = m !! (TOKEN_FAMILY_PREFIX +:+ f)).
    { intros f. apply Hother1. intros <-.
      by rewrite pointer_key_not_index in Hk. }
    assert (Hmk : ∀ f, f ∈ members_of m1 k ↔
              f ∈ members_of m k ∧ is_Some (m !! (TOKEN_FAMILY_PREFIX +:+ f))).
    { intros f. rewrite Hmem1, elem_of_elements.
      destruct (m !! (TOKEN_FAMILY_PREFIX +:+ f)) as [v|]; split.
      - intros [? _]. eauto.
      - intros [? _]. split; [done|]. by intros [_ ?].
      - intros [Hf Hn]. destruct Hn. done.
      - by intros [_ [? ?]]. }
    assert (Hmj : ∀ j, j ≠ k → members_of m1 j = members_of m j).
    { intros j Hj. unfold members_of. by rewrite Hother1. }
    split; [done|]. split; [|split; [|split; [done|]]].
    + constructor; [done|]. by apply Forall_app.
    + intros j Hj. apply not_elem_of_cons in Hj as [Hjk Hjn].
      rewrite Hother by done. by apply Hother1.
    + intros j Hj f.
      assert (Hmid : f ∈ members_of m1 j ↔
                f ∈ members_of m j ∧ is_Some (m !! (TOKEN_FAMILY_PREFIX +:+ f))
                ∨ (j ≠ k ∧ f ∈ members_of m j)).
      { destruct (decide (j = k)) as [->|Hne]; [rewrite Hmk; tauto|].
        rewrite Hmj by done. tauto. }
      destruct (decide (j ∈ keys)) as [Hin|Hnin].
      * rewrite (Hmem j Hin), Hsame, Hmid. tauto.
      * apply elem_of_cons in Hj as [->|?]; [|done].
        unfold members_of at 1. rewrite Hother by done.
        apply Hmk.
Qed.

(** ** Fail-closed computations *)

Lemma quiet_refl (w : world) : quiet w w.
Proof. by exists 0%nat. Qed.

Lemma quiet_trans (w1 w2 w3 : world) : quiet w1 w2 → quiet w2 w3 → quiet w1 w3.
Proof.
  intros [n Hn] [k Hk]. exists (n + k)%nat.
  by rewrite Hn, Hk, replicate_add, app_assoc.
Qed.

Lemma quiet_rejected (w1 w2 w3 : world) :
  quiet w1 w2 → rejected w2 w3 → rejected w1 w3.
Proof.
  intros [n Hn] [k Hk]. exists (n + k)%nat.
  by rewrite Hn, Hk, replicate_add, app_assoc.
Qed.

(** The two cases exclude each other. *)
Lemma quiet_not_rejected (w w' : world) : quiet w w' → ¬ rejected w w'.
Proof.
  intros [n Hn] [k Hk]. rewrite Hn in Hk. clear Hn.
  assert (Hlen : n = S k).
  { apply (f_equal length) in Hk.
    rewrite !length_app, !length_replicate in Hk. simpl in Hk. lia. }
  subst n. apply (f_equal (λ l, l !! k)) in Hk.
  rewrite lookup_app_l, lookup_replicate_2 in Hk
    by (rewrite ?length_replicate; lia).
  rewrite lookup_app_r, length_replicate, Nat.sub_diag in Hk
    by (rewrite length_replicate; lia).
  discriminate.
Qed.

Lemma fail_closed_pure {A} (f : world → outcome A) :
  fail_closed (λ w, (f w, w)).
Proof. intros w o w' [= <- <-]. left. apply quiet_refl. Qed.

Lemma fail_closed_ret {A} (a : A) : fail_closed (ret a).
Proof. apply (fail_closed_pure (λ _, Returned a)). Qed.

Lemma fail_closed_throw {A} (e : error) : fail_closed (throw (A := A) e).
Proof. apply (fail_closed_pure (λ _, Thrown e)). Qed.

Lemma fail_closed_bind {A B} (m : M A) (k : A → M B) :
  fail_closed m → (∀ a, fail_closed (k a)) → fail_closed (bind m k).
Proof.
  intros Hm Hk w o w'. unfold bind.
  destruct (m w) as [[a|e] w1] eqn:Hrun; specialize (Hm _ _ _ Hrun).
  - intros Hcont. destruct Hm as [Hq|[_ [=]]].
    destruct (Hk a _ _ _ Hcont) as [Hq'|[Hr ->]].
    + left. by eapply quiet_trans.
    + right. split; [by eapply quiet_rejected|done].
  - intros [= <- <-]. destruct Hm as [Hq|[Hr [= ->]]]; [by left|by right].
Qed.

Lemma fail_closed_for_of {A} (l : list A) (body : A → M unit) :
  (∀ x, fail_closed (body x)) → fail_closed (for_of l body).
Proof.
  intros Hbody. induction l as [|x l IH]; simpl.
  - apply fail_closed_ret.
  - apply fail_closed_bind; [apply Hbody|done].
Qed.

(** A [catch] keeps a computation fail-closed when its handler is
    fail-closed and rethrows a rejection without a round-trip. *)
Lemma fail_closed_try_catch {A} (body : M A) (handler : error → M A) :
  fail_closed body →
  (∀ e, fail_closed (handler e)) →
  (∀ w, handler RedisUnavailable w = (Thrown RedisUnavailable, w)) →
  fail_closed (try_catch body handler).
Proof.
  intros Hbody Hhandler Hrethrow w o w'. unfold try_catch.
  destruct (body w) as [[a|e] w1] eqn:Hrun; specialize (Hbody _ _ _ Hrun).
  - intros [= <- <-]. done.
  - intros Hcatch. destruct Hbody as [Hq|[Hr [= ->]]].
    + destruct (Hhandler e _ _ _ Hcatch) as [Hq'|[Hr ->]].
      * left. by eapply quiet_trans.
      * right. split; [by eapply quiet_rejected|done].
    + rewrite Hrethrow in Hcatch. injection Hcatch as <- <-. by right.
Qed.

Lemma fail_closed_round_trip {A} (c : command)
    (f : gmap string rvalue → outcome A * gmap string rvalue) :
  fail_closed (round_trip c f).
Proof.
  intros w o w'. unfold round_trip.
  destruct (faults w) as [|[] fs] eqn:Hfs.
  - destruct (f (store w)) as [r m']. intros [= <- <-]. left.
    exists 0%nat. by rewrite Hfs.
  - intros [= <- <-]. right. split; [|done]. exists 0%nat. by rewrite Hfs.
  - destruct (f (store w)) as [r m']. intros [= <- <-]. left.
    exists 1%nat. by rewrite Hfs.
Qed.

Lemma fail_closed_getRedisClient : fail_closed getRedisClient.
Proof.
  intros w o w'. unfold getRedisClient.
  destruct (faults w) as [|[] fs] eqn:Hfs; intros [= <- <-].
  - left. exists 0%nat. by rewrite Hfs.
  - right. split; [|done]. exists 0%nat. by rewrite Hfs.
  - left. exists 1%nat. by rewrite Hfs.
Qed.

Lemma fail_closed_revokeTokenFamily (family : option string) :
  fail_closed (revokeTokenFamily family).
Proof.
  unfold revokeTokenFamily. destruct (negb (truthy family)).
  - apply fail_closed_ret.
  - apply fail_closed_bind; [apply fail_closed_getRedisClient|intros _].
    apply fail_closed_bind; [apply fail_closed_round_trip|intros current].
    apply fail_closed_bind.
    { destruct (truthy current);
        [apply fail_closed_round_trip|apply fail_closed_ret]. }
    intros _. apply fail_closed_bind; [apply fail_closed_round_trip|intros _].
    apply fail_closed_bind; [apply fail_closed_round_trip|intros keys].
    apply fail_closed_for_of. intros key. apply fail_closed_round_trip.
Qed.

Lemma fail_closed_revokeAllUserTokens (user : string) :
  fail_closed (revokeAllUserTokens user).
Proof.
  unfold revokeAllUserTokens.
  apply fail_closed_bind; [apply fail_closed_getRedisClient|intros _].
  apply fail_closed_bind; [apply fail_closed_round_trip|intros families].
  apply fail_closed_bind; [|intros _; apply fail_closed_round_trip].
  apply fail_closed_for_of. intros family. apply fail_closed_revokeTokenFamily.
Qed.

Lemma fail_closed_cleanupExpiredTokens : fail_closed cleanupExpiredTokens.
Proof.
  unfold cleanupExpiredTokens.
  apply fail_closed_bind; [apply fail_closed_getRedisClient|intros _].
  apply fail_closed_bind; [apply fail_closed_round_trip|intros keys].
  apply fail_closed_for_of. intros userKey.
  apply fail_closed_bind; [apply fail_closed_round_trip|intros families].
  apply fail_closed_for_of. intros family.
  apply fail_closed_bind; [apply fail_closed_round_trip|intros present].
  destruct (negb present); [apply fail_closed_round_trip|apply fail_closed_ret].
Qed.

(** ** Computations that keep a property of the keyspace *)

Section Preservation.

Context (I : gmap string rvalue → Prop).

Lemma preserves_pure {A} (f : world → outcome A) : preserves I (λ w, (f w, w)).
Proof. by intros w. Qed.

Lemma preserves_ret {A} (a : A) : preserves I (ret a).
Proof. by intros w. Qed.

Lemma preserves_throw {A} (e : error) : preserves I (throw (A := A) e).
Proof. by intros w. Qed.

Lemma preserves_bind {A B} (m : M A) (k : A → M B) :
  preserves I m → (∀ a, preserves I (k a)) → preserves I (bind m k).
Proof.
  intros Hm Hk w Hw. unfold bind. specialize (Hm w Hw).
  destruct (m w) as [[a|e] w1]; simpl in *; [by apply Hk|done].
Qed.

Lemma preserves_try_catch {A} (body : M A) (handler : error → M A) :
  preserves I body → (∀ e, preserves I (handler e)) →
  preserves I (try_catch body handler).
Proof.
  intros Hbody Hhandler w Hw. unfold try_catch. specialize (Hbody w Hw).
  destruct (body w) as [[a|e] w1]; simpl in *; [done|by apply Hhandler].
Qed.

Lemma preserves_for_of {A} (l : list A) (body : A → M unit) :
  (∀ x, preserves I (body x)) → preserves I (for_of l body).
Proof.
  intros Hbody. induction l as [|x l IH]; simpl;
    [apply preserves_ret|by apply preserves_bind].
Qed.

Lemma preserves_round_trip {A} (c : command)
    (f : gmap string rvalue → outcome A * gmap string rvalue) :
  (∀ m, I m → I (snd (f m))) → preserves I (round_trip c f).
Proof.
  intros Hf w Hw. unfold round_trip. specialize (Hf _ Hw).
  destruct (faults w) as [|[] fs]; simpl; [|done|];
    by destruct (f (store w)).
Qed.

Lemma preserves_getRedisClient : preserves I getRedisClient.
Proof. intros w Hw. unfold getRedisClient. by destruct (faults w) as [|[] fs]. Qed.

Lemma preserves_read {A} (c : command)
    (f : gmap string rvalue → outcome A * gmap string rvalue) :
  (∀ m, snd (f m) = m) → preserves I (round_trip c f).
Proof. intros Hf. apply preserves_round_trip. intros m. by rewrite Hf. Qed.

Lemma preserves_get k : preserves I (redis_get k).
Proof.
  apply preserves_read. intros m. unfold get.
  by destruct (m !! k) as [[? ?|?]|].
Qed.

Lemma preserves_sMembers k : preserves I (redis_sMembers k).
Proof.
  apply preserves_read. intros m. unfold sMembers.
  by destruct (m !! k) as [[? ?|?]|].
Qed.

Lemma preserves_exists k : preserves I (redis_exists k).
Proof. by apply preserves_read. Qed.

Lemma preserves_keys p : preserves I (redis_keys p).
Proof. by apply preserves_read. Qed.

End Preservation.

Section Soundness.

Context (JSON_parse : string → option RefreshTokenData).

Lemma sound_empty : sound JSON_parse ∅.
Proof. apply map_Forall_empty. Qed.

Lemma sound_split (m : gmap string rvalue) :
  sound JSON_parse m ↔ well_formed m ∧ records_parse JSON_parse m.
Proof.
  unfold sound, well_formed, records_parse, sound_entry. split.
  - intros H. split; intros k v Hv; by destruct (andb_prop _ _ (H k v Hv)).
  - intros [H1 H2] k v Hv. by rewrite (H1 k v Hv), (H2 k v Hv).
Qed.

Lemma preserves_del k : preserves (sound JSON_parse) (redis_del k).
Proof. apply preserves_round_trip. intros m. apply map_Forall_delete. Qed.

Lemma preserves_setEx k seconds v :
  (∀ ttl, sound_entry JSON_parse k (RString v ttl) = true) →
  preserves (sound JSON_parse) (redis_setEx k seconds v).
Proof.
  intros Hk. apply preserves_round_trip. intros m Hm. unfold setEx.
  destruct (decide (0 < seconds)); [|done]. by apply map_Forall_insert_2.
Qed.

Lemma preserves_sAdd user x :
  x ≠ "" →
  preserves (sound JSON_parse) (redis_sAdd (USER_SESSIONS_PREFIX +:+ user) x).
Proof.
  intros Hx. apply preserves_round_trip. intros m Hm. unfold sAdd.
  destruct (m !! (USER_SESSIONS_PREFIX +:+ user)) as [[? ?|s]|] eqn:Hk;
    [done| |]; simpl; apply map_Forall_insert_2; try done.
  - specialize (Hm _ _ Hk). unfold sound_entry, entry_ok, record_ok in *.
    rewrite prefix_append in *. simpl in *.
    apply andb_true_iff in Hm as [[Hno _]%andb_true_iff _].
    apply negb_true_iff, bool_decide_eq_false in Hno.
    rewrite !andb_true_iff, !negb_true_iff, !bool_decide_eq_false.
    repeat split; set_solver.
  - unfold sound_entry, entry_ok, record_ok. rewrite prefix_append. simpl.
    rewrite !andb_true_iff, !negb_true_iff, !bool_decide_eq_false.
    repeat split; set_solver.
Qed.

Lemma preserves_sRem k x : preserves (sound JSON_parse) (redis_sRem k x).
Proof.
  apply preserves_round_trip. intros m Hm. unfold sRem, srem_set.
  destruct (m !! k) as [[? ?|s]|] eqn:Hk; simpl; try done.
  destruct (decide (s ∖ {[x]} = ∅)) as [|Hne]; [by apply map_Forall_delete|].
  apply map_Forall_insert_2; [|done].
  specialize (Hm _ _ Hk). unfold sound_entry, entry_ok, record_ok in *.
  destruct (String.prefix USER_SESSIONS_PREFIX k).
  - destruct (String.prefix REFRESH_TOKEN_PREFIX k); simpl in *.
    all: apply andb_true_iff in Hm as [[Hno _]%andb_true_iff _].
    all: apply negb_true_iff, bool_decide_eq_false in Hno.
    all: rewrite !andb_true_iff, !negb_true_iff, !bool_decide_eq_false.
    all: repeat split; set_solver.
  - done.
Qed.

Lemma preserves_revokeTokenFamily family :
  preserves (sound JSON_parse) (revokeTokenFamily family).
Proof.
  unfold revokeTokenFamily. destruct (negb (truthy family)).
  - apply preserves_ret.
  - apply preserves_bind; [apply preserves_getRedisClient|intros _].
    apply preserves_bind; [apply preserves_get|intros current].
    apply preserves_bind.
    { destruct (truthy current); [apply preserves_del|apply preserves_ret]. }
    intros _. apply preserves_bind; [apply preserves_del|intros _].
    apply preserves_bind; [apply preserves_keys|intros keys].
    apply preserves_for_of. intros key. apply preserves_sRem.
Qed.

Lemma preserves_revokeAllUserTokens user :
  preserves (sound JSON_parse) (revokeAllUserTokens user).
Proof.
  unfold revokeAllUserTokens.
  apply preserves_bind; [apply preserves_getRedisClient|intros _].
  apply preserves_bind; [apply preserves_sMembers|intros families].
  apply preserves_bind; [|intros _; apply preserves_del].
  apply preserves_for_of. intros family. apply preserves_revokeTokenFamily.
Qed.

Lemma preserves_cleanupExpiredTokens :
  preserves (sound JSON_parse) cleanupExpiredTokens.
Proof.
  unfold cleanupExpiredTokens.
  apply preserves_bind; [apply preserves_getRedisClient|intros _].
  apply preserves_bind; [apply preserves_keys|intros keys].
  apply preserves_for_of. intros userKey.
  apply preserves_bind; [apply preserves_sMembers|intros families].
  apply preserves_for_of. intros family.
  apply preserves_bind; [apply preserves_exists|intros present].
  destruct (negb present); [apply preserves_sRem|apply preserves_ret].
Qed.

End Soundness.

(** ** Reading back a run that returned *)

Lemma bind_returned_inv {A B} (m : M A) (k : A → M B) (w w' : world) (b : B) :
  bind m k w = (Returned b, w') →
  ∃ a w1, m w = (Returned a, w1) ∧ k a w1 = (Returned b, w').
Proof.
  unfold bind. destruct (m w) as [[a|e] w1]; [|discriminate]. eauto.
Qed.

Lemma try_catch_returned_inv {A} (body : M A) (handler : error → M A)
    (w w' : world) (a : A) :
  try_catch body handler w = (Returned a, w') →
  body w = (Returned a, w')
  ∨ ∃ e w1, body w = (Thrown e, w1) ∧ handler e w1 = (Returned a, w').
Proof.
  unfold try_catch. destruct (body w) as [[a0|e] w1]; [by left|].
  intros Hcatch. right. eauto.
Qed.

Lemma string_at_lookup (m : gmap string rvalue) (k v : string) :
  string_at m k = Some v → ∃ ttl, m !! k = Some (RString v ttl).
Proof.
  unfold string_at. destruct (m !! k) as [[? ttl|?]|]; [|done..].
  intros [= ->]. eauto.
Qed.

(** A round-trip that returned was not rejected: the command was logged and
    the store answered with the value. *)
Lemma round_trip_returned_inv {A} (c : command)
    (f : gmap string rvalue → outcome A * gmap string rvalue)
    (w w' : world) (a : A) :
  round_trip c f w = (Returned a, w') →
  f (store w) = (Returned a, store w')
  ∧ clock w' = clock w ∧ log w' = log w ++ [c].
Proof.
  unfold round_trip. destruct (faults w) as [|[] fs]; [|discriminate|];
    destruct (f (store w)) as [o m']; by intros [= -> <-].
Qed.

Lemma getRedisClient_returned_inv (w w' : world) (u : unit) :
  getRedisClient w = (Returned u, w') →
  store w' = store w ∧ clock w' = clock w ∧ log w' = log w.
Proof.
  unfold getRedisClient. destruct (faults w) as [|[] fs]; [|discriminate|];
    by intros [= _ <-].
Qed.

Lemma setEx_returned_inv (k : string) (seconds : Z) (v : string)
    (m m' : gmap string rvalue) (u : unit) :
  setEx k seconds v m = (Returned u, m') →
  m' = <[k := RString v (Some seconds)]> m.
Proof. unfold setEx. destruct (decide (0 < seconds)); by intros [= _ <-]. Qed.

Lemma sAdd_returned_inv (k x : string) (m m' : gmap string rvalue) (u : unit) :
  sAdd k x m = (Returned u, m') →
  ∃ s, m' = <[k := RSet ({[x]} ∪ s)]> m ∧ s = members_of m k.
Proof.
  unfold sAdd, members_of.
  destruct (m !! k) as [[? ?|s]|]; [discriminate| |]; intros [= _ <-].
  - by exists s.
  - exists ∅. split; [|done]. f_equal. f_equal. set_solver.
Qed.

Lemma get_returned_inv (k : string) (m m' : gmap string rvalue)
    (r : option string) :
  get k m = (Returned r, m') →
  m' = m ∧ r = string_at m k ∧ ∀ s, m !! k ≠ Some (RSet s).
Proof.
  unfold get, string_at. destruct (m !! k) as [[? ?|s]|];
    [|discriminate|]; by intros [= <- <-].
Qed.

Lemma for_of_sRem_returned_inv (keys : list string) (x : string)
    (w w' : world) (u : unit) :
  for_of keys (λ k, redis_sRem k x) w = (Returned u, w') →
  srem_all keys x (store w) = (Returned tt, store w').
Proof.
  revert w. induction keys as [|k keys IH]; intros w; simpl.
  - by intros [= _ <-].
  - intros (u1 & w1 & Hstep & Hrest)%bind_returned_inv.
    apply round_trip_returned_inv in Hstep as (Hstep & _ & _).
    destruct u1. rewrite Hstep. by apply IH.
Qed.

(** A revocation of a truthy family that returned did on the keyspace what
    [revoke_store] does, whatever the schedule was. *)
Lemma revoke_returned_inv (f : string) (w w1 : world) :
  truthy (Some f) = true →
  revokeTokenFamily (Some f) w = (Returned tt, w1) →
  revoke_store f (store w) = (Returned tt, store w1).
Proof.
  intros Hf. unfold revokeTokenFamily, revoke_store. rewrite Hf. simpl.
  intros (u0 & w0 & Hstep & Hrun)%bind_returned_inv.
  apply getRedisClient_returned_inv in Hstep as (Hs0 & _ & _).
  apply bind_returned_inv in Hrun as (current & w2 & Hstep & Hrun).
  apply round_trip_returned_inv in Hstep
    as ((Hs2 & Hcur & Hnoset)%get_returned_inv & _ & _).
  apply bind_returned_inv in Hrun as (u3 & w3 & Hstep & Hrun).
  apply bind_returned_inv in Hrun as (u4 & w4 & Hdel & Hrun).
  apply round_trip_returned_inv in Hdel as ([= _ Hs4] & _ & _).
  apply bind_returned_inv in Hrun as (keys & w5 & Hkeys & Hrun).
  apply round_trip_returned_inv in Hkeys as ([= Hk Hs5] & _ & _).
  apply for_of_sRem_returned_inv in Hrun.
  rewrite <- Hs5, <- Hk, <- Hs4 in Hrun.
  rewrite <- Hs0. unfold string_at in Hcur.
  destruct (store w0 !! (TOKEN_FAMILY_PREFIX +:+ f)) as [[cur ttl|s]|] eqn:Hptr.
  - subst current. simpl in Hstep. destruct (String.eqb cur ""); simpl in Hstep.
    + injection Hstep as _ <-. by rewrite Hs2 in Hrun.
    + apply round_trip_returned_inv in Hstep as ([= _ Hs3] & _ & _).
      by rewrite <- Hs3, Hs2 in Hrun.
  - by destruct (Hnoset s).
  - subst current. simpl in Hstep. injection Hstep as _ <-.
    by rewrite Hs2 in Hrun.
Qed.

Section Properties.

Variable config : Config.
Variable jwt_sign : TokenPayload → option string → string → string → Z → string.
Variable jwt_verify : string → string → Z → verdict.
Variable JSON_stringify : RefreshTokenData → string.
Variable JSON_parse : string → option RefreshTokenData.

Local Abbreviation rotate :=
  (refreshTokenRotation config jwt_sign jwt_verify JSON_stringify JSON_parse).
Local Abbreviation issue := (generateTokenPair config jwt_sign JSON_stringify).
Local Abbreviation blacklist := (blacklistAccessToken config jwt_verify).
Local Abbreviation sessions := (getUserSessions JSON_parse).

(** *** Revocation of a falsy family *)

(** C10: when the family argument is falsy ([undefined] or the empty
    string) [revokeTokenFamily] returns at once: no round-trip to the
    store, no command executed, the world is the one it started from. *)
Theorem revokeTokenFamily_falsy (family : option string) (w : world) :
  truthy family = false →
  revokeTokenFamily family w = (Returned tt, w).
Proof. intros H. unfold revokeTokenFamily. by rewrite H. Qed.

(** *** Tokens that fail verification *)

(** C7: with the store available, a refresh token that [jwt.verify] rejects
    as expired makes the rotation throw [TokenExpiredError] (read as
    [TokenExpired]) after one DEL of the store entry keyed by that token,
    which is therefore gone; a token rejected for another reason makes it
    throw [JsonWebTokenError], and a verified token whose [type] is not
    ['refresh'] makes it throw ['Invalid token type'], both read as
    [InvalidToken], and neither touches the store. *)
Theorem rotation_rejects_unverified (token : string) (ua ip : option string)
    (w : world) :
  available w →
  (jwt_verify token (jwt_refreshSecret config) (clock w) = Expired →
   ∃ w', rotate token ua ip w = (Thrown TokenExpiredError, w')
         ∧ failure_of TokenExpiredError = TokenExpired
         ∧ store w' = delete (REFRESH_TOKEN_PREFIX +:+ token) (store w)
         ∧ store w' !! (REFRESH_TOKEN_PREFIX +:+ token) = None
         ∧ log w' = (log w ++ [DEL (REFRESH_TOKEN_PREFIX +:+ token)])%list)
  ∧ (jwt_verify token (jwt_refreshSecret config) (clock w) = Invalid →
     ∃ w', rotate token ua ip w = (Thrown JsonWebTokenError, w')
           ∧ failure_of JsonWebTokenError = InvalidToken
           ∧ store w' = store w ∧ log w' = log w)
  ∧ (∀ decoded,
       jwt_verify token (jwt_refreshSecret config) (clock w) = Verified decoded →
       d_type decoded ≠ Some "refresh" →
       ∃ w', rotate token ua ip w = (Thrown (Error "Invalid token type"), w')
             ∧ failure_of (Error "Invalid token type") = InvalidToken
             ∧ store w' = store w ∧ log w' = log w).
Proof.
  intros Hw. rewrite (available_inv w Hw). simpl.
  unfold refreshTokenRotation. repeat split.
  - intros Hv. run. rewrite Hv. run.
    eexists. repeat split; simpl; try reflexivity. apply lookup_delete_eq.
  - intros Hv. run. rewrite Hv. run. eexists. by repeat split.
  - intros decoded Hv Hty. run. rewrite Hv. simpl.
    destruct (decide (d_type decoded = Some "refresh")) as [|_]; [done|].
    run. eexists. by repeat split.
Qed.

(** *** Blacklisting *)

(** C6: with the store available, [blacklistAccessToken] always returns,
    and it executes a store command exactly when the token verifies with an
    [exp] such that [exp - now] is positive: then this is one SETEX of the
    blacklist key with that difference as time to live; otherwise the store
    and the log are as they were.  In particular nothing is written for a
    verified token whose [exp] is not after [now]. *)
Theorem blacklist_residual_lifetime (token : string) (w : world) :
  available w →
  ∃ w', blacklist token w = (Returned tt, w')
    ∧ ((∃ decoded exp,
          jwt_verify token (jwt_secret config) (clock w) = Verified decoded
          ∧ d_exp decoded = Some exp
          ∧ 0 < exp - clock w / 1000
          ∧ store w' = <[BLACKLIST_PREFIX +:+ token :=
                           RString "1" (Some (exp - clock w / 1000))]> (store w)
          ∧ log w' = (log w ++ [SETEX (BLACKLIST_PREFIX +:+ token)
                                      (exp - clock w / 1000) "1"])%list)
       ∨ ((¬ ∃ decoded exp,
             jwt_verify token (jwt_secret config) (clock w) = Verified decoded
             ∧ d_exp decoded = Some exp
             ∧ 0 < exp - clock w / 1000)
          ∧ store w' = store w ∧ log w' = log w))
    ∧ (∀ decoded exp,
         jwt_verify token (jwt_secret config) (clock w) = Verified decoded →
         d_exp decoded = Some exp →
         exp ≤ clock w / 1000 →
         store w' = store w ∧ log w' = log w).
Proof.
  intros Hw. rewrite (available_inv w Hw). simpl.
  unfold blacklistAccessToken. run.
  destruct (jwt_verify token (jwt_secret config) (clock w)) as [d| |] eqn:Hv;
    simpl.
  - destruct (d_exp d) as [e|] eqn:He.
    + destruct (decide (e - clock w / 1000 > 0)) as [Hpos|Hneg].
      * run. unfold setEx. rewrite decide_True by lia. simpl.
        eexists. split; [reflexivity|]. split.
        -- left. exists d, e. repeat split; try done. lia.
        -- intros d' e' [= <-] He' Hle.
           assert (e' = e) by congruence. lia.
      * run. eexists. split; [reflexivity|]. split.
        -- right. repeat split; try done.
           intros (d' & e' & [= <-] & He' & Hlt).
           assert (e' = e) by congruence. lia.
        -- done.
    + run. eexists. split; [reflexivity|]. split.
      * right. repeat split; try done.
        intros (d' & e' & [= <-] & He' & _). congruence.
      * done.
  - eexists. split; [reflexivity|]. split.
    + right. repeat split; try done. by intros (d' & e' & ? & _).
    + by intros.
  - eexists. split; [reflexivity|]. split.
    + right. repeat split; try done. by intros (d' & e' & ? & _).
    + by intros.
Qed.

(** *** Issuance *)

(** With the store available and the user's index key not held by a
    string, [generateTokenPair] returns. *)
Lemma issue_returns (uuid : string) (user : User) (ua ip : option string)
    (w : world) :
  available w →
  ¬ holds_string (store w !! (USER_SESSIONS_PREFIX +:+ u_id user)) →
  ∃ r w', issue uuid user ua ip w = (Returned r, w').
Proof.
  clear JSON_parse jwt_verify.
  intros Hw Hidx. rewrite (available_inv w Hw). simpl.
  unfold generateTokenPair. run. unfold sAdd.
  rewrite !lookup_insert_ne
    by (apply not_eq_sym; first [apply index_key_not_pointer
                                |apply index_key_not_record]).
  destruct (store w !! (USER_SESSIONS_PREFIX +:+ u_id user)) as [[v ttl|s]|];
    simpl; [by destruct Hidx| |]; by do 2 eexists.
Qed.

(** C3: whenever [generateTokenPair] returns, the [tokenFamily] it returns
    is the drawn identifier and both tokens verify to it; the store then
    holds the serialised record under the refresh token and the pointer
    from the family to the refresh token, both written with 604800 seconds
    to live, and the family is a member of the user's index; the commands
    the store received are exactly the two SETEX and the SADD, three
    writes. *)
Theorem issue_opens_family (uuid : string) (user : User) (ua ip : option string)
    (w w' : world) (r : IssuedTokens) :
  claims_round_trip jwt_sign jwt_verify →
  issue uuid user ua ip w = (Returned r, w') →
  ∃ da dr,
    i_tokenFamily r = uuid
    ∧ jwt_verify (i_accessToken r) (jwt_secret config) (clock w) = Verified da
    ∧ jwt_verify (i_refreshToken r) (jwt_refreshSecret config) (clock w) = Verified dr
    ∧ d_tokenFamily da = Some uuid
    ∧ d_tokenFamily dr = Some uuid
    ∧ store w' !! (REFRESH_TOKEN_PREFIX +:+ i_refreshToken r)
      = Some (RString
                (JSON_stringify
                   {| userId := u_id user; tokenFamily := uuid;
                      createdAt := clock w; lastUsedAt := clock w;
                      userAgent := ua; ipAddress := ip |})
                (Some 604800))
    ∧ store w' !! (TOKEN_FAMILY_PREFIX +:+ uuid)
      = Some (RString (i_refreshToken r) (Some 604800))
    ∧ uuid ∈ members_of (store w') (USER_SESSIONS_PREFIX +:+ u_id user)
    ∧ log w'
      = log w ++
        [SETEX (REFRESH_TOKEN_PREFIX +:+ i_refreshToken r) 604800
           (JSON_stringify
              {| userId := u_id user; tokenFamily := uuid;
                 createdAt := clock w; lastUsedAt := clock w;
                 userAgent := ua; ipAddress := ip |});
         SETEX (TOKEN_FAMILY_PREFIX +:+ uuid) 604800 (i_refreshToken r);
         SADD (USER_SESSIONS_PREFIX +:+ u_id user) uuid]
    ∧ length (filter (λ c, is_write c = true) (log w'))
      = (length (filter (λ c, is_write c = true) (log w)) + 3)%nat.
Proof.
  clear JSON_parse.
  intros Hrt Hrun. unfold generateTokenPair in Hrun.
  set (payload := {| p_id := u_id user; p_email := u_email user;
                     p_role := u_role user; p_tokenFamily := Some uuid |})
    in Hrun.
  apply bind_returned_inv in Hrun as (access & w1 & Hstep & Hrun).
  injection Hstep as <- <-.
  apply bind_returned_inv in Hrun as (refresh & w1 & Hstep & Hrun).
  injection Hstep as <- <-.
  apply bind_returned_inv in Hrun as (u & w1 & Hstep & Hrun).
  apply getRedisClient_returned_inv in Hstep as (Hs1 & Hc1 & Hl1).
  apply bind_returned_inv in Hrun as (created & w2 & Hstep & Hrun).
  injection Hstep as <- <-.
  apply bind_returned_inv in Hrun as (used & w2 & Hstep & Hrun).
  injection Hstep as <- <-.
  apply bind_returned_inv in Hrun as (u2 & w2 & Hstep & Hrun).
  apply round_trip_returned_inv in Hstep as (Hs2%setEx_returned_inv & Hc2 & Hl2).
  apply bind_returned_inv in Hrun as (u3 & w3 & Hstep & Hrun).
  apply round_trip_returned_inv in Hstep as (Hs3%setEx_returned_inv & Hc3 & Hl3).
  apply bind_returned_inv in Hrun as (u4 & w4 & Hstep & Hrun).
  apply round_trip_returned_inv in Hstep
    as ((s & Hs4 & _)%sAdd_returned_inv & Hc4 & Hl4).
  injection Hrun as <- <-. simpl.
  destruct (Hrt payload None (jwt_secret config) (jwt_expiresIn config) (clock w))
    as [xa Ha].
  destruct (Hrt payload (Some "refresh") (jwt_refreshSecret config)
              (jwt_refreshExpiresIn config) (clock w)) as [xr Hr].
  rewrite Hl4, Hl3, Hl2, Hl1, Hs4, Hs3, Hs2, Hs1, Hc1, Ha, Hr.
  do 2 eexists. split; [done|]. do 4 (split; [done|]).
  split; [|split; [|split; [|split]]].
  - rewrite lookup_insert_ne by apply index_key_not_record.
    rewrite lookup_insert_ne by apply pointer_key_not_record.
    by rewrite lookup_insert_eq.
  - rewrite lookup_insert_ne by apply index_key_not_pointer.
    by rewrite lookup_insert_eq.
  - unfold members_of. rewrite lookup_insert_eq. set_solver.
  - by rewrite <- !app_assoc.
  - rewrite !filter_app, !length_app. simpl. lia.
Qed.

(** *** Rotation *)

(** C2: whenever the rotation returns a pair, the presented token verified
    as a refresh token, its record was in the store, and the commands the
    store received are, in this order, the GET and the DEL of the old
    record, the SETEX of the new record under the new refresh token and the
    SETEX of the family pointer to the new refresh token.  Both new tokens
    are signed over the presented token's claims and verify to its
    [tokenFamily]; the new record has the old [createdAt], the clock as
    [lastUsedAt], and each of [userAgent] and [ipAddress] replaced only
    when a truthy one was supplied. *)
Theorem rotation_success (old : string) (ua ip : option string) (w w' : world)
    (pair : TokenPair) :
  claims_round_trip jwt_sign jwt_verify →
  rotate old ua ip w = (Returned pair, w') →
  ∃ decoded str ttl tokenData da dr,
    jwt_verify old (jwt_refreshSecret config) (clock w) = Verified decoded
    ∧ d_type decoded = Some "refresh"
    ∧ store w !! (REFRESH_TOKEN_PREFIX +:+ old) = Some (RString str ttl)
    ∧ JSON_parse str = Some tokenData
    ∧ let payload := {| p_id := d_id decoded; p_email := d_email decoded;
                        p_role := d_role decoded;
                        p_tokenFamily := d_tokenFamily decoded |} in
      let newTokenData :=
        {| userId := userId tokenData; tokenFamily := tokenFamily tokenData;
           createdAt := createdAt tokenData; lastUsedAt := clock w;
           userAgent := if truthy ua then ua else userAgent tokenData;
           ipAddress := if truthy ip then ip else ipAddress tokenData |} in
      accessToken pair
      = jwt_sign payload None (jwt_secret config) (jwt_expiresIn config) (clock w)
      ∧ refreshToken pair
        = jwt_sign payload (Some "refresh") (jwt_refreshSecret config)
            (jwt_refreshExpiresIn config) (clock w)
      ∧ jwt_verify (accessToken pair) (jwt_secret config) (clock w) = Verified da
      ∧ jwt_verify (refreshToken pair) (jwt_refreshSecret config) (clock w)
        = Verified dr
      ∧ d_tokenFamily da = d_tokenFamily decoded
      ∧ d_tokenFamily dr = d_tokenFamily decoded
      ∧ log w'
        = log w ++
          [GET (REFRESH_TOKEN_PREFIX +:+ old);
           DEL (REFRESH_TOKEN_PREFIX +:+ old);
           SETEX (REFRESH_TOKEN_PREFIX +:+ refreshToken pair) 604800
             (JSON_stringify newTokenData);
           SETEX (TOKEN_FAMILY_PREFIX +:+ render (d_tokenFamily decoded)) 604800
             (refreshToken pair)]
      ∧ store w'
        = <[TOKEN_FAMILY_PREFIX +:+ render (d_tokenFamily decoded) :=
              RString (refreshToken pair) (Some 604800)]>
            (<[REFRESH_TOKEN_PREFIX +:+ refreshToken pair :=
                 RString (JSON_stringify newTokenData) (Some 604800)]>
               (delete (REFRESH_TOKEN_PREFIX +:+ old) (store w)))
      ∧ store w' !! (TOKEN_FAMILY_PREFIX +:+ render (d_tokenFamily decoded))
        = Some (RString (refreshToken pair) (Some 604800))
      ∧ store w' !! (REFRESH_TOKEN_PREFIX +:+ refreshToken pair)
        = Some (RString (JSON_stringify newTokenData) (Some 604800)).
Proof.
  intros Hrt Hrun. unfold refreshTokenRotation in Hrun.
  apply bind_returned_inv in Hrun as (u0 & w0 & Hstep & Hrun).
  apply getRedisClient_returned_inv in Hstep as (Hs0 & Hc0 & Hl0).
  apply try_catch_returned_inv in Hrun as [Hrun|(e & w1 & _ & Hcatch)]; cycle 1.
  { apply bind_returned_inv in Hcatch as (? & ? & _ & [=]). }
  apply bind_returned_inv in Hrun as (decoded & w1 & Hstep & Hrun).
  unfold verify in Hstep.
  destruct (jwt_verify old (jwt_refreshSecret config) (clock w0)) as [d| |] eqn:Hv;
    [|discriminate..].
  injection Hstep as <- <-.
  apply bind_returned_inv in Hrun as (u1 & w1 & Hstep & Hrun).
  destruct (decide (d_type d = Some "refresh")) as [Hty|]; [|discriminate].
  injection Hstep as _ <-.
  apply bind_returned_inv in Hrun as (got & w1 & Hstep & Hrun).
  apply round_trip_returned_inv in Hstep
    as ((Hs1 & Hgot & _)%get_returned_inv & Hc1 & Hl1).
  apply bind_returned_inv in Hrun as (u2 & w2 & Hstep & Hrun).
  destruct (truthy got) eqn:Htruthy; cycle 1.
  { apply bind_returned_inv in Hstep as (? & ? & _ & [=]). }
  injection Hstep as _ <-.
  destruct got as [str|]; [|discriminate].
  symmetry in Hgot. apply string_at_lookup in Hgot as [ttl Hrec].
  apply bind_returned_inv in Hrun as (tokenData & w2 & Hstep & Hrun).
  unfold parse in Hstep. simpl in Hstep.
  destruct (JSON_parse str) as [data|] eqn:Hparse; [|discriminate].
  injection Hstep as <- <-.
  apply bind_returned_inv in Hrun as (u3 & w2 & Hstep & Hrun).
  apply round_trip_returned_inv in Hstep as ([= _ Hs2] & Hc2 & Hl2).
  apply bind_returned_inv in Hrun as (access & w3 & Hstep & Hrun).
  injection Hstep as <- <-.
  apply bind_returned_inv in Hrun as (refresh & w3 & Hstep & Hrun).
  injection Hstep as <- <-.
  apply bind_returned_inv in Hrun as (used & w3 & Hstep & Hrun).
  injection Hstep as <- <-.
  apply bind_returned_inv in Hrun as (u4 & w3 & Hstep & Hrun).
  apply round_trip_returned_inv in Hstep as (Hs3%setEx_returned_inv & Hc3 & Hl3).
  apply bind_returned_inv in Hrun as (u5 & w4 & Hstep & Hrun).
  apply round_trip_returned_inv in Hstep as (Hs4%setEx_returned_inv & Hc4 & Hl4).
  injection Hrun as <- <-. simpl.
  assert (Hclock : clock w2 = clock w) by congruence.
  rewrite Hclock in Hs3, Hs4, Hl3, Hl4 |- *. rewrite Hc0 in Hv.
  set (payload := {| p_id := d_id d; p_email := d_email d; p_role := d_role d;
                     p_tokenFamily := d_tokenFamily d |}) in Hs3, Hs4, Hl3, Hl4 |- *.
  destruct (Hrt payload None (jwt_secret config) (jwt_expiresIn config) (clock w))
    as [xa Ha].
  destruct (Hrt payload (Some "refresh") (jwt_refreshSecret config)
              (jwt_refreshExpiresIn config) (clock w)) as [xr Hr].
  exists d, str, ttl, data. do 2 eexists.
  split; [done|]. split; [done|].
  split; [by rewrite <- Hs0|]. split; [done|].
  rewrite Ha, Hr, Hl4, Hl3, Hl2, Hl1, Hl0, Hs4, Hs3, <- Hs2, Hs1, Hs0.
  unfold js_or, del. simpl.
  do 6 (split; [reflexivity|]).
  split; [rewrite <- !app_assoc; reflexivity|].
  split; [reflexivity|]. split.
  - by rewrite lookup_insert_eq.
  - by rewrite lookup_insert_ne, lookup_insert_eq
      by apply pointer_key_not_record.
Qed.

(** *** Revocation *)

(** C5: when [revokeTokenFamily] has returned and the store is still
    available, calling it again with the same family returns as well and
    leaves the keyspace exactly as the first call left it. *)
Theorem revokeTokenFamily_idempotent (family : option string) (w w1 : world) :
  revokeTokenFamily family w = (Returned tt, w1) →
  available w1 →
  ∃ w2, revokeTokenFamily family w1 = (Returned tt, w2) ∧ store w2 = store w1.
Proof.
  clear config jwt_sign jwt_verify JSON_stringify JSON_parse.
  intros Hfirst Hw1. destruct (truthy family) eqn:Hf.
  - destruct family as [f|]; [|done].
    apply (revoke_returned_inv f w w1 Hf) in Hfirst.
    rewrite (available_inv w1 Hw1).
    destruct (revoke_run f (store w1) (clock w1) (log w1) Hf) as [lg2 ->].
    rewrite (revoke_store_idempotent f (store w) (store w1) Hfirst). simpl.
    by eexists.
  - exists w1. unfold revokeTokenFamily. by rewrite Hf.
Qed.

(** *** The session directory *)

Lemma records_parse_lookup (m : gmap string rvalue) (t str : string)
    (ttl : option Z) :
  records_parse JSON_parse m →
  m !! (REFRESH_TOKEN_PREFIX +:+ t) = Some (RString str ttl) →
  String.eqb str "" = false →
  is_Some (JSON_parse str).
Proof.
  intros Hrp Hv Hne. specialize (Hrp _ _ Hv). unfold record_ok in Hrp.
  rewrite prefix_append, Hne in Hrp. simpl in Hrp.
  by apply bool_decide_eq_true in Hrp.
Qed.

(** Whenever the loop of [getUserSessions] returns, it has pushed the
    sessions the families resolve to, in order, and only read the store. *)
Lemma collect_sessions_returned (fams : list string) (acc l : list Session)
    m t lg (w' : world) :
  collect_sessions JSON_parse fams acc (World m t [] lg) = (Returned l, w') →
  l = (acc ++ omap (resolve JSON_parse m) fams)%list
  ∧ store w' = m ∧ available w'.
Proof.
  revert acc lg. induction fams as [|f fams IH]; intros acc lg; simpl.
  - unfold ret. intros [= <- <-]. by rewrite app_nil_r.
  - run. unfold get, resolve, string_at.
    destruct (m !! (TOKEN_FAMILY_PREFIX +:+ f)) as [[cur ttl|s]|]; simpl;
      [|discriminate|apply IH].
    destruct (String.eqb cur ""); simpl; [apply IH|].
    run. unfold get.
    destruct (m !! (REFRESH_TOKEN_PREFIX +:+ cur)) as [[str ttl'|s]|]; simpl;
      [|discriminate|apply IH].
    destruct (String.eqb str ""); simpl; [apply IH|].
    destruct (JSON_parse str) as [data|]; simpl; [|discriminate].
    intros H. apply IH in H. by rewrite <- app_assoc in H.
Qed.

(** On a well-formed keyspace whose records parse, the loop returns. *)
Lemma collect_sessions_returns (fams : list string) (acc : list Session)
    m t lg :
  well_formed m → records_parse JSON_parse m →
  ∃ l w', collect_sessions JSON_parse fams acc (World m t [] lg) = (Returned l, w').
Proof.
  intros Hwf Hrp. revert acc lg.
  induction fams as [|f fams IH]; intros acc lg; simpl; [by do 2 eexists|].
  run. unfold get.
  destruct (m !! (TOKEN_FAMILY_PREFIX +:+ f)) as [[cur ttl|s]|] eqn:Hptr; simpl;
    [|by destruct (well_formed_pointer m f s Hwf)|apply IH].
  destruct (String.eqb cur ""); simpl; [apply IH|].
  run. unfold get.
  destruct (m !! (REFRESH_TOKEN_PREFIX +:+ cur)) as [[str ttl'|s]|] eqn:Hrec;
    simpl; [|by destruct (well_formed_record m cur s Hwf)|apply IH].
  destruct (String.eqb str "") eqn:Hstr; simpl; [apply IH|].
  destruct (records_parse_lookup m cur str ttl' Hrp Hrec Hstr) as [data ->].
  simpl. apply IH.
Qed.

Lemma resolve_family (m : gmap string rvalue) (f : string) (x : Session) :
  resolve JSON_parse m f = Some x → s_tokenFamily x = f.
Proof.
  unfold resolve.
  destruct (string_at m _) as [cur|]; [|done].
  destruct (String.eqb cur ""); [done|].
  destruct (string_at m _) as [str|]; [|done].
  destruct (String.eqb str ""); [done|].
  destruct (JSON_parse str); [|done]. by intros [= <-].
Qed.

(** Whenever [getUserSessions] returns, it returns the sorted sessions of
    the families of the user's index. *)
Lemma getUserSessions_returned (user : string) (l : list Session)
    (w w' : world) :
  available w →
  sessions user w = (Returned l, w') →
  l = Array_sort by_lastUsedAt_desc
        (omap (resolve JSON_parse (store w))
           (elements (members_of (store w) (USER_SESSIONS_PREFIX +:+ user))))
  ∧ store w' = store w.
Proof.
  intros Hw. rewrite (available_inv w Hw). simpl.
  unfold getUserSessions. run. unfold sMembers, members_of.
  destruct (store w !! (USER_SESSIONS_PREFIX +:+ user)) as [[? ?|s]|]; simpl;
    [discriminate| |].
  - destruct (collect_sessions _ _ _ _) as [[pushed|e] w1] eqn:Hloop;
      [|discriminate].
    apply collect_sessions_returned in Hloop as (-> & Hst & _).
    by intros [= <- <-].
  - by intros [= <- <-].
Qed.

(** A listed session belongs to a family of the user's index. *)
Lemma getUserSessions_within_index (user : string) (l : list Session)
    (w w' : world) (x : Session) :
  available w →
  sessions user w = (Returned l, w') →
  x ∈ l →
  s_tokenFamily x ∈ members_of (store w) (USER_SESSIONS_PREFIX +:+ user).
Proof.
  intros Hw [-> _]%getUserSessions_returned; [|done].
  rewrite Array_sort_perm. intros (f & Hf & Hres)%list_elem_of_omap.
  apply resolve_family in Hres as ->. by apply elem_of_elements.
Qed.

(** C8: with the store available, on a well-formed keyspace whose records
    parse, [getUserSessions] returns without touching the keyspace; the list
    is ordered by [lastUsedAt], greatest first; it is a rearrangement of the
    sessions that the members of the user's index resolve to, so it holds
    the session of every member whose pointer and record are there, and no
    session for a member whose pointer is missing or whose pointer leads to
    a missing record. *)
Theorem getUserSessions_sorted_skipping (user : string) (w : world) :
  available w →
  well_formed (store w) →
  records_parse JSON_parse (store w) →
  ∃ l w',
    sessions user w = (Returned l, w')
    ∧ store w' = store w
    ∧ StronglySorted most_recent_first l
    ∧ l ≡ₚ omap (resolve JSON_parse (store w))
             (elements (members_of (store w) (USER_SESSIONS_PREFIX +:+ user)))
    ∧ (∀ family current ttl str ttl' data,
         family ∈ members_of (store w) (USER_SESSIONS_PREFIX +:+ user) →
         store w !! (TOKEN_FAMILY_PREFIX +:+ family) = Some (RString current ttl) →
         current ≠ "" →
         store w !! (REFRESH_TOKEN_PREFIX +:+ current) = Some (RString str ttl') →
         str ≠ "" →
         JSON_parse str = Some data →
         {| s_tokenFamily := family; s_createdAt := createdAt data;
            s_lastUsedAt := lastUsedAt data; s_userAgent := userAgent data;
            s_ipAddress := ipAddress data |} ∈ l)
    ∧ (∀ family,
         store w !! (TOKEN_FAMILY_PREFIX +:+ family) = None
         ∨ (∃ current ttl,
              store w !! (TOKEN_FAMILY_PREFIX +:+ family)
              = Some (RString current ttl)
              ∧ store w !! (REFRESH_TOKEN_PREFIX +:+ current) = None) →
         ∀ x, x ∈ l → s_tokenFamily x ≠ family).
Proof.
  intros Hw Hwf Hrp.
  assert (Hret : ∃ l w', sessions user w = (Returned l, w')).
  { rewrite (available_inv w Hw). unfold getUserSessions. run. unfold sMembers.
    destruct (well_formed_index (store w) (USER_SESSIONS_PREFIX +:+ user) Hwf
                (prefix_append _ _)) as [Hty _].
    destruct (store w !! (USER_SESSIONS_PREFIX +:+ user)) as [[? ?|s]|]; simpl;
      [by destruct Hty| |by do 2 eexists].
    destruct (collect_sessions_returns (elements s) [] (store w) (clock w)
                (log w ++ [SMEMBERS (USER_SESSIONS_PREFIX +:+ user)]) Hwf Hrp)
      as (pushed & w1 & ->).
    by do 2 eexists. }
  destruct Hret as (l & w' & Hrun). exists l, w'.
  destruct (getUserSessions_returned user l w w' Hw Hrun) as [Hl Hst].
  assert (Hperm : l ≡ₚ omap (resolve JSON_parse (store w))
            (elements (members_of (store w) (USER_SESSIONS_PREFIX +:+ user)))).
  { rewrite Hl. apply Array_sort_perm. }
  repeat split; try done.
  - rewrite Hl. apply sessions_sorted.
  - intros family current ttl str ttl' data Hin Hptr Hcur Hrec Hstr Hparse.
    rewrite Hperm. apply list_elem_of_omap. exists family.
    split; [by apply elem_of_elements|].
    unfold resolve, string_at. rewrite Hptr.
    apply String.eqb_neq in Hcur as ->. rewrite Hrec.
    apply String.eqb_neq in Hstr as ->. by rewrite Hparse.
  - intros family Hmiss x Hx <-. rewrite Hperm in Hx.
    apply list_elem_of_omap in Hx as (f & _ & Hres).
    pose proof (resolve_family _ _ _ Hres) as Hf. subst f.
    unfold resolve, string_at in Hres.
    destruct Hmiss as [Hptr|(current & ttl & Hptr & Hrec)]; rewrite Hptr in Hres;
      [done|].
    destruct (String.eqb current ""); [done|]. by rewrite Hrec in Hres.
Qed.

(** *** Reuse of a refresh token *)

(** C1: with the store available and the keyspace well formed, a token that
    verifies as a refresh token and has no record in the store makes the
    rotation run [revokeTokenFamily] on the token's [tokenFamily] claim,
    right after the GET of the record, and then throw the error that the
    controller reads as [SecurityBreach].  In the world it leaves, that
    family is in no user's index, no session listing that returns mentions
    it, and, when the claim is truthy, its pointer is gone. *)
Theorem rotation_reuse_is_breach (old : string) (ua ip : option string)
    (w : world) (decoded : Decoded) :
  available w →
  well_formed (store w) →
  jwt_verify old (jwt_refreshSecret config) (clock w) = Verified decoded →
  d_type decoded = Some "refresh" →
  store w !! (REFRESH_TOKEN_PREFIX +:+ old) = None →
  ∃ w',
    rotate old ua ip w = (Thrown security_breach, w')
    ∧ failure_of security_breach = SecurityBreach
    ∧ revokeTokenFamily (d_tokenFamily decoded)
        (World (store w) (clock w) []
           (log w ++ [GET (REFRESH_TOKEN_PREFIX +:+ old)]))
      = (Returned tt, w')
    ∧ (∀ family, d_tokenFamily decoded = Some family →
         (∀ user, family ∉ members_of (store w') (USER_SESSIONS_PREFIX +:+ user))
         ∧ (∀ user l w'', sessions user w' = (Returned l, w'') →
                          ∀ x, x ∈ l → s_tokenFamily x ≠ family))
    ∧ (truthy (d_tokenFamily decoded) = true →
       store w' !! (TOKEN_FAMILY_PREFIX +:+ render (d_tokenFamily decoded)) = None).
Proof.
  intros Hw Hwf Hv Hty Hrec.
  set (w1 := World (store w) (clock w) []
               (log w ++ [GET (REFRESH_TOKEN_PREFIX +:+ old)])).
  assert (Hrevoke : ∃ w', revokeTokenFamily (d_tokenFamily decoded) w1
                          = (Returned tt, w')
            ∧ available w'
            ∧ (∀ family, d_tokenFamily decoded = Some family →
                 ∀ user, family ∉ members_of (store w') (USER_SESSIONS_PREFIX +:+ user))
            ∧ (truthy (d_tokenFamily decoded) = true →
               store w' !! (TOKEN_FAMILY_PREFIX +:+ render (d_tokenFamily decoded))
               = None)).
  { destruct (truthy (d_tokenFamily decoded)) eqn:Hf.
    - destruct (d_tokenFamily decoded) as [f|]; [|done].
      destruct (revoke_run f (store w) (clock w)
                  (log w ++ [GET (REFRESH_TOKEN_PREFIX +:+ old)]) Hf)
        as [lg' Hrun].
      destruct (revoke_store_returns f (store w) Hwf) as [m' Hm'].
      rewrite Hm' in Hrun. simpl in Hrun.
      apply revoke_store_returned in Hm' as (Hgone & _ & Hout).
      eexists. split; [exact Hrun|]. repeat split; simpl; try done.
      intros family [= <-] user. apply Hout, prefix_append.
    - exists w1. unfold revokeTokenFamily. rewrite Hf. simpl.
      repeat split; try done.
      intros family Hfam user. rewrite Hfam in Hf. simpl in Hf.
      apply negb_false_iff, String.eqb_eq in Hf as ->.
      by apply (well_formed_index (store w)), prefix_append. }
  destruct Hrevoke as (w' & Hrun & Hw' & Hidx & Hptr). exists w'.
  split; [|split; [done|split; [done|split; [|done]]]].
  - rewrite (available_inv w Hw). unfold refreshTokenRotation. run.
    rewrite Hv. simpl. rewrite decide_True by done. run.
    unfold get. rewrite Hrec. simpl. fold w1. by rewrite Hrun.
  - intros family Hclaim. split; [by apply Hidx|].
    intros user l w'' Hlist x Hx Hfam.
    pose proof (getUserSessions_within_index user l w' w'' x Hw' Hlist Hx) as Hin.
    rewrite Hfam in Hin. by apply (Hidx family Hclaim user).
Qed.

(** *** The cleanup sweeper *)

(** C9: with the store available and no string under the index prefix, one
    run of [cleanupExpiredTokens] returns; afterwards the members of every
    index key are exactly the former members whose pointer key exists, every
    key outside the index prefix holds what it held, and the commands sent
    were only KEYS, SMEMBERS, EXISTS and SREM on index keys. *)
Theorem cleanup_removes_only_dangling (w : world) :
  available w →
  (∀ k, String.prefix USER_SESSIONS_PREFIX k = true → ¬ holds_string (store w !! k)) →
  ∃ w' sent,
    cleanupExpiredTokens w = (Returned tt, w')
    ∧ (∀ k f, String.prefix USER_SESSIONS_PREFIX k = true →
         (f ∈ members_of (store w') k ↔
          f ∈ members_of (store w) k
          ∧ is_Some (store w !! (TOKEN_FAMILY_PREFIX +:+ f))))
    ∧ (∀ k, String.prefix USER_SESSIONS_PREFIX k = false →
            store w' !! k = store w !! k)
    ∧ log w' = log w ++ sent
    ∧ Forall (λ c, sweeper_command c = true) sent.
Proof.
  clear config jwt_sign jwt_verify JSON_stringify JSON_parse.
  intros Hw Hty. rewrite (available_inv w Hw).
  set (m := store w) in Hty |- *. set (t := clock w). set (lg := log w).
  unfold cleanupExpiredTokens.
  erewrite bind_returned; [|apply getRedisClient_available].
  erewrite bind_returned; cycle 1.
  { unfold redis_keys. rewrite round_trip_available. reflexivity. }
  simpl. fold (index_keys m).
  destruct (sweep_keys_run (index_keys m) m t (lg ++ [KEYS USER_SESSIONS_PREFIX]))
    as (m' & lg' & Hrun & Hlog & Hother & _ & Hmem); [|done|].
  { by intros k [? _]%elem_of_index_keys. }
  rewrite Hrun. exists (World m' t [] ((lg ++ [KEYS USER_SESSIONS_PREFIX]) ++ lg')).
  exists (KEYS USER_SESSIONS_PREFIX :: lg'). simpl.
  split; [done|]. split; [|split; [|split]].
  - intros k f Hk. destruct (decide (k ∈ index_keys m)) as [Hin|Hnin].
    + by apply Hmem.
    + assert (Hnone : m !! k = None).
      { destruct (m !! k) as [v|] eqn:Hv; [|done].
        destruct Hnin. apply elem_of_index_keys. by rewrite Hv. }
      unfold members_of. rewrite Hother, Hnone by done. set_solver.
  - intros k Hk. apply Hother. intros [? _]%elem_of_index_keys. congruence.
  - by rewrite <- app_assoc.
  - by constructor.
Qed.

(** *** Failures of the store *)

(** Whatever the store does, [blacklistAccessToken] returns normally: its
    [catch] handles every thrown value, the rejection of a round-trip
    included. *)
Lemma blacklist_always_returns (token : string) (w : world) :
  ∃ w', blacklist token w = (Returned tt, w').
Proof.
  unfold blacklistAccessToken, try_catch, ret.
  destruct (bind _ _ w) as [[[]|e] w']; by eexists.
Qed.

Lemma fail_closed_sign payload type secret expiresIn :
  fail_closed (sign jwt_sign payload type secret expiresIn).
Proof. intros w o w' [= <- <-]. left. apply quiet_refl. Qed.

Lemma fail_closed_verify token secret :
  fail_closed (verify jwt_verify token secret).
Proof.
  intros w o w'. unfold verify.
  destruct (jwt_verify token secret (clock w)); intros [= <- <-];
    left; apply quiet_refl.
Qed.

Lemma fail_closed_parse str : fail_closed (parse JSON_parse str).
Proof.
  unfold parse. destruct (str ≫= JSON_parse);
    [apply fail_closed_ret|apply fail_closed_throw].
Qed.

Lemma fail_closed_Date_now : fail_closed Date_now.
Proof. intros w o w' [= <- <-]. left. apply quiet_refl. Qed.

Lemma fail_closed_collect_sessions fams acc :
  fail_closed (collect_sessions JSON_parse fams acc).
Proof.
  revert acc. induction fams as [|f fams IH]; intros acc; simpl.
  - apply fail_closed_ret.
  - apply fail_closed_bind; [apply fail_closed_round_trip|intros current].
    apply fail_closed_bind; [|intros pushed; apply IH].
    destruct (truthy current); [|apply fail_closed_ret].
    apply fail_closed_bind; [apply fail_closed_round_trip|intros str].
    destruct (truthy str); [|apply fail_closed_ret].
    apply fail_closed_bind; [apply fail_closed_parse|intros data].
    apply fail_closed_ret.
Qed.

(** X1: issuance, rotation, both revocations, the session listing, the
    blacklist lookup and the sweep are fail-closed: when the store rejects
    one of their round-trips they end there, throwing [RedisUnavailable],
    and when they end otherwise no round-trip was rejected. *)
Lemma store_failure_propagates :
  (∀ uuid user ua ip, fail_closed (issue uuid user ua ip))
  ∧ (∀ token ua ip, fail_closed (rotate token ua ip))
  ∧ (∀ family, fail_closed (revokeTokenFamily family))
  ∧ (∀ user, fail_closed (revokeAllUserTokens user))
  ∧ (∀ user, fail_closed (sessions user))
  ∧ (∀ token, fail_closed (isTokenBlacklisted token))
  ∧ fail_closed cleanupExpiredTokens.
Proof.
  repeat split.
  - intros uuid user ua ip. unfold generateTokenPair.
    apply fail_closed_bind; [apply fail_closed_sign|intros access].
    apply fail_closed_bind; [apply fail_closed_sign|intros refresh].
    apply fail_closed_bind; [apply fail_closed_getRedisClient|intros _].
    apply fail_closed_bind; [apply fail_closed_Date_now|intros created].
    apply fail_closed_bind; [apply fail_closed_Date_now|intros used].
    apply fail_closed_bind; [apply fail_closed_round_trip|intros _].
    apply fail_closed_bind; [apply fail_closed_round_trip|intros _].
    apply fail_closed_bind; [apply fail_closed_round_trip|intros _].
    apply fail_closed_ret.
  - intros token ua ip. unfold refreshTokenRotation.
    apply fail_closed_bind; [apply fail_closed_getRedisClient|intros _].
    apply fail_closed_try_catch.
    + apply fail_closed_bind; [apply fail_closed_verify|intros decoded].
      apply fail_closed_bind.
      { destruct (decide _); [apply fail_closed_ret|apply fail_closed_throw]. }
      intros _. apply fail_closed_bind; [apply fail_closed_round_trip|intros str].
      apply fail_closed_bind.
      { destruct (truthy str); [apply fail_closed_ret|].
        apply fail_closed_bind; [apply fail_closed_revokeTokenFamily|intros _].
        apply fail_closed_throw. }
      intros _. apply fail_closed_bind; [apply fail_closed_parse|intros data].
      apply fail_closed_bind; [apply fail_closed_round_trip|intros _].
      apply fail_closed_bind; [apply fail_closed_sign|intros access].
      apply fail_closed_bind; [apply fail_closed_sign|intros refresh].
      apply fail_closed_bind; [apply fail_closed_Date_now|intros used].
      apply fail_closed_bind; [apply fail_closed_round_trip|intros _].
      apply fail_closed_bind; [apply fail_closed_round_trip|intros _].
      apply fail_closed_ret.
    + intros e. apply fail_closed_bind; [|intros _; apply fail_closed_throw].
      destruct e; first [apply fail_closed_round_trip|apply fail_closed_ret].
    + done.
  - apply fail_closed_revokeTokenFamily.
  - apply fail_closed_revokeAllUserTokens.
  - intros user. unfold getUserSessions.
    apply fail_closed_bind; [apply fail_closed_getRedisClient|intros _].
    apply fail_closed_bind; [apply fail_closed_round_trip|intros families].
    apply fail_closed_bind; [apply fail_closed_collect_sessions|intros l].
    apply fail_closed_ret.
  - intros token. unfold isTokenBlacklisted.
    apply fail_closed_bind; [apply fail_closed_getRedisClient|intros _].
    apply fail_closed_bind; [apply fail_closed_round_trip|intros result].
    apply fail_closed_ret.
  - apply fail_closed_cleanupExpiredTokens.
Qed.

(** *** The keyspaces the service produces *)

Lemma sound_record (t : string) (d : RefreshTokenData) (ttl : option Z) :
  json_round_trip JSON_stringify JSON_parse →
  sound_entry JSON_parse (REFRESH_TOKEN_PREFIX +:+ t)
    (RString (JSON_stringify d) ttl) = true.
Proof.
  intros Hjson. unfold sound_entry, entry_ok, record_ok.
  rewrite record_key_not_index, prefix_append, Hjson. simpl.
  apply orb_true_r.
Qed.

Lemma sound_pointer (f v : string) (ttl : option Z) :
  sound_entry JSON_parse (TOKEN_FAMILY_PREFIX +:+ f) (RString v ttl) = true.
Proof.
  unfold sound_entry, entry_ok, record_ok.
  by rewrite pointer_key_not_index, prefix_append.
Qed.

Lemma sound_blacklist (t v : string) (ttl : option Z) :
  sound_entry JSON_parse (BLACKLIST_PREFIX +:+ t) (RString v ttl) = true.
Proof.
  unfold sound_entry, entry_ok, record_ok.
  by rewrite blacklist_key_not_index, prefix_append.
Qed.

(** X2: soundness holds of the empty keyspace and every method keeps it, with
    or without rejected round-trips, given that the codec round-trips and
    that [uuidv4] never draws the empty string.  The hypotheses on the
    keyspace made for the rotation and for the session listing therefore
    hold in every world the service can reach from an empty store. *)
Lemma sound_invariant :
  json_round_trip JSON_stringify JSON_parse →
  sound JSON_parse ∅
  ∧ (∀ uuid user ua ip, uuid ≠ "" →
       preserves (sound JSON_parse) (issue uuid user ua ip))
  ∧ (∀ token ua ip, preserves (sound JSON_parse) (rotate token ua ip))
  ∧ (∀ token, preserves (sound JSON_parse) (blacklist token))
  ∧ (∀ family, preserves (sound JSON_parse) (revokeTokenFamily family))
  ∧ (∀ user, preserves (sound JSON_parse) (revokeAllUserTokens user))
  ∧ preserves (sound JSON_parse) cleanupExpiredTokens.
Proof.
  intros Hjson. split; [apply sound_empty|]. repeat split.
  - intros uuid user ua ip Huuid. unfold generateTokenPair.
    apply preserves_bind; [apply preserves_pure|intros access].
    apply preserves_bind; [apply preserves_pure|intros refresh].
    apply preserves_bind; [apply preserves_getRedisClient|intros _].
    apply preserves_bind; [apply preserves_pure|intros created].
    apply preserves_bind; [apply preserves_pure|intros used].
    apply preserves_bind;
      [apply preserves_setEx; intros ttl; by apply sound_record|intros _].
    apply preserves_bind;
      [apply preserves_setEx; intros ttl; apply sound_pointer|intros _].
    apply preserves_bind; [by apply preserves_sAdd|intros _].
    apply preserves_ret.
  - intros token ua ip. unfold refreshTokenRotation.
    apply preserves_bind; [apply preserves_getRedisClient|intros _].
    apply preserves_try_catch.
    + apply preserves_bind.
      { intros w Hw. unfold verify. by destruct (jwt_verify _ _ _). }
      intros decoded. apply preserves_bind.
      { destruct (decide _); [apply preserves_ret|apply preserves_throw]. }
      intros _. apply preserves_bind; [apply preserves_get|intros str].
      apply preserves_bind.
      { destruct (truthy str); [apply preserves_ret|].
        apply preserves_bind; [apply preserves_revokeTokenFamily|intros _].
        apply preserves_throw. }
      intros _. apply preserves_bind.
      { unfold parse. destruct (str ≫= JSON_parse);
          [apply preserves_ret|apply preserves_throw]. }
      intros data. apply preserves_bind; [apply preserves_del|intros _].
      apply preserves_bind; [apply preserves_pure|intros access].
      apply preserves_bind; [apply preserves_pure|intros refresh].
      apply preserves_bind; [apply preserves_pure|intros used].
      apply preserves_bind;
        [apply preserves_setEx; intros ttl; by apply sound_record|intros _].
      apply preserves_bind;
        [apply preserves_setEx; intros ttl; apply sound_pointer|intros _].
      apply preserves_ret.
    + intros e. apply preserves_bind; [|intros _; apply preserves_throw].
      destruct e; first [apply preserves_del|apply preserves_ret].
  - intros token. unfold blacklistAccessToken.
    apply preserves_try_catch; [|intros e; apply preserves_ret].
    apply preserves_bind.
    { intros w Hw. unfold verify. by destruct (jwt_verify _ _ _). }
    intros decoded.
    apply preserves_bind; [apply preserves_getRedisClient|intros _].
    apply preserves_bind; [apply preserves_pure|intros ms].
    destruct (d_exp decoded) as [e|]; [|apply preserves_ret].
    destruct (decide _); [|apply preserves_ret].
    apply preserves_setEx. intros ttl. apply sound_blacklist.
  - apply preserves_revokeTokenFamily.
  - apply preserves_revokeAllUserTokens.
  - apply preserves_cleanupExpiredTokens.
Qed.

End Properties.

(** * The service on concrete worlds *)

Lemma pos_of_bits_of_pos (p : positive) : pos_of_bits (bits_of_pos p) = Some p.
Proof. induction p as [q IH|q IH|]; simpl; rewrite ?IH; done. Qed.

Lemma demo_validity_pos (expiresIn : string) : 0 < demo_validity expiresIn.
Proof. unfold demo_validity. by destruct (String.eqb expiresIn "7d"). Qed.

Lemma demo_claims_round_trip : claims_round_trip demo_sign demo_verify.
Proof.
  intros p type secret expiresIn ms. eexists. unfold demo_verify, demo_sign.
  rewrite pos_of_bits_of_pos. simpl. rewrite decode_encode.
  rewrite String.eqb_refl. simpl.
  rewrite decide_True; [reflexivity|].
  pose proof (demo_validity_pos expiresIn). lia.
Qed.

Lemma demo_parse_stringify (d : RefreshTokenData) :
  demo_parse (demo_stringify d) = Some d.
Proof.
  unfold demo_parse, demo_stringify. simpl.
  rewrite pos_of_bits_of_pos. simpl. rewrite decode_encode. simpl.
  by destruct d.
Qed.

(** A run whose outcome is [Returned] is the pair of what it returned and
    the world it left; this names both without normalising the world. *)
Lemma returned_eta {A} (r : outcome A * world) (a : A) :
  fst r = Returned a → r = (Returned a, snd r).
Proof. destruct r as [o w]. simpl. by intros ->. Qed.

Lemma rotation1_returned : fst rotation1 = Returned pair1.
Proof. vm_compute. reflexivity. Qed.

(** Witness of C10. *)
Lemma revokeTokenFamily_falsy_witness :
  truthy (Some "") = false
  ∧ revokeTokenFamily (Some "") w_logged_in = (Returned tt, w_logged_in).
Proof.
  split; [reflexivity|].
  apply (revokeTokenFamily_falsy (Some "") w_logged_in). reflexivity.
Defined.

(** Witness of C7: the expired first token, a malformed token and a token of
    the wrong type. *)
Lemma rotation_rejects_unverified_witness :
  (∃ w', refreshTokenRotation demo_config demo_sign demo_verify demo_stringify
           demo_parse token1 None None w_late = (Thrown TokenExpiredError, w')
         ∧ store w' !! (REFRESH_TOKEN_PREFIX +:+ token1) = None)
  ∧ (∃ w', refreshTokenRotation demo_config demo_sign demo_verify demo_stringify
             demo_parse "garbage" None None w_logged_in
           = (Thrown JsonWebTokenError, w')
           ∧ store w' = store w_logged_in)
  ∧ (∃ w', refreshTokenRotation demo_config demo_sign demo_verify demo_stringify
             demo_parse untyped_token None None w_logged_in
           = (Thrown (Error "Invalid token type"), w')
           ∧ store w' = store w_logged_in).
Proof.
  split; [|split].
  - destruct (rotation_rejects_unverified demo_config demo_sign demo_verify
                demo_stringify demo_parse token1 None None w_late)
      as (Hexpired & _); [reflexivity|].
    destruct Hexpired as (w' & Hrun & _ & _ & Hgone & _);
      [vm_compute; reflexivity|].
    exists w'. by split.
  - destruct (rotation_rejects_unverified demo_config demo_sign demo_verify
                demo_stringify demo_parse "garbage" None None w_logged_in)
      as (_ & Hinvalid & _); [reflexivity|].
    destruct Hinvalid as (w' & Hrun & _ & Hstore & _);
      [vm_compute; reflexivity|].
    exists w'. by split.
  - destruct (rotation_rejects_unverified demo_config demo_sign demo_verify
                demo_stringify demo_parse untyped_token None None w_logged_in)
      as (_ & _ & Htype); [reflexivity|].
    destruct (Htype {| d_id := "u1"; d_email := "a@x"; d_role := "admin";
                       d_tokenFamily := Some "f1"; d_type := None;
                       d_exp := Some 604805 |})
      as (w' & Hrun & _ & Hstore & _); [vm_compute; reflexivity|done|].
    exists w'. by split.
Defined.

(** Witness of C6: the first access token, two seconds after it was issued
    with a validity of a day. *)
Lemma blacklist_residual_lifetime_witness :
  ∃ w', blacklistAccessToken demo_config demo_verify access1 w_logged_in
        = (Returned tt, w')
        ∧ log w' = log w_logged_in
                   ++ [SETEX (BLACKLIST_PREFIX +:+ access1)
                         (86405 - clock w_logged_in / 1000) "1"].
Proof.
  assert (Hverified :
    demo_verify access1 (jwt_secret demo_config) (clock w_logged_in)
    = Verified {| d_id := "u1"; d_email := "a@x"; d_role := "admin";
                  d_tokenFamily := Some "f1"; d_type := None;
                  d_exp := Some 86405 |})
    by (vm_compute; reflexivity).
  destruct (blacklist_residual_lifetime demo_config demo_verify access1
              w_logged_in) as (w' & Hrun & Hcases & _); [reflexivity|].
  exists w'. split; [exact Hrun|].
  destruct Hcases as [(d & e & Hv & He & _ & _ & Hlog)|[Hnot _]].
  - rewrite Hverified in Hv. injection Hv as <-. injection He as <-.
    exact Hlog.
  - destruct Hnot. do 2 eexists. split; [exact Hverified|].
    split; [reflexivity|]. reflexivity.
Defined.

Lemma login2_returned : fst login2 = Returned issued2.
Proof. vm_compute. reflexivity. Qed.

(** Witness of C3: the second login of [alice]. *)
Lemma issue_opens_family_witness :
  generateTokenPair demo_config demo_sign demo_stringify "f2" alice
    (Some "phone") None w_logged_in = (Returned issued2, snd login2)
  ∧ i_tokenFamily issued2 = "f2"
  ∧ store (snd login2) !! (TOKEN_FAMILY_PREFIX +:+ "f2")
    = Some (RString (i_refreshToken issued2) (Some 604800))
  ∧ "f2" ∈ members_of (store (snd login2)) (USER_SESSIONS_PREFIX +:+ u_id alice).
Proof.
  assert (Hrun : generateTokenPair demo_config demo_sign demo_stringify "f2"
                   alice (Some "phone") None w_logged_in
                 = (Returned issued2, snd login2))
    by exact (returned_eta login2 issued2 login2_returned).
  split; [exact Hrun|].
  destruct (issue_opens_family demo_config demo_sign demo_verify demo_stringify
              "f2" alice (Some "phone") None w_logged_in (snd login2) issued2
              demo_claims_round_trip Hrun)
    as (da & dr & Hfam & _ & _ & _ & _ & _ & Hptr & Hidx & _).
  by repeat split.
Defined.

(** Witness of C2: the first rotation of [alice]'s session, from a new
    address. *)
Lemma rotation_success_witness :
  refreshTokenRotation demo_config demo_sign demo_verify demo_stringify
    demo_parse token1 None (Some "ip") w_logged_in
  = (Returned pair1, snd rotation1)
  ∧ store (snd rotation1) !! (TOKEN_FAMILY_PREFIX +:+ "f1")
    = Some (RString (refreshToken pair1) (Some 604800))
  ∧ store (snd rotation1) !! (REFRESH_TOKEN_PREFIX +:+ refreshToken pair1)
    = Some (RString
              (demo_stringify
                 {| userId := "u1"; tokenFamily := "f1"; createdAt := 5000;
                    lastUsedAt := 7000; userAgent := Some "ua";
                    ipAddress := Some "ip" |})
              (Some 604800)).
Proof.
  assert (Hrun : refreshTokenRotation demo_config demo_sign demo_verify
                   demo_stringify demo_parse token1 None (Some "ip") w_logged_in
                 = (Returned pair1, snd rotation1))
    by exact (returned_eta rotation1 pair1 rotation1_returned).
  assert (Hverified :
    demo_verify token1 (jwt_refreshSecret demo_config) (clock w_logged_in)
    = Verified {| d_id := "u1"; d_email := "a@x"; d_role := "admin";
                  d_tokenFamily := Some "f1"; d_type := Some "refresh";
                  d_exp := Some 604805 |})
    by (vm_compute; reflexivity).
  assert (Hrecord :
    store w_logged_in !! (REFRESH_TOKEN_PREFIX +:+ token1)
    = Some (RString
              (demo_stringify
                 {| userId := "u1"; tokenFamily := "f1"; createdAt := 5000;
                    lastUsedAt := 5000; userAgent := Some "ua";
                    ipAddress := None |})
              (Some 604800)))
    by (vm_compute; reflexivity).
  split; [exact Hrun|].
  destruct (rotation_success demo_config demo_sign demo_verify demo_stringify
              demo_parse token1 None (Some "ip") w_logged_in (snd rotation1)
              pair1 demo_claims_round_trip Hrun)
    as (d & str & ttl & data & da & dr & Hv & _ & Hrec & Hparse & _ & _ & _ & _
        & _ & _ & _ & _ & Hptr & Hnew).
  rewrite Hverified in Hv. injection Hv as <-.
  rewrite Hrecord in Hrec. injection Hrec as <- <-.
  rewrite demo_parse_stringify in Hparse. injection Hparse as <-.
  split; [exact Hptr|exact Hnew].
Defined.

(** Witness of C1: after the rotation, the first refresh token is presented
    again. *)
Lemma rotation_reuse_is_breach_witness :
  ∃ w', refreshTokenRotation demo_config demo_sign demo_verify demo_stringify
          demo_parse token1 None None w_rotated = (Thrown security_breach, w')
        ∧ ("f1" ∉ members_of (store w') (USER_SESSIONS_PREFIX +:+ "u1"))
        ∧ store w' !! (TOKEN_FAMILY_PREFIX +:+ "f1") = None.
Proof.
  destruct (rotation_reuse_is_breach demo_config demo_sign demo_verify
              demo_stringify demo_parse token1 None None w_rotated
              {| d_id := "u1"; d_email := "a@x"; d_role := "admin";
                 d_tokenFamily := Some "f1"; d_type := Some "refresh";
                 d_exp := Some 604805 |})
    as (w' & Hrun & _ & _ & Hidx & Hptr).
  - reflexivity.
  - unfold well_formed. compute_done.
  - vm_compute. reflexivity.
  - reflexivity.
  - vm_compute. reflexivity.
  - exists w'. split; [exact Hrun|]. split.
    + by apply (Hidx "f1").
    + by apply Hptr.
Defined.

(** Witness of C5: the family of [alice]'s session is revoked twice. *)
Lemma revokeTokenFamily_idempotent_witness :
  ∃ w2, revokeTokenFamily (Some "f1") (snd (revokeTokenFamily (Some "f1") w_rotated))
        = (Returned tt, w2)
        ∧ store w2 = store (snd (revokeTokenFamily (Some "f1") w_rotated)).
Proof.
  apply (revokeTokenFamily_idempotent (Some "f1") w_rotated).
  - apply returned_eta. vm_compute. reflexivity.
  - vm_compute. reflexivity.
Defined.

(** Witness of C8: three devices, the pointer of the second family gone. *)
Lemma getUserSessions_sorted_skipping_witness :
  ∃ l w', getUserSessions demo_parse "u1" w_dangling = (Returned l, w')
          ∧ StronglySorted most_recent_first l
          ∧ (∀ x, x ∈ l → s_tokenFamily x ≠ "f2").
Proof.
  destruct (getUserSessions_sorted_skipping demo_parse "u1" w_dangling)
    as (l & w' & Hrun & _ & Hsorted & _ & _ & Hskip).
  - reflexivity.
  - unfold well_formed. compute_done.
  - unfold records_parse. compute_done.
  - exists l, w'. split; [exact Hrun|]. split; [exact Hsorted|].
    apply Hskip. left. vm_compute. reflexivity.
Defined.

(** Witness of C9: the sweep drops the dangling family and keeps the live
    ones. *)
Lemma cleanup_removes_only_dangling_witness :
  ∃ w', cleanupExpiredTokens w_dangling = (Returned tt, w')
    ∧ ("f2" ∉ members_of (store w') (USER_SESSIONS_PREFIX +:+ "u1"))
    ∧ ("f3" ∈ members_of (store w') (USER_SESSIONS_PREFIX +:+ "u1"))
    ∧ store w' !! (TOKEN_FAMILY_PREFIX +:+ "f3")
      = store w_dangling !! (TOKEN_FAMILY_PREFIX +:+ "f3").
Proof.
  destruct (cleanup_removes_only_dangling w_dangling)
    as (w' & sent & Hrun & Hmem & Hother & _).
  - reflexivity.
  - intros k Hk. apply well_formed_index; [|exact Hk].
    unfold well_formed. compute_done.
  - exists w'. split; [exact Hrun|]. split; [|split].
    + intros [_ [v Hv]]%Hmem; [|reflexivity]. vm_compute in Hv. discriminate.
    + apply Hmem; [reflexivity|]. split.
      * compute_done.
      * compute_done.
    + by apply Hother.
Defined.

(** C4, on the code: [blacklistAccessToken] with a verified token that has
    almost a day to live, when the store accepts the connection and rejects
    the SETEX: the method returns as if it had succeeded, no command was
    executed, and the token is not blacklisted; so this method is not
    fail-closed.  [revokeTokenFamily], in the same world, throws. *)
Theorem blacklist_masks_store_failure :
  (∃ d, demo_verify access1 (jwt_secret demo_config) (clock w_failing) = Verified d
        ∧ d_exp d = Some 86405)
  ∧ fst (blacklistAccessToken demo_config demo_verify access1 w_failing)
    = Returned tt
  ∧ log (snd (blacklistAccessToken demo_config demo_verify access1 w_failing)) = []
  ∧ store (snd (blacklistAccessToken demo_config demo_verify access1 w_failing))
      !! (BLACKLIST_PREFIX +:+ access1) = None
  ∧ fst (isTokenBlacklisted access1
           (snd (blacklistAccessToken demo_config demo_verify access1 w_failing)))
    = Returned false
  ∧ ¬ fail_closed (blacklistAccessToken demo_config demo_verify access1)
  ∧ fst (revokeTokenFamily (Some "f1") w_failing) = Thrown RedisUnavailable.
Proof.
  split; [eexists; split; vm_compute; reflexivity|].
  do 4 (split; [vm_compute; reflexivity|]).
  split; [|vm_compute; reflexivity].
  intros Hclosed.
  set (run := blacklistAccessToken demo_config demo_verify access1 w_failing).
  assert (Hout : fst run = Returned tt) by (vm_compute; reflexivity).
  assert (Hleft : faults (snd run) = []) by (vm_compute; reflexivity).
  destruct (Hclosed w_failing (fst run) (snd run)) as [[n Hn]|[_ Hthrown]].
  - exact (surjective_pairing run).
  - rewrite Hleft in Hn. simpl in Hn.
    destruct n as [|[|[|n]]]; discriminate.
  - rewrite Hout in Hthrown. discriminate.
Qed.

(** ** The scenarios of the specification, run *)

(** Scenario A: login, rotate once, rotate again with the first refresh
    token: a breach, and the family is gone from the session listing. *)
Example scenario_reuse :
  let again := refreshTokenRotation demo_config demo_sign demo_verify
                 demo_stringify demo_parse token1 None None w_rotated in
  fst (getUserSessions demo_parse "u1" w_rotated)
  = Returned [ {| s_tokenFamily := "f1"; s_createdAt := 5000;
                  s_lastUsedAt := 7000; s_userAgent := Some "ua";
                  s_ipAddress := Some "ip" |} ]
  ∧ fst again = Thrown security_breach
  ∧ failure_of security_breach = SecurityBreach
  ∧ fst (getUserSessions demo_parse "u1" (snd again)) = Returned [].
Proof.
  intros again. split; [vm_compute; reflexivity|].
  split; [vm_compute; reflexivity|].
  split; vm_compute; reflexivity.
Qed.

(** Scenario B: two more logins of the same user: three families, the one
    used last listed first. *)
Example scenario_devices :
  s_tokenFamily <$>
    match fst (getUserSessions demo_parse "u1" w_three_devices) with
    | Returned l => l
    | Thrown _ => []
    end
  = ["f3"; "f2"; "f1"].
Proof. vm_compute. reflexivity. Qed.

(** Scenario C: a blacklisted access token is reported blacklisted, another
    access token of the same login is not. *)
Example scenario_blacklist :
  let after := snd (blacklistAccessToken demo_config demo_verify access1
                      w_logged_in) in
  fst (isTokenBlacklisted access1 after) = Returned true
  ∧ fst (isTokenBlacklisted (accessToken pair1) after) = Returned false
  ∧ access1 ≠ accessToken pair1.
Proof.
  assert (Hdiff : String.eqb access1 (accessToken pair1) = false)
    by (vm_compute; reflexivity).
  intros after. split; [vm_compute; reflexivity|].
  split; [vm_compute; reflexivity|].
  intros Heq%String.eqb_eq. rewrite Hdiff in Heq. discriminate.
Qed.

(** Scenario D: the pointer of the second family has expired; the next sweep
    removes that family from the index and the listing is unchanged. *)
Example scenario_sweep :
  let swept := snd (cleanupExpiredTokens w_dangling) in
  members_of (store w_dangling) "user_sessions:u1" = {[ "f1"; "f2"; "f3" ]}
  ∧ members_of (store swept) "user_sessions:u1" = {[ "f1"; "f3" ]}
  ∧ fst (getUserSessions demo_parse "u1" swept)
    = fst (getUserSessions demo_parse "u1" w_dangling).
Proof.
  intros swept. split; [compute_done|]. split; [compute_done|].
  vm_compute. reflexivity.
Qed.

(** * Further properties of the service *)

(** ** Keys under one prefix *)

Lemma key_suffix_inj (p a b : string) : p +:+ a = p +:+ b → a = b.
Proof. induction p as [|c p IH]; simpl; [done|]. intros [= H]. by apply IH. Qed.

(** ** What a revocation does to each key *)

Lemma srem_index_lookup (x : string) (m m' : gmap string rvalue) :
  srem_all (index_keys m) x m = (Returned tt, m') →
  ∀ k, m' !! k = if String.prefix USER_SESSIONS_PREFIX k
                 then srem_value x (m !! k) else m !! k.
Proof.
  intros [_ Hlook]%srem_all_returned k. rewrite Hlook.
  destruct (String.prefix USER_SESSIONS_PREFIX k) eqn:Hk.
  - destruct (decide (k ∈ index_keys m)) as [|Hnin]; [done|].
    destruct (m !! k) as [v|] eqn:Hv; [|done].
    destruct Hnin. apply elem_of_index_keys. by rewrite Hv.
  - rewrite decide_False; [done|]. intros [? _]%elem_of_index_keys. congruence.
Qed.

(** Outside the index a revocation deletes the pointer of the family and
    the record that pointer led to, and nothing else; in the index it
    removes the family from every set. *)
Lemma revoke_store_frame (f : string) (m m' : gmap string rvalue) :
  revoke_store f m = (Returned tt, m') →
  (∀ k, String.prefix USER_SESSIONS_PREFIX k = true →
        m' !! k = srem_value f (m !! k))
  ∧ m' !! (TOKEN_FAMILY_PREFIX +:+ f) = None
  ∧ (∀ current, string_at m (TOKEN_FAMILY_PREFIX +:+ f) = Some current →
                current ≠ "" → m' !! (REFRESH_TOKEN_PREFIX +:+ current) = None)
  ∧ (∀ k, String.prefix USER_SESSIONS_PREFIX k = false →
          k ≠ TOKEN_FAMILY_PREFIX +:+ f →
          (∀ current, string_at m (TOKEN_FAMILY_PREFIX +:+ f) = Some current →
                      current ≠ "" → k ≠ REFRESH_TOKEN_PREFIX +:+ current) →
          m' !! k = m !! k).
Proof.
  unfold revoke_store, string_at.
  destruct (m !! (TOKEN_FAMILY_PREFIX +:+ f)) as [[current ttl|s]|] eqn:Hptr;
    [|discriminate|].
  - destruct (String.eqb current "") eqn:Hcur; intros Hloop;
      pose proof (srem_index_lookup _ _ _ Hloop) as Hlook.
    + apply String.eqb_eq in Hcur as ->.
      split; [|split; [|split]].
      * intros k Hk. rewrite Hlook, Hk, lookup_delete_ne; [done|].
        intros <-. by rewrite pointer_key_not_index in Hk.
      * by rewrite Hlook, pointer_key_not_index, lookup_delete_eq.
      * by intros ? [= <-] ?.
      * intros k Hk Hne _. by rewrite Hlook, Hk, lookup_delete_ne.
    + apply String.eqb_neq in Hcur.
      split; [|split; [|split]].
      * intros k Hk. rewrite Hlook, Hk, !lookup_delete_ne; [done| |].
        -- intros <-. by rewrite record_key_not_index in Hk.
        -- intros <-. by rewrite pointer_key_not_index in Hk.
      * by rewrite Hlook, pointer_key_not_index, lookup_delete_eq.
      * intros ? [= <-] _. rewrite Hlook, record_key_not_index.
        rewrite lookup_delete_ne by apply pointer_key_not_record.
        apply lookup_delete_eq.
      * intros k Hk Hne Hrec. rewrite Hlook, Hk, !lookup_delete_ne; [done| |done].
        apply not_eq_sym, (Hrec current); done.
  - intros Hloop. pose proof (srem_index_lookup _ _ _ Hloop) as Hlook.
    split; [|split; [|split]].
    + intros k Hk. rewrite Hlook, Hk, lookup_delete_ne; [done|].
      intros <-. by rewrite pointer_key_not_index in Hk.
    + by rewrite Hlook, pointer_key_not_index, lookup_delete_eq.
    + by intros ? [=].
    + intros k Hk Hne _. by rewrite Hlook, Hk, lookup_delete_ne.
Qed.

Lemma members_of_srem_value (x : string) (m m' : gmap string rvalue) (k : string) :
  m' !! k = srem_value x (m !! k) →
  members_of m' k = members_of m k ∖ {[x]}.
Proof.
  unfold members_of. intros ->.
  destruct (m !! k) as [[? ?|s]|]; simpl; [set_solver| |set_solver].
  destruct (decide (s ∖ {[x]} = ∅)) as [->|]; done.
Qed.

(** Revoking a family (X4): whenever [revokeTokenFamily] returns on a
    non-empty family, the family's pointer is gone, the record the pointer
    led to is gone, every index set has lost exactly that family, and every
    other key holds what it held. *)
Theorem revokeTokenFamily_effect (f : string) (w w1 : world) :
  f ≠ "" →
  revokeTokenFamily (Some f) w = (Returned tt, w1) →
  store w1 !! (TOKEN_FAMILY_PREFIX +:+ f) = None
  ∧ (∀ current, string_at (store w) (TOKEN_FAMILY_PREFIX +:+ f) = Some current →
                current ≠ "" →
                store w1 !! (REFRESH_TOKEN_PREFIX +:+ current) = None)
  ∧ (∀ k, String.prefix USER_SESSIONS_PREFIX k = true →
          members_of (store w1) k = members_of (store w) k ∖ {[f]})
  ∧ (∀ k, String.prefix USER_SESSIONS_PREFIX k = false →
          k ≠ TOKEN_FAMILY_PREFIX +:+ f →
          (∀ current, string_at (store w) (TOKEN_FAMILY_PREFIX +:+ f) = Some current →
                      current ≠ "" → k ≠ REFRESH_TOKEN_PREFIX +:+ current) →
          store w1 !! k = store w !! k).
Proof.
  intros Hf Hrun. apply revoke_returned_inv in Hrun;
    [|simpl; by apply negb_true_iff, String.eqb_neq].
  apply revoke_store_frame in Hrun as (Hidx & Hptr & Hrec & Hother).
  split; [done|]. split; [done|]. split; [|done].
  intros k Hk. by apply members_of_srem_value, Hidx.
Qed.


(** ** Well-formedness alone *)

(** A computation that keeps soundness for every reading of the records
    keeps well-formedness. *)
Lemma well_formed_preserved {A} (c : M A) :
  (∀ P, preserves (sound P) c) → preserves well_formed c.
Proof.
  intros Hc w Hw.
  set (P := λ _ : string,
         Some {| userId := ""; tokenFamily := ""; createdAt := 0;
                 lastUsedAt := 0; userAgent := None; ipAddress := None |}).
  apply (sound_split P), (Hc P w). apply sound_split. split; [done|].
  intros k v _. unfold record_ok.
  destruct (String.prefix REFRESH_TOKEN_PREFIX k); [|done].
  destruct v as [str ?|?]; [|done]. apply orb_true_r.
Qed.

Lemma revoke_store_only_deletes (f : string) (m m' : gmap string rvalue) :
  revoke_store f m = (Returned tt, m') →
  ∀ k, String.prefix USER_SESSIONS_PREFIX k = false →
       m' !! k = None ∨ m' !! k = m !! k.
Proof.
  intros (_ & Hptr & Hrec & Hother)%revoke_store_frame k Hk.
  destruct (decide (k = TOKEN_FAMILY_PREFIX +:+ f)) as [->|Hne]; [by left|].
  destruct (string_at m (TOKEN_FAMILY_PREFIX +:+ f)) as [current|] eqn:Hcur.
  - destruct (decide (current = "")) as [->|Hcne].
    + right. apply Hother; [done|done|]. by intros ? [= <-].
    + destruct (decide (k = REFRESH_TOKEN_PREFIX +:+ current)) as [->|Hkr].
      * left. by apply Hrec.
      * right. apply Hother; [done|done|]. by intros ? [= <-].
  - right. by apply Hother.
Qed.

(** The loop of [revokeAllUserTokens] over families none of which is
    empty. *)
Lemma revoke_all_run (fams : list string) m t lg :
  well_formed m →
  (∀ f, f ∈ fams → f ≠ "") →
  ∃ m' lg',
    for_of fams (λ family, revokeTokenFamily (Some family)) (World m t [] lg)
    = (Returned tt, World m' t [] lg')
    ∧ well_formed m'
    ∧ (∀ f, f ∈ fams → m' !! (TOKEN_FAMILY_PREFIX +:+ f) = None)
    ∧ (∀ f current, f ∈ fams →
         string_at m (TOKEN_FAMILY_PREFIX +:+ f) = Some current → current ≠ "" →
         m' !! (REFRESH_TOKEN_PREFIX +:+ current) = None)
    ∧ (∀ k, String.prefix USER_SESSIONS_PREFIX k = true →
            members_of m' k = members_of m k ∖ list_to_set fams)
    ∧ (∀ k, String.prefix USER_SESSIONS_PREFIX k = false →
            m' !! k = None ∨ m' !! k = m !! k)
    ∧ (∀ k, String.prefix USER_SESSIONS_PREFIX k = false →
            (∀ f, f ∈ fams →
               k ≠ TOKEN_FAMILY_PREFIX +:+ f
               ∧ ∀ current, string_at m (TOKEN_FAMILY_PREFIX +:+ f) = Some current →
                            k ≠ REFRESH_TOKEN_PREFIX +:+ current) →
            m' !! k = m !! k).
Proof.
  revert m lg. induction fams as [|f0 fams IH]; intros m lg Hwf Hne.
  - exists m, lg. simpl. split; [done|]. split; [done|].
    split; [by intros f ?%elem_of_nil|]. split; [by intros f ? ?%elem_of_nil|].
    split; [intros k _; set_solver|]. split; [by right|done].
  - assert (Hf0 : f0 ≠ "") by apply Hne, list_elem_of_here.
    assert (Ht0 : truthy (Some f0) = true)
      by (simpl; by apply negb_true_iff, String.eqb_neq).
    destruct (revoke_run f0 m t lg Ht0) as [lg1 Hstep].
    destruct (revoke_store_returns f0 m Hwf) as [m1 Hm1].
    rewrite Hm1 in Hstep. simpl in Hstep.
    assert (Hwf1 : well_formed m1).
    { pose proof (well_formed_preserved (revokeTokenFamily (Some f0))
                    (λ P, preserves_revokeTokenFamily P (Some f0))
                    (World m t [] lg) Hwf) as H.
      by rewrite Hstep in H. }
    destruct (IH m1 lg1 Hwf1) as (m' & lg' & Hrun & Hwf' & Hptr & Hrec & Hidx
                                  & Hdel & Hframe).
    { intros f Hf. by apply Hne, list_elem_of_further. }
    pose proof (revoke_store_only_deletes f0 m m1 Hm1) as Hdel1.
    pose proof (revoke_store_frame f0 m m1 Hm1) as (Hidx1 & Hptr1 & Hrec1 & Hframe1).
    exists m', lg'. cbn [for_of]. erewrite bind_returned by exact Hstep.
    split; [done|]. split; [done|]. split; [|split; [|split; [|split]]].
    + intros f [->|Hin]%elem_of_cons; [|by apply Hptr].
      destruct (Hdel (TOKEN_FAMILY_PREFIX +:+ f0)) as [H|H];
        [apply pointer_key_not_index|done|by rewrite H].
    + intros f current [->|Hin]%elem_of_cons Hcur Hcne.
      * destruct (Hdel (REFRESH_TOKEN_PREFIX +:+ current)) as [H|H];
          [apply record_key_not_index|done|].
        rewrite H. by apply Hrec1.
      * destruct (decide (f = f0)) as [->|Hff].
        -- destruct (Hdel (REFRESH_TOKEN_PREFIX +:+ current)) as [H|H];
             [apply record_key_not_index|done|].
           rewrite H. by apply Hrec1.
        -- apply (Hrec f current Hin); [|done].
           unfold string_at. rewrite Hframe1; [done|apply pointer_key_not_index| |].
           ++ by intros ?%key_suffix_inj.
           ++ intros ? _ _. apply pointer_key_not_record.
    + intros k Hk. rewrite (Hidx k Hk).
      rewrite (members_of_srem_value f0 m m1 k) by by apply Hidx1.
      set_solver.
    + intros k Hk. destruct (Hdel k Hk) as [H|H]; [by left|].
      rewrite H. by apply Hdel1.
    + intros k Hk Hout. rewrite Hframe; [apply Hframe1; [done|..]|done|].
      * apply (Hout f0), list_elem_of_here.
      * intros current Hcur _. by apply (Hout f0); [apply list_elem_of_here|].
      * intros f Hin. split; [by apply Hout, list_elem_of_further|].
        intros current Hcur.
        destruct (decide (f = f0)) as [->|Hff].
        -- unfold string_at in Hcur. by rewrite Hptr1 in Hcur.
        -- apply (Hout f); [by apply list_elem_of_further|].
           unfold string_at in *. rewrite Hframe1 in Hcur;
             [done|apply pointer_key_not_index| |].
           ++ by intros ?%key_suffix_inj.
           ++ intros ? _ _. apply pointer_key_not_record.
Qed.


(** ** The sweep and the session directory *)

Lemma resolve_ext (P : string → option RefreshTokenData)
    (m m' : gmap string rvalue) (f : string) :
  (∀ k, String.prefix USER_SESSIONS_PREFIX k = false → m' !! k = m !! k) →
  resolve P m' f = resolve P m f.
Proof.
  intros Hsame. unfold resolve, string_at.
  rewrite (Hsame (TOKEN_FAMILY_PREFIX +:+ f)) by apply pointer_key_not_index.
  destruct (m !! (TOKEN_FAMILY_PREFIX +:+ f)) as [[current ?|?]|]; [|done..].
  by rewrite (Hsame (REFRESH_TOKEN_PREFIX +:+ current))
    by apply record_key_not_index.
Qed.

Lemma resolve_needs_pointer (P : string → option RefreshTokenData)
    (m : gmap string rvalue) (f : string) :
  m !! (TOKEN_FAMILY_PREFIX +:+ f) = None → resolve P m f = None.
Proof. intros H. unfold resolve, string_at. by rewrite H. Qed.

Lemma omap_filter_none {A B} (g : A → option B) (p : A → Prop)
    `{∀ x, Decision (p x)} (l : list A) :
  (∀ x, x ∈ l → ¬ p x → g x = None) →
  omap g (filter p l) = omap g l.
Proof.
  induction l as [|x l IH]; intros Hg; [done|].
  assert (Hrest : omap g (filter p l) = omap g l).
  { apply IH. intros y Hy. by apply Hg, list_elem_of_further. }
  rewrite filter_cons.
  destruct (decide (p x)) as [Hp|Hp]; simpl.
  - destruct (g x); [f_equal|]; exact Hrest.
  - rewrite (Hg x) by (done || apply list_elem_of_here). exact Hrest.
Qed.

Lemma omap_length_le {A B} (g : A → option B) (l : list A) :
  (length (omap g l) ≤ length l)%nat.
Proof.
  induction l as [|x l IH]; simpl; [done|].
  destruct (g x); simpl.
  - apply le_n_S. exact IH.
  - apply Nat.le_le_succ_r. exact IH.
Qed.

Lemma omap_pointwise {A B} (g h : A → option B) (l : list A) :
  (∀ x, g x = h x) → omap g l = omap h l.
Proof.
  intros Hgh. induction l as [|x l IH]; [done|]. simpl. rewrite Hgh.
  destruct (h x); [f_equal|]; exact IH.
Qed.

(** One run of the sweep, on the keyspace. *)
Lemma cleanup_run m t lg :
  (∀ k, String.prefix USER_SESSIONS_PREFIX k = true → ¬ holds_string (m !! k)) →
  ∃ m' lg',
    cleanupExpiredTokens (World m t [] lg) = (Returned tt, World m' t [] lg')
    ∧ (∀ k, String.prefix USER_SESSIONS_PREFIX k = true → ¬ holds_string (m' !! k))
    ∧ (∀ k f, String.prefix USER_SESSIONS_PREFIX k = true →
         (f ∈ members_of m' k ↔
          f ∈ members_of m k ∧ is_Some (m !! (TOKEN_FAMILY_PREFIX +:+ f))))
    ∧ (∀ k, String.prefix USER_SESSIONS_PREFIX k = false → m' !! k = m !! k).
Proof.
  intros Hty. unfold cleanupExpiredTokens.
  erewrite bind_returned; [|apply getRedisClient_available].
  erewrite bind_returned; cycle 1.
  { unfold redis_keys. rewrite round_trip_available. reflexivity. }
  simpl. fold (index_keys m).
  destruct (sweep_keys_run (index_keys m) m t (lg ++ [KEYS USER_SESSIONS_PREFIX]))
    as (m' & lg' & Hrun & _ & Hother & Hty' & Hmem); [|done|].
  { by intros k [? _]%elem_of_index_keys. }
  rewrite Hrun. do 2 eexists. split; [done|]. split; [done|]. split.
  - intros k f Hk. destruct (decide (k ∈ index_keys m)) as [Hin|Hnin].
    + by apply Hmem.
    + assert (Hnone : m !! k = None).
      { destruct (m !! k) as [v|] eqn:Hv; [|done].
        destruct Hnin. apply elem_of_index_keys. by rewrite Hv. }
      unfold members_of. rewrite Hother, Hnone by done. set_solver.
  - intros k Hk. apply Hother. intros [? _]%elem_of_index_keys. congruence.
Qed.

Section Composition.

Variable config : Config.
Variable jwt_sign : TokenPayload → option string → string → string → Z → string.
Variable jwt_verify : string → string → Z → verdict.
Variable JSON_stringify : RefreshTokenData → string.
Variable JSON_parse : string → option RefreshTokenData.

Local Abbreviation rotate :=
  (refreshTokenRotation config jwt_sign jwt_verify JSON_stringify JSON_parse).
Local Abbreviation issue := (generateTokenPair config jwt_sign JSON_stringify).
Local Abbreviation blacklist := (blacklistAccessToken config jwt_verify).
Local Abbreviation sessions := (getUserSessions JSON_parse).

(** *** Blacklisting and the lookup *)

Lemma blacklist_run (token : string) (w : world) (decoded : Decoded) (exp : Z) :
  available w →
  jwt_verify token (jwt_secret config) (clock w) = Verified decoded →
  d_exp decoded = Some exp →
  clock w / 1000 < exp →
  blacklist token w
  = (Returned tt,
     World (<[BLACKLIST_PREFIX +:+ token :=
               RString "1" (Some (exp - clock w / 1000))]> (store w))
       (clock w) []
       (log w ++ [SETEX (BLACKLIST_PREFIX +:+ token) (exp - clock w / 1000) "1"])).
Proof.
  clear jwt_sign JSON_stringify JSON_parse.
  intros Hw Hv He Hlt. rewrite (available_inv w Hw) at 1.
  unfold blacklistAccessToken. run. rewrite Hv. simpl. rewrite He.
  rewrite decide_True by lia. run. unfold setEx.
  by rewrite decide_True by lia.
Qed.

Lemma isTokenBlacklisted_run (token : string) m t lg :
  (∀ s, m !! (BLACKLIST_PREFIX +:+ token) ≠ Some (RSet s)) →
  isTokenBlacklisted token (World m t [] lg)
  = (Returned (bool_decide (is_Some (m !! (BLACKLIST_PREFIX +:+ token)))),
     World m t [] (lg ++ [GET (BLACKLIST_PREFIX +:+ token)])).
Proof.
  intros Hty. unfold isTokenBlacklisted. run. unfold get.
  destruct (m !! (BLACKLIST_PREFIX +:+ token)) as [[v ttl|s]|] eqn:Hk; simpl;
    [done|by destruct (Hty s)|done].
Qed.

(** The outcome of the lookup depends on the blacklist key of the token
    only. *)
Lemma isTokenBlacklisted_outcome (token : string) (w w' : world) :
  available w → available w' →
  store w' !! (BLACKLIST_PREFIX +:+ token) = store w !! (BLACKLIST_PREFIX +:+ token) →
  fst (isTokenBlacklisted token w') = fst (isTokenBlacklisted token w).
Proof.
  intros Hw Hw' Hk. rewrite (available_inv w Hw), (available_inv w' Hw').
  unfold isTokenBlacklisted. run. unfold get. rewrite Hk.
  by destruct (store w !! (BLACKLIST_PREFIX +:+ token)) as [[? ?|?]|].
Qed.

(** X3: with the store available, blacklisting an access token that
    verifies and has not reached its [exp] makes [isTokenBlacklisted] answer
    [true] for it; the answer for every other token, and every key but the
    token's blacklist key, are as before. *)
Theorem blacklist_then_blacklisted (token : string) (w : world)
    (decoded : Decoded) (exp : Z) :
  available w →
  jwt_verify token (jwt_secret config) (clock w) = Verified decoded →
  d_exp decoded = Some exp →
  clock w / 1000 < exp →
  ∃ w', blacklist token w = (Returned tt, w')
    ∧ fst (isTokenBlacklisted token w') = Returned true
    ∧ (∀ other, other ≠ token →
         fst (isTokenBlacklisted other w') = fst (isTokenBlacklisted other w))
    ∧ (∀ k, k ≠ BLACKLIST_PREFIX +:+ token → store w' !! k = store w !! k).
Proof.
  clear jwt_sign JSON_stringify JSON_parse.
  intros Hw Hv He Hlt. eexists. split; [by eapply blacklist_run|].
  split; [|split].
  - rewrite isTokenBlacklisted_run; simpl.
    + by rewrite lookup_insert_eq, bool_decide_eq_true_2 by eauto.
    + intros s. by rewrite lookup_insert_eq.
  - intros other Hne. apply isTokenBlacklisted_outcome; [done|done|].
    simpl. apply lookup_insert_ne. intros Heq%key_suffix_inj. congruence.
  - intros k Hk. simpl. by apply lookup_insert_ne.
Qed.


(** *** Rotation, read forwards and backwards *)

Lemma rotation_returned_inv (old : string) (ua ip : option string)
    (w w' : world) (pair : TokenPair) :
  rotate old ua ip w = (Returned pair, w') →
  ∃ decoded str ttl tokenData,
    jwt_verify old (jwt_refreshSecret config) (clock w) = Verified decoded
    ∧ d_type decoded = Some "refresh"
    ∧ store w !! (REFRESH_TOKEN_PREFIX +:+ old) = Some (RString str ttl)
    ∧ str ≠ ""
    ∧ JSON_parse str = Some tokenData
    ∧ refreshToken pair
      = jwt_sign {| p_id := d_id decoded; p_email := d_email decoded;
                    p_role := d_role decoded;
                    p_tokenFamily := d_tokenFamily decoded |}
          (Some "refresh") (jwt_refreshSecret config)
          (jwt_refreshExpiresIn config) (clock w)
    ∧ clock w' = clock w
    ∧ store w'
      = <[TOKEN_FAMILY_PREFIX +:+ render (d_tokenFamily decoded) :=
            RString (refreshToken pair) (Some SEVEN_DAYS)]>
          (<[REFRESH_TOKEN_PREFIX +:+ refreshToken pair :=
               RString
                 (JSON_stringify
                    {| userId := userId tokenData;
                       tokenFamily := tokenFamily tokenData;
                       createdAt := createdAt tokenData; lastUsedAt := clock w;
                       userAgent := js_or ua (userAgent tokenData);
                       ipAddress := js_or ip (ipAddress tokenData) |})
                 (Some SEVEN_DAYS)]>
             (delete (REFRESH_TOKEN_PREFIX +:+ old) (store w))).
Proof.
  intros Hrun. unfold refreshTokenRotation in Hrun.
  apply bind_returned_inv in Hrun as (u0 & w0 & Hstep & Hrun).
  apply getRedisClient_returned_inv in Hstep as (Hs0 & Hc0 & Hl0).
  apply try_catch_returned_inv in Hrun as [Hrun|(e & w1 & _ & Hcatch)]; cycle 1.
  { apply bind_returned_inv in Hcatch as (? & ? & _ & [=]). }
  apply bind_returned_inv in Hrun as (decoded & w1 & Hstep & Hrun).
  unfold verify in Hstep.
  destruct (jwt_verify old (jwt_refreshSecret config) (clock w0)) as [d| |] eqn:Hv;
    [|discriminate..].
  injection Hstep as <- <-.
  apply bind_returned_inv in Hrun as (u1 & w1 & Hstep & Hrun).
  destruct (decide (d_type d = Some "refresh")) as [Hty|]; [|discriminate].
  injection Hstep as _ <-.
  apply bind_returned_inv in Hrun as (got & w1 & Hstep & Hrun).
  apply round_trip_returned_inv in Hstep
    as ((Hs1 & Hgot & _)%get_returned_inv & Hc1 & Hl1).
  apply bind_returned_inv in Hrun as (u2 & w2 & Hstep & Hrun).
  destruct (truthy got) eqn:Htruthy; cycle 1.
  { apply bind_returned_inv in Hstep as (? & ? & _ & [=]). }
  injection Hstep as _ <-.
  destruct got as [str|]; [|discriminate].
  symmetry in Hgot. apply string_at_lookup in Hgot as [ttl Hrec].
  apply bind_returned_inv in Hrun as (tokenData & w2 & Hstep & Hrun).
  unfold parse in Hstep. simpl in Hstep.
  destruct (JSON_parse str) as [data|] eqn:Hparse; [|discriminate].
  injection Hstep as <- <-.
  apply bind_returned_inv in Hrun as (u3 & w2 & Hstep & Hrun).
  apply round_trip_returned_inv in Hstep as ([= _ Hs2] & Hc2 & Hl2).
  apply bind_returned_inv in Hrun as (access & w3 & Hstep & Hrun).
  injection Hstep as <- <-.
  apply bind_returned_inv in Hrun as (refresh & w3 & Hstep & Hrun).
  injection Hstep as <- <-.
  apply bind_returned_inv in Hrun as (used & w3 & Hstep & Hrun).
  injection Hstep as <- <-.
  apply bind_returned_inv in Hrun as (u4 & w3 & Hstep & Hrun).
  apply round_trip_returned_inv in Hstep as (Hs3%setEx_returned_inv & Hc3 & Hl3).
  apply bind_returned_inv in Hrun as (u5 & w4 & Hstep & Hrun).
  apply round_trip_returned_inv in Hstep as (Hs4%setEx_returned_inv & Hc4 & Hl4).
  injection Hrun as <- <-. simpl.
  assert (Hclock : clock w2 = clock w) by congruence.
  rewrite Hclock in Hs3, Hs4 |- *. rewrite Hc0 in Hv.
  exists d, str, ttl, data.
  split; [done|]. split; [done|].
  split; [by rewrite <- Hs0|].
  split; [intros ->; discriminate|]. split; [done|]. split; [done|].
  split; [congruence|].
  by rewrite Hs4, Hs3, <- Hs2, Hs1, Hs0.
Qed.

Lemma rotation_run (old : string) (ua ip : option string) (w : world)
    (decoded : Decoded) (str : string) (ttl : option Z)
    (tokenData : RefreshTokenData) :
  available w →
  jwt_verify old (jwt_refreshSecret config) (clock w) = Verified decoded →
  d_type decoded = Some "refresh" →
  store w !! (REFRESH_TOKEN_PREFIX +:+ old) = Some (RString str ttl) →
  str ≠ "" →
  JSON_parse str = Some tokenData →
  ∃ pair w', rotate old ua ip w = (Returned pair, w') ∧ available w'.
Proof.
  intros Hw Hv Hty Hrec Hstr Hparse. rewrite (available_inv w Hw).
  unfold refreshTokenRotation. run. rewrite Hv. simpl.
  rewrite decide_True by done. run. unfold get. rewrite Hrec. simpl.
  apply String.eqb_neq in Hstr. rewrite Hstr. simpl. rewrite Hparse. simpl.
  run. by do 2 eexists.
Qed.


(** X7: a refresh token is good for one rotation.  Whenever the rotation
    returns, the record of the presented token is gone unless the new
    refresh token is the same string (the signer gave the same token for the
    same claims and clock), and the keyspace differs from the one before in
    at most three keys: the old record, the new record and the pointer of
    the family; no session index is touched. *)
Theorem rotation_single_use (old : string) (ua ip : option string)
    (w w' : world) (pair : TokenPair) :
  rotate old ua ip w = (Returned pair, w') →
  ∃ decoded,
    jwt_verify old (jwt_refreshSecret config) (clock w) = Verified decoded
    ∧ (refreshToken pair ≠ old →
       store w' !! (REFRESH_TOKEN_PREFIX +:+ old) = None)
    ∧ string_at (store w') (TOKEN_FAMILY_PREFIX +:+ render (d_tokenFamily decoded))
      = Some (refreshToken pair)
    ∧ (∀ k, k ≠ REFRESH_TOKEN_PREFIX +:+ old →
            k ≠ REFRESH_TOKEN_PREFIX +:+ refreshToken pair →
            k ≠ TOKEN_FAMILY_PREFIX +:+ render (d_tokenFamily decoded) →
            store w' !! k = store w !! k)
    ∧ (∀ k, String.prefix USER_SESSIONS_PREFIX k = true →
            store w' !! k = store w !! k).
Proof.
  intros Hrun.
  apply rotation_returned_inv in Hrun
    as (d & str & ttl & data & Hv & _ & _ & _ & _ & _ & _ & ->).
  exists d. split; [done|].
  assert (Hframe : ∀ k, k ≠ REFRESH_TOKEN_PREFIX +:+ old →
            k ≠ REFRESH_TOKEN_PREFIX +:+ refreshToken pair →
            k ≠ TOKEN_FAMILY_PREFIX +:+ render (d_tokenFamily d) →
            <[TOKEN_FAMILY_PREFIX +:+ render (d_tokenFamily d) :=
                RString (refreshToken pair) (Some SEVEN_DAYS)]>
              (<[REFRESH_TOKEN_PREFIX +:+ refreshToken pair :=
                   RString
                     (JSON_stringify
                        {| userId := userId data; tokenFamily := tokenFamily data;
                           createdAt := createdAt data; lastUsedAt := clock w;
                           userAgent := js_or ua (userAgent data);
                           ipAddress := js_or ip (ipAddress data) |})
                     (Some SEVEN_DAYS)]>
                 (delete (REFRESH_TOKEN_PREFIX +:+ old) (store w))) !! k
            = store w !! k).
  { intros k H1 H2 H3. by rewrite !lookup_insert_ne, lookup_delete_ne. }
  split; [|split; [|split; [done|]]].
  - intros Hne. rewrite lookup_insert_ne by apply pointer_key_not_record.
    rewrite lookup_insert_ne; [apply lookup_delete_eq|].
    intros Heq%key_suffix_inj. done.
  - unfold string_at. by rewrite lookup_insert_eq.
  - intros k Hk. apply Hframe; intros ->.
    + by rewrite record_key_not_index in Hk.
    + by rewrite record_key_not_index in Hk.
    + by rewrite pointer_key_not_index in Hk.
Qed.


(** *** Replay of a consumed refresh token *)

Lemma rotation_breach_run (old : string) (ua ip : option string) (w : world)
    (decoded : Decoded) (f : string) (m' : gmap string rvalue) :
  available w →
  jwt_verify old (jwt_refreshSecret config) (clock w) = Verified decoded →
  d_type decoded = Some "refresh" →
  store w !! (REFRESH_TOKEN_PREFIX +:+ old) = None →
  d_tokenFamily decoded = Some f →
  f ≠ "" →
  revoke_store f (store w) = (Returned tt, m') →
  ∃ lg, rotate old ua ip w = (Thrown security_breach, World m' (clock w) [] lg).
Proof.
  intros Hw Hv Hty Hrec Hfam Hf Hm'.
  destruct w as [m t fs lg0]. unfold available in Hw. simpl in *. subst fs.
  unfold refreshTokenRotation. run. rewrite Hv. simpl.
  rewrite decide_True by done. run. unfold get. rewrite Hrec. simpl.
  rewrite Hfam.
  destruct (revoke_run f m t
              (lg0 ++ [GET (REFRESH_TOKEN_PREFIX +:+ old)])) as [lg' ->].
  { simpl. by apply negb_true_iff, String.eqb_neq. }
  rewrite Hm'. simpl. by eexists.
Qed.

(** X8: reuse detection takes the whole family down.  After a rotation
    that returned a different refresh token, presenting the consumed token
    again (store available, keyspace well formed, the token still verifying
    to the same claims with a non-empty family) throws the breach error, and
    in the world it leaves the successor's record and the family's pointer
    are gone and the family is in no index: the successor can no more be
    rotated. *)
Theorem replay_revokes_successor (old : string) (ua ip ua' ip' : option string)
    (w w1 w2 : world) (pair : TokenPair) (decoded : Decoded) (f : string) :
  rotate old ua ip w = (Returned pair, w1) →
  refreshToken pair ≠ old →
  refreshToken pair ≠ "" →
  jwt_verify old (jwt_refreshSecret config) (clock w) = Verified decoded →
  d_tokenFamily decoded = Some f →
  f ≠ "" →
  store w2 = store w1 →
  available w2 →
  well_formed (store w2) →
  jwt_verify old (jwt_refreshSecret config) (clock w2) = Verified decoded →
  ∃ w3,
    rotate old ua' ip' w2 = (Thrown security_breach, w3)
    ∧ store w3 !! (REFRESH_TOKEN_PREFIX +:+ refreshToken pair) = None
    ∧ store w3 !! (TOKEN_FAMILY_PREFIX +:+ f) = None
    ∧ (∀ k, String.prefix USER_SESSIONS_PREFIX k = true →
            f ∉ members_of (store w3) k)
    ∧ (∀ w4 ua'' ip'' pair' w5,
         store w4 = store w3 →
         rotate (refreshToken pair) ua'' ip'' w4 ≠ (Returned pair', w5)).
Proof.
  intros Hrun Hnew Hne Hv Hfam Hf Hst Hw2 Hwf Hv2.
  apply rotation_returned_inv in Hrun
    as (d & str & ttl & data & Hv' & Hty & _ & _ & _ & _ & _ & Hs1).
  rewrite Hv in Hv'. injection Hv' as <-.
  rewrite Hfam in Hs1. simpl in Hs1. rewrite <- Hst in Hs1.
  assert (Hgone : store w2 !! (REFRESH_TOKEN_PREFIX +:+ old) = None).
  { rewrite Hs1. rewrite lookup_insert_ne by apply pointer_key_not_record.
    rewrite lookup_insert_ne; [apply lookup_delete_eq|].
    by intros ?%key_suffix_inj. }
  assert (Hptr : string_at (store w2) (TOKEN_FAMILY_PREFIX +:+ f)
                 = Some (refreshToken pair)).
  { unfold string_at. by rewrite Hs1, lookup_insert_eq. }
  destruct (revoke_store_returns f (store w2) Hwf) as [m' Hm'].
  destruct (rotation_breach_run old ua' ip' w2 decoded f m') as [lg Hbreach];
    try done.
  pose proof (revoke_store_returned f _ _ Hm') as (_ & _ & Hidx).
  apply revoke_store_frame in Hm' as (_ & Hp & Hrec & _).
  eexists. split; [exact Hbreach|]. simpl.
  split; [by apply Hrec|]. split; [done|]. split; [done|].
  intros w4 ua'' ip'' pair' w5 Hst4 Hagain.
  apply rotation_returned_inv in Hagain
    as (? & ? & ? & ? & _ & _ & Hthere & _).
  rewrite Hst4 in Hthere. simpl in Hthere.
  rewrite (Hrec (refreshToken pair)) in Hthere; done.
Qed.

(** *** A rotation cut short by the store *)

(** X9: the rotation is not atomic.  When the store accepts the connection,
    the GET and the DEL of the old record and then rejects the SETEX of the
    new one, the rotation throws [RedisUnavailable] and leaves a keyspace in
    which the presented token's record is deleted and nothing was written
    for a successor: the family's pointer still names the consumed token. *)
Theorem rotation_interrupted (old : string) (ua ip : option string) (w : world)
    (decoded : Decoded) (str : string) (ttl : option Z)
    (tokenData : RefreshTokenData) (rest : list bool) :
  faults w = [false; false; false; true] ++ rest →
  jwt_verify old (jwt_refreshSecret config) (clock w) = Verified decoded →
  d_type decoded = Some "refresh" →
  store w !! (REFRESH_TOKEN_PREFIX +:+ old) = Some (RString str ttl) →
  str ≠ "" →
  JSON_parse str = Some tokenData →
  ∃ w', rotate old ua ip w = (Thrown RedisUnavailable, w')
    ∧ store w' = delete (REFRESH_TOKEN_PREFIX +:+ old) (store w)
    ∧ log w' = log w ++ [GET (REFRESH_TOKEN_PREFIX +:+ old);
                         DEL (REFRESH_TOKEN_PREFIX +:+ old)]
    ∧ faults w' = rest.
Proof.
  intros Hfaults Hv Hty Hrec Hstr Hparse.
  destruct w as [m t fs lg0]. simpl in *. subst fs.
  apply String.eqb_neq in Hstr.
  unfold refreshTokenRotation, bind, try_catch, ret, throw, verify, sign, parse,
    Date_now, redis_get, redis_setEx, redis_del, round_trip, getRedisClient.
  simpl. rewrite Hv. simpl. rewrite decide_True by done. simpl.
  unfold get. rewrite Hrec. simpl. rewrite Hstr. simpl. rewrite Hparse. simpl.
  eexists. split; [reflexivity|]. simpl.
  split; [done|]. split; [|done]. by rewrite <- app_assoc.
Qed.


(** *** Logging out everywhere *)

(** X5: with the store available and the keyspace well formed,
    [revokeAllUserTokens] returns and leaves a well-formed keyspace in which
    the user's index key is gone and, for every family that was in it, the
    pointer and the record it led to are gone and no index holds the family;
    the other indexes lost only such families, the other keys were deleted
    or left alone, and the user's session listing is empty. *)
Theorem revokeAllUserTokens_effect (user : string) (w : world) :
  available w →
  well_formed (store w) →
  ∃ w1,
    revokeAllUserTokens user w = (Returned tt, w1)
    ∧ available w1
    ∧ well_formed (store w1)
    ∧ store w1 !! (USER_SESSIONS_PREFIX +:+ user) = None
    ∧ (∀ f, f ∈ members_of (store w) (USER_SESSIONS_PREFIX +:+ user) →
         store w1 !! (TOKEN_FAMILY_PREFIX +:+ f) = None
         ∧ (∀ current,
              string_at (store w) (TOKEN_FAMILY_PREFIX +:+ f) = Some current →
              current ≠ "" →
              store w1 !! (REFRESH_TOKEN_PREFIX +:+ current) = None)
         ∧ (∀ k, String.prefix USER_SESSIONS_PREFIX k = true →
                 f ∉ members_of (store w1) k))
    ∧ (∀ k, String.prefix USER_SESSIONS_PREFIX k = true →
            k ≠ USER_SESSIONS_PREFIX +:+ user →
            members_of (store w1) k
            = members_of (store w) k
              ∖ members_of (store w) (USER_SESSIONS_PREFIX +:+ user))
    ∧ (∀ k, String.prefix USER_SESSIONS_PREFIX k = false →
            store w1 !! k = None ∨ store w1 !! k = store w !! k)
    ∧ (∀ w2, store w2 = store w1 → available w2 →
             fst (sessions user w2) = Returned []).
Proof.
  clear config jwt_sign jwt_verify JSON_stringify.
  intros Hw Hwf. destruct w as [m t fs lg]. unfold available in Hw.
  simpl in *. subst fs.
  set (key := USER_SESSIONS_PREFIX +:+ user).
  destruct (well_formed_index m key Hwf (prefix_append _ _)) as [Hty Hnoempty].
  assert (Hfams : sMembers key m = (Returned (elements (members_of m key)), m)).
  { unfold sMembers, members_of.
    destruct (m !! key) as [[? ?|s]|]; simpl in *; [tauto|done|].
    by rewrite elements_empty. }
  destruct (revoke_all_run (elements (members_of m key)) m t
              (lg ++ [SMEMBERS key]) Hwf)
    as (m' & lg' & Hloop & Hwf' & Hptr & Hrec & Hidx & Hdel & _).
  { intros f Hf%elem_of_elements ->. done. }
  exists (World (delete key m') t [] (lg' ++ [DEL key])).
  split; [|split; [done|split; [by apply well_formed_delete|split]]].
  - unfold revokeAllUserTokens. fold key. run. rewrite Hfams. simpl.
    rewrite Hloop. by run.
  - simpl. apply lookup_delete_eq.
  - simpl. split; [|split; [|split]].
    + intros f Hf%elem_of_elements. split; [|split].
      * rewrite lookup_delete_ne by apply index_key_not_pointer. by apply Hptr.
      * intros current Hcur Hcne.
        rewrite lookup_delete_ne by apply index_key_not_record.
        by apply (Hrec f).
      * intros k Hk. unfold members_of.
        destruct (decide (k = key)) as [->|Hkk];
          [rewrite lookup_delete_eq; set_solver|].
        rewrite lookup_delete_ne by done. fold (members_of m' k).
        rewrite (Hidx k Hk). set_solver.
    + intros k Hk Hkk. unfold members_of at 1. rewrite lookup_delete_ne by done.
      fold (members_of m' k). rewrite (Hidx k Hk). set_solver.
    + intros k Hk. rewrite lookup_delete_ne; [by apply Hdel|].
      intros <-. unfold key in Hk. by rewrite prefix_append in Hk.
    + intros w2 Hst Hw2. rewrite (available_inv w2 Hw2), Hst.
      unfold getUserSessions. fold key. run. unfold sMembers.
      by rewrite lookup_delete_eq.
Qed.


(** *** From a login to the listing and to the first rotation *)

Lemma issue_returned_inv (uuid : string) (user : User) (ua ip : option string)
    (w w' : world) (r : IssuedTokens) :
  issue uuid user ua ip w = (Returned r, w') →
  i_tokenFamily r = uuid
  ∧ clock w' = clock w
  ∧ store w'
    = <[USER_SESSIONS_PREFIX +:+ u_id user :=
          RSet ({[uuid]} ∪ members_of (store w) (USER_SESSIONS_PREFIX +:+ u_id user))]>
        (<[TOKEN_FAMILY_PREFIX +:+ uuid :=
             RString (i_refreshToken r) (Some SEVEN_DAYS)]>
           (<[REFRESH_TOKEN_PREFIX +:+ i_refreshToken r :=
                RString
                  (JSON_stringify
                     {| userId := u_id user; tokenFamily := uuid;
                        createdAt := clock w; lastUsedAt := clock w;
                        userAgent := ua; ipAddress := ip |})
                  (Some SEVEN_DAYS)]> (store w))).
Proof.
  clear JSON_parse jwt_verify.
  intros Hrun. unfold generateTokenPair in Hrun.
  apply bind_returned_inv in Hrun as (access & w1 & Hstep & Hrun).
  injection Hstep as <- <-.
  apply bind_returned_inv in Hrun as (refresh & w1 & Hstep & Hrun).
  injection Hstep as <- <-.
  apply bind_returned_inv in Hrun as (u & w1 & Hstep & Hrun).
  apply getRedisClient_returned_inv in Hstep as (Hs1 & Hc1 & Hl1).
  apply bind_returned_inv in Hrun as (created & w2 & Hstep & Hrun).
  injection Hstep as <- <-.
  apply bind_returned_inv in Hrun as (used & w2 & Hstep & Hrun).
  injection Hstep as <- <-.
  apply bind_returned_inv in Hrun as (u2 & w2 & Hstep & Hrun).
  apply round_trip_returned_inv in Hstep as (Hs2%setEx_returned_inv & Hc2 & Hl2).
  apply bind_returned_inv in Hrun as (u3 & w3 & Hstep & Hrun).
  apply round_trip_returned_inv in Hstep as (Hs3%setEx_returned_inv & Hc3 & Hl3).
  apply bind_returned_inv in Hrun as (u4 & w4 & Hstep & Hrun).
  apply round_trip_returned_inv in Hstep
    as ((s & Hs4 & Hs)%sAdd_returned_inv & Hc4 & Hl4).
  injection Hrun as <- <-. simpl.
  split; [done|]. split; [congruence|].
  rewrite Hs4, Hs, Hs3, Hs2, Hs1, Hc1. do 2 f_equal.
  unfold members_of.
  rewrite lookup_insert_ne by (apply not_eq_sym, index_key_not_pointer).
  by rewrite lookup_insert_ne by (apply not_eq_sym, index_key_not_record).
Qed.

(** X10: a login shows up in the listing.  Whenever [generateTokenPair]
    returns (the codec round-trips, the refresh token and the serialised
    record are not empty strings), every later listing of the user's
    sessions that returns on the keyspace it left contains the new session,
    with the drawn family, the clock of the login as both [createdAt] and
    [lastUsedAt], and the agent and address supplied. *)
Theorem issue_then_listed (uuid : string) (user : User) (ua ip : option string)
    (w w1 : world) (r : IssuedTokens) :
  json_round_trip JSON_stringify JSON_parse →
  issue uuid user ua ip w = (Returned r, w1) →
  i_refreshToken r ≠ "" →
  JSON_stringify {| userId := u_id user; tokenFamily := uuid;
                    createdAt := clock w; lastUsedAt := clock w;
                    userAgent := ua; ipAddress := ip |} ≠ "" →
  ∀ w2 l w3,
    store w2 = store w1 →
    available w2 →
    sessions (u_id user) w2 = (Returned l, w3) →
    {| s_tokenFamily := uuid; s_createdAt := clock w; s_lastUsedAt := clock w;
       s_userAgent := ua; s_ipAddress := ip |} ∈ l.
Proof.
  clear jwt_verify.
  intros Hjson Hrun Hrefresh Hstr w2 l w3 Hst Hw2 Hlist.
  apply issue_returned_inv in Hrun as (_ & _ & Hs1).
  apply getUserSessions_returned in Hlist as [-> _]; [|done].
  rewrite Array_sort_perm. apply list_elem_of_omap. exists uuid.
  rewrite Hst, Hs1. split.
  - apply elem_of_elements. unfold members_of. rewrite lookup_insert_eq.
    set_solver.
  - unfold resolve, string_at.
    rewrite lookup_insert_ne by apply index_key_not_pointer.
    rewrite lookup_insert_eq.
    apply String.eqb_neq in Hrefresh as ->.
    rewrite lookup_insert_ne by apply index_key_not_record.
    rewrite lookup_insert_ne by apply pointer_key_not_record.
    rewrite lookup_insert_eq.
    apply String.eqb_neq in Hstr as ->. by rewrite Hjson.
Qed.

(** X11: the refresh token of a login can be exchanged, and the exchange
    keeps the session's origin.  On the keyspace a returning
    [generateTokenPair] left, with the store available and the token
    verifying as a refresh token, the rotation returns a pair, and the record
    it stores under the new refresh token has the user and the family of the
    login, the login's clock as [createdAt], the rotation's clock as
    [lastUsedAt], and the login's agent and address wherever the rotation
    was not given a truthy one. *)
Theorem issue_then_rotate (uuid : string) (user : User)
    (ua ip ua' ip' : option string) (w w1 w2 : world) (r : IssuedTokens)
    (decoded : Decoded) :
  json_round_trip JSON_stringify JSON_parse →
  issue uuid user ua ip w = (Returned r, w1) →
  JSON_stringify {| userId := u_id user; tokenFamily := uuid;
                    createdAt := clock w; lastUsedAt := clock w;
                    userAgent := ua; ipAddress := ip |} ≠ "" →
  store w2 = store w1 →
  available w2 →
  jwt_verify (i_refreshToken r) (jwt_refreshSecret config) (clock w2)
  = Verified decoded →
  d_type decoded = Some "refresh" →
  ∃ pair w3,
    rotate (i_refreshToken r) ua' ip' w2 = (Returned pair, w3)
    ∧ store w3 !! (REFRESH_TOKEN_PREFIX +:+ refreshToken pair)
      = Some (RString
                (JSON_stringify
                   {| userId := u_id user; tokenFamily := uuid;
                      createdAt := clock w; lastUsedAt := clock w2;
                      userAgent := if truthy ua' then ua' else ua;
                      ipAddress := if truthy ip' then ip' else ip |})
                (Some 604800)).
Proof.
  intros Hjson Hrun Hstr Hst Hw2 Hv Hty.
  apply issue_returned_inv in Hrun as (_ & _ & Hs1).
  assert (Hrec : store w2 !! (REFRESH_TOKEN_PREFIX +:+ i_refreshToken r)
            = Some (RString
                      (JSON_stringify
                         {| userId := u_id user; tokenFamily := uuid;
                            createdAt := clock w; lastUsedAt := clock w;
                            userAgent := ua; ipAddress := ip |})
                      (Some SEVEN_DAYS))).
  { rewrite Hst, Hs1.
    rewrite lookup_insert_ne by apply index_key_not_record.
    rewrite lookup_insert_ne by apply pointer_key_not_record.
    by rewrite lookup_insert_eq. }
  destruct (rotation_run (i_refreshToken r) ua' ip' w2 decoded _ _ _
              Hw2 Hv Hty Hrec Hstr (Hjson _)) as (pair & w3 & Hrot & _).
  exists pair, w3. split; [done|].
  apply rotation_returned_inv in Hrot
    as (d & str & ttl & data & _ & _ & Hrec' & _ & Hparse & _ & _ & ->).
  rewrite Hrec in Hrec'. injection Hrec' as <- <-.
  rewrite Hjson in Hparse. injection Hparse as <-. simpl.
  rewrite lookup_insert_ne by apply pointer_key_not_record.
  by rewrite lookup_insert_eq.
Qed.


(** *** The sweep and the session listing *)

(** X12: the sweep is invisible to the session listing and a second sweep
    finds nothing to do.  With the store available and no string under the
    index prefix, [cleanupExpiredTokens] returns; for every user the
    sessions listed after it are a rearrangement of those listed before;
    and a second run returns leaving every index set and every other key as
    the first run left them. *)
Theorem cleanup_keeps_sessions (w : world) :
  available w →
  (∀ k, String.prefix USER_SESSIONS_PREFIX k = true → ¬ holds_string (store w !! k)) →
  ∃ w1,
    cleanupExpiredTokens w = (Returned tt, w1)
    ∧ available w1
    ∧ (∀ user l l1 w2 w3,
         sessions user w = (Returned l, w2) →
         sessions user w1 = (Returned l1, w3) →
         l1 ≡ₚ l)
    ∧ ∃ w2,
        cleanupExpiredTokens w1 = (Returned tt, w2)
        ∧ (∀ k, members_of (store w2) k = members_of (store w1) k)
        ∧ (∀ k, String.prefix USER_SESSIONS_PREFIX k = false →
                store w2 !! k = store w1 !! k).
Proof.
  clear config jwt_sign jwt_verify JSON_stringify.
  intros Hw Hty. destruct w as [m t fs lg]. unfold available in Hw.
  simpl in *. subst fs.
  destruct (cleanup_run m t lg Hty) as (m1 & lg1 & Hrun & Hty1 & Hmem & Hout).
  destruct (cleanup_run m1 t lg1 Hty1) as (m2 & lg2 & Hrun2 & _ & Hmem2 & Hout2).
  eexists. split; [exact Hrun|]. split; [done|]. split.
  - intros user l l1 w2 w3 Hl Hl1.
    apply getUserSessions_returned in Hl as [-> _]; [|done].
    apply getUserSessions_returned in Hl1 as [-> _]; [|done].
    rewrite !Array_sort_perm. simpl.
    set (key := USER_SESSIONS_PREFIX +:+ user).
    rewrite (omap_pointwise (resolve JSON_parse m1) (resolve JSON_parse m))
      by (intros f; by apply resolve_ext).
    rewrite <- (omap_filter_none (resolve JSON_parse m)
                  (λ f, is_Some (m !! (TOKEN_FAMILY_PREFIX +:+ f)))
                  (elements (members_of m key))).
    + apply omap_Permutation. apply NoDup_Permutation.
      * apply NoDup_elements.
      * apply NoDup_filter, NoDup_elements.
      * intros f. rewrite list_elem_of_filter, !elem_of_elements.
        rewrite (Hmem key f) by apply prefix_append. tauto.
    + intros f _ Hnone. apply resolve_needs_pointer.
      by apply eq_None_not_Some.
  - eexists. split; [exact Hrun2|]. simpl. split; [|done].
    intros k. destruct (String.prefix USER_SESSIONS_PREFIX k) eqn:Hk.
    + apply set_eq. intros f. rewrite (Hmem2 k f Hk).
      split; [by intros [? _]|]. intros Hf. split; [done|].
      rewrite (Hout (TOKEN_FAMILY_PREFIX +:+ f)) by apply pointer_key_not_index.
      by apply (Hmem k f Hk).
    + unfold members_of. by rewrite Hout2.
Qed.


(** *** Methods that only read *)

Lemma preserves_collect_sessions (I : gmap string rvalue → Prop)
    (fams : list string) (acc : list Session) :
  preserves I (collect_sessions JSON_parse fams acc).
Proof.
  revert acc. induction fams as [|f fams IH]; intros acc; simpl.
  - apply preserves_ret.
  - apply preserves_bind; [apply preserves_get|intros current].
    apply preserves_bind; [|intros pushed; apply IH].
    destruct (truthy current); [|apply preserves_ret].
    apply preserves_bind; [apply preserves_get|intros str].
    destruct (truthy str); [|apply preserves_ret].
    apply preserves_bind; [|intros data; apply preserves_ret].
    unfold parse. destruct (str ≫= JSON_parse);
      [apply preserves_ret|apply preserves_throw].
Qed.

(** X13: the session listing and the blacklist lookup never change the keyspace:
    whatever they return or throw, and whatever round-trips the store
    rejects, the keyspace afterwards is the one before. *)
Theorem reads_never_write (w : world) :
  (∀ user, store (snd (sessions user w)) = store w)
  ∧ (∀ token, store (snd (isTokenBlacklisted token w)) = store w).
Proof.
  clear config jwt_sign jwt_verify JSON_stringify.
  split.
  - intros user.
    assert (H : preserves (eq (store w)) (sessions user)); [|by rewrite <- (H w)].
    unfold getUserSessions.
    apply preserves_bind; [apply preserves_getRedisClient|intros _].
    apply preserves_bind; [apply preserves_sMembers|intros families].
    apply preserves_bind; [apply preserves_collect_sessions|intros l].
    apply preserves_ret.
  - intros token.
    assert (H : preserves (eq (store w)) (isTokenBlacklisted token));
      [|by rewrite <- (H w)].
    unfold isTokenBlacklisted.
    apply preserves_bind; [apply preserves_getRedisClient|intros _].
    apply preserves_bind; [apply preserves_get|intros result].
    apply preserves_ret.
Qed.


(** *** One entry per family *)

Lemma resolved_families_NoDup (m : gmap string rvalue) (fams : list string) :
  NoDup fams → NoDup (s_tokenFamily <$> omap (resolve JSON_parse m) fams).
Proof.
  clear config jwt_sign jwt_verify JSON_stringify.
  induction 1 as [|f fams Hf Hfams IH]; [constructor|].
  simpl. destruct (resolve JSON_parse m f) as [x|] eqn:Hx; [|done].
  rewrite fmap_cons. constructor; [|done].
  rewrite (resolve_family JSON_parse m f x Hx).
  intros (y & Hy & (g & Hg & Hres)%list_elem_of_omap)%list_elem_of_fmap.
  apply resolve_family in Hres. congruence.
Qed.

(** X25: whenever [getUserSessions] returns with the store available, the
    list has one entry per family at most, and no more entries than the
    user's index has members. *)
Theorem sessions_listed_once (user : string) (w w' : world) (l : list Session) :
  available w →
  sessions user w = (Returned l, w') →
  NoDup (s_tokenFamily <$> l)
  ∧ (length l ≤ size (members_of (store w) (USER_SESSIONS_PREFIX +:+ user)))%nat.
Proof.
  clear config jwt_sign jwt_verify JSON_stringify.
  intros Hw [-> _]%getUserSessions_returned; [|done].
  rewrite Array_sort_perm. split.
  - apply resolved_families_NoDup, NoDup_elements.
  - apply omap_length_le.
Qed.

End Composition.

(** * The callers *)

(** ** Bearer headers *)

Lemma prefix_substring (p s : string) :
  String.prefix p s = true → s = p +:+ substring_from (String.length p) s.
Proof.
  revert s. induction p as [|c p IH]; intros s; simpl; [by destruct s|].
  destruct s as [|c' s]; [done|]. simpl.
  destruct (Ascii.ascii_dec c c') as [->|]; [|done].
  intros Hp. rewrite (IH s Hp) at 1. reflexivity.
Qed.

Lemma substring_from_append (p t : string) :
  substring_from (String.length p) (p +:+ t) = t.
Proof. induction p as [|c p IH]; simpl; [by destruct t|done]. Qed.

Lemma bearer_header (authHeader : string) :
  String.prefix "Bearer " authHeader = true →
  authHeader = "Bearer " +:+ substring_from 7 authHeader
  ∧ truthy (Some authHeader) = true.
Proof.
  intros Hp. split; [by apply (prefix_substring "Bearer ")|].
  by destruct authHeader.
Qed.

Lemma bearer_header_token (token : string) :
  String.prefix "Bearer " ("Bearer " +:+ token) = true
  ∧ substring_from 7 ("Bearer " +:+ token) = token
  ∧ truthy (Some ("Bearer " +:+ token)) = true.
Proof. split; [apply prefix_append|]. split; [apply (substring_from_append "Bearer ")|done]. Qed.

Arguments substring_from : simpl never.

Lemma fail_closed_isTokenBlacklisted (token : string) :
  fail_closed (isTokenBlacklisted token).
Proof.
  unfold isTokenBlacklisted.
  apply fail_closed_bind; [apply fail_closed_getRedisClient|intros _].
  apply fail_closed_bind; [apply fail_closed_round_trip|intros result].
  apply fail_closed_ret.
Qed.

Lemma preserves_isTokenBlacklisted (I : gmap string rvalue → Prop) (token : string) :
  preserves I (isTokenBlacklisted token).
Proof.
  unfold isTokenBlacklisted.
  apply preserves_bind; [apply preserves_getRedisClient|intros _].
  apply preserves_bind; [apply preserves_get|intros result].
  apply preserves_ret.
Qed.

Lemma isTokenBlacklisted_returned_inv (token : string) (w w1 : world) (b : bool) :
  isTokenBlacklisted token w = (Returned b, w1) →
  store w1 = store w ∧ clock w1 = clock w
  ∧ (if b then holds_string (store w !! (BLACKLIST_PREFIX +:+ token))
     else store w !! (BLACKLIST_PREFIX +:+ token) = None).
Proof.
  unfold isTokenBlacklisted.
  intros (u0 & w0 & Hstep & Hrun)%bind_returned_inv.
  apply getRedisClient_returned_inv in Hstep as (Hs0 & Hc0 & _).
  apply bind_returned_inv in Hrun as (result & w2 & Hstep & Hrun).
  apply round_trip_returned_inv in Hstep as (Hget & Hc2 & _).
  injection Hrun as <- <-. rewrite <- Hs0.
  unfold get in Hget.
  destruct (store w0 !! (BLACKLIST_PREFIX +:+ token)) as [[v ttl|s]|];
    [|discriminate|]; injection Hget as <- <-; simpl;
    (split; [done|]); (split; [congruence|done]).
Qed.

(** [blacklistAccessToken] returns whatever happens, and it has written
    the blacklist entry or nothing; it wrote only if no round-trip was
    rejected. *)
Lemma blacklist_outcome (config : Config) (jwt_verify : string → string → Z → verdict)
    (token : string) (w w' : world) (o : outcome unit) :
  blacklistAccessToken config jwt_verify token w = (o, w') →
  o = Returned tt
  ∧ (store w' = store w
     ∨ ∃ decoded exp,
         jwt_verify token (jwt_secret config) (clock w) = Verified decoded
         ∧ d_exp decoded = Some exp
         ∧ quiet w w'
         ∧ store w' = <[BLACKLIST_PREFIX +:+ token :=
                          RString "1" (Some (exp - clock w / 1000))]> (store w)).
Proof.
  destruct w as [m t fs lg].
  unfold blacklistAccessToken, try_catch, bind, verify, getRedisClient, Date_now,
    redis_setEx, round_trip, ret. simpl.
  destruct (jwt_verify token (jwt_secret config) t) as [d| |] eqn:Hv; simpl;
    [|intros [= <- <-]; by split; [|left]..].
  destruct fs as [|[] fs]; simpl.
  - destruct (d_exp d) as [e|] eqn:He; simpl; [|intros [= <- <-]; by split; [|left]].
    destruct (decide (e - t / 1000 > 0)); simpl;
      [|intros [= <- <-]; by split; [|left]].
    unfold setEx. rewrite decide_True by lia. simpl.
    intros [= <- <-]. split; [done|]. right. exists d, e.
    split; [done|]. split; [done|]. split; [by exists 0%nat|done].
  - intros [= <- <-]. split; [done|]. by left.
  - destruct (d_exp d) as [e|] eqn:He; simpl; [|intros [= <- <-]; by split; [|left]].
    destruct (decide (e - t / 1000 > 0)); simpl;
      [|intros [= <- <-]; by split; [|left]].
    destruct fs as [|[] fs]; simpl.
    + unfold setEx. rewrite decide_True by lia. simpl.
      intros [= <- <-]. split; [done|]. right. exists d, e.
      split; [done|]. split; [done|]. split; [by exists 1%nat|done].
    + intros [= <- <-]. split; [done|]. by left.
    + unfold setEx. rewrite decide_True by lia. simpl.
      intros [= <- <-]. split; [done|]. right. exists d, e.
      split; [done|]. split; [done|]. split; [by exists 2%nat|done].
Qed.

(** ** The error middleware *)

Lemma errorHandler_sends_error (production : bool) (err : thrown) :
  ∃ statusCode message,
    errorHandler production err
    = {| status := statusCode; json := ErrorBody message |}.
Proof.
  unfold errorHandler.
  destruct (match err with AppErrorObject _ _ => _ | _ => _ end) as [sc msg].
  by eexists _, _.
Qed.

(** X23: what [errorHandler] sends.  In production a 500 never carries
    the message of the error: its body says ['Internal Server Error'].  An
    [AppError] is answered with its own status code, and with its own
    message unless that rule applies.  Any other error is answered 400, 401,
    404, 409 or 500, except that an error without message is answered with
    the [statusCode] it carries, if that is not zero. *)
Theorem errorHandler_statuses (production : bool) (err : thrown) :
  (production = true →
   status (errorHandler production err) = 500 →
   json (errorHandler production err) = ErrorBody "Internal Server Error")
  ∧ (∀ message statusCode,
       err = AppErrorObject message statusCode →
       status (errorHandler production err) = statusCode
       ∧ (production = false ∨ statusCode ≠ 500 →
          json (errorHandler production err) = ErrorBody message))
  ∧ (∀ name type code target message statusCode,
       err = ErrorObject name type code target message statusCode →
       status (errorHandler production err) ∈ [400; 401; 404; 409; 500]
       ∨ (truthy message = false
          ∧ statusCode = Some (status (errorHandler production err))
          ∧ status (errorHandler production err) ≠ 0)).
Proof.
  split; [|split].
  - unfold errorHandler.
    destruct (match err with AppErrorObject _ _ => _ | _ => _ end) as [sc msg].
    simpl. by intros -> ->.
  - intros message statusCode ->. simpl. split; [done|].
    intros [->|Hne]; [done|].
    apply Z.eqb_neq in Hne. rewrite Hne. by rewrite andb_false_r.
  - intros name type code target message statusCode ->. unfold errorHandler.
    destruct production; simpl.
    all: repeat match goal with
           | |- context [if ?b then _ else _] => destruct b eqn:?
           end; simpl.
    all: try (left; repeat first [apply list_elem_of_here
                                 |apply list_elem_of_further]; fail).
    all: destruct statusCode as [c|]; simpl.
    all: repeat match goal with
           | |- context [if ?b then _ else _] => destruct b eqn:?
           end; simpl.
    all: try (left; repeat first [apply list_elem_of_here
                                 |apply list_elem_of_further]; fail).
    all: right; split; [done|split; [done|]].
    all: match goal with
         | H : negb (_ =? 0) = true |- _ =>
             by apply negb_true_iff, Z.eqb_neq in H
         end.
Qed.

Section Endpoints.

Variable config : Config.
Variable jwt_sign : TokenPayload → option string → string → string → Z → string.
Variable jwt_verify : string → string → Z → verdict.
Variable JSON_stringify : RefreshTokenData → string.
Variable JSON_parse : string → option RefreshTokenData.
Variable findUnique : string → option User.
Variable library_name : error → string.
Variable library_message : error → string.
Variable production : bool.

Local Abbreviation guard := (requireAuth config jwt_verify findUnique).
Local Abbreviation maybe := (optionalAuth config jwt_verify findUnique).
Local Abbreviation handler := (asyncHandler library_name library_message production).
Local Abbreviation rotate :=
  (refreshTokenRotation config jwt_sign jwt_verify JSON_stringify JSON_parse).


(** ** The guard of the authenticated routes *)

Lemma fail_closed_guard_verify (token : string) :
  fail_closed (verify jwt_verify token (jwt_secret config)).
Proof.
  intros w o w'. unfold verify.
  destruct (jwt_verify token (jwt_secret config) (clock w)); intros [= <- <-];
    left; apply quiet_refl.
Qed.

Lemma preserves_guard_verify (I : gmap string rvalue → Prop) (token : string) :
  preserves I (verify jwt_verify token (jwt_secret config)).
Proof. intros w Hw. unfold verify. by destruct (jwt_verify _ _ _). Qed.

(** X14: [requireAuth] never rejects and never writes: it ends with a
    response or with [next()], on the keyspace it started from; and when
    the store rejected one of its round-trips the response is the 500
    ['Authentication error'], never [next()]. *)
Theorem requireAuth_always_answers (authorization : option string) (w : world) :
  ∃ r w',
    guard authorization w = (Returned r, w')
    ∧ store w' = store w
    ∧ (quiet w w'
       ∨ (rejected w w'
          ∧ r = Responded {| status := 500;
                             json := ErrorBody "Authentication error" |})).
Proof.
  clear jwt_sign JSON_stringify JSON_parse library_name library_message production.
  unfold requireAuth, try_catch.
  match goal with |- context [match ?b w with _ => _ end] => set (body := b) end.
  assert (Hfc : fail_closed body).
  { unfold body. destruct authorization as [authHeader|]; [|apply fail_closed_ret].
    destruct (_ || _); [apply fail_closed_ret|].
    apply fail_closed_bind; [apply fail_closed_isTokenBlacklisted|].
    intros [|]; [apply fail_closed_ret|].
    apply fail_closed_bind; [apply fail_closed_guard_verify|intros decoded].
    destruct (findUnique _); apply fail_closed_ret. }
  assert (Hpres : preserves (eq (store w)) body).
  { unfold body. destruct authorization as [authHeader|]; [|apply preserves_ret].
    destruct (_ || _); [apply preserves_ret|].
    apply preserves_bind; [apply preserves_isTokenBlacklisted|].
    intros [|]; [apply preserves_ret|].
    apply preserves_bind; [apply preserves_guard_verify|intros decoded].
    destruct (findUnique _); apply preserves_ret. }
  specialize (Hpres w eq_refl).
  destruct (body w) as [[r|e] w1] eqn:Hrun; simpl in Hpres;
    specialize (Hfc _ _ _ Hrun).
  - exists r, w1. split; [done|]. split; [done|].
    destruct Hfc as [Hq|[_ [=]]]. by left.
  - destruct Hfc as [Hq|[Hr [= ->]]].
    + destruct e; eexists _, w1; (split; [reflexivity|]); (split; [done|]);
        by left.
    + eexists _, w1. split; [reflexivity|]. split; [done|]. by right.
Qed.






(** ** Logging out *)

(** X19: [logout] answers 200 ['Logged out successfully'] whatever the
    header, the token and the store do; and when the store rejected a
    round-trip, it answers so having written nothing: the token is not
    blacklisted. *)
Theorem logout_always_succeeds (authorization : option string) (w : world) :
  ∃ w',
    handler (AuthController.logout config jwt_verify authorization) w
    = ({| status := 200; json := MessageBody "Logged out successfully" |}, w')
    ∧ (rejected w w' → store w' = store w).
Proof.
  clear jwt_sign JSON_stringify JSON_parse findUnique.
  unfold asyncHandler, AuthController.logout, call, send.
  destruct authorization as [authHeader|]; [|by exists w].
  destruct (truthy (Some authHeader) && String.prefix "Bearer " authHeader);
    [|by exists w].
  destruct (blacklistAccessToken config jwt_verify (substring_from 7 authHeader) w)
    as [o w1] eqn:Hrun.
  apply blacklist_outcome in Hrun as [-> Hcases].
  exists w1. split; [done|]. intros Hrej.
  destruct Hcases as [|(d & e & _ & _ & Hq & _)]; [done|].
  by destruct (quiet_not_rejected _ _ Hq).
Qed.

(** X20: a logout takes effect on the guard.  With the store available,
    after [logout] with the bearer header of a token that verifies and has
    not reached its [exp], [requireAuth] answers 401 ['Token has been
    revoked'] to that header on the keyspace the logout left. *)
Theorem logout_then_rejected (token : string) (w : world) (decoded : Decoded)
    (exp : Z) :
  available w →
  jwt_verify token (jwt_secret config) (clock w) = Verified decoded →
  d_exp decoded = Some exp →
  clock w / 1000 < exp →
  ∃ w1,
    handler (AuthController.logout config jwt_verify (Some ("Bearer " +:+ token))) w
    = ({| status := 200; json := MessageBody "Logged out successfully" |}, w1)
    ∧ available w1
    ∧ ∀ w2, store w2 = store w1 → available w2 →
            fst (guard (Some ("Bearer " +:+ token)) w2)
            = Returned (unauthorized "Token has been revoked").
Proof.
  clear jwt_sign JSON_stringify JSON_parse.
  intros Hw Hv He Hlt.
  destruct (bearer_header_token token) as (Hp & Hsub & Htruthy).
  unfold asyncHandler, AuthController.logout, call, send.
  rewrite Htruthy, Hp, Hsub. simpl.
  rewrite (blacklist_run config jwt_verify token w decoded exp Hw Hv He Hlt).
  eexists. split; [reflexivity|]. split; [done|].
  intros w2 Hst Hw2. rewrite (available_inv w2 Hw2), Hst. simpl.
  unfold requireAuth, isTokenBlacklisted. rewrite Htruthy, Hp, Hsub. simpl.
  run. unfold get. by rewrite lookup_insert_eq.
Qed.


(** ** The refresh endpoint *)

Lemma rotation_rejects_run (token : string) (ua ip : option string) (w : world) :
  available w →
  (jwt_verify token (jwt_refreshSecret config) (clock w) = Expired →
   fst (rotate token ua ip w) = Thrown TokenExpiredError)
  ∧ (jwt_verify token (jwt_refreshSecret config) (clock w) = Invalid →
     fst (rotate token ua ip w) = Thrown JsonWebTokenError)
  ∧ (∀ decoded,
       jwt_verify token (jwt_refreshSecret config) (clock w) = Verified decoded →
       d_type decoded ≠ Some "refresh" →
       fst (rotate token ua ip w) = Thrown (Error "Invalid token type")).
Proof.
  intros Hw. rewrite (available_inv w Hw). simpl.
  unfold refreshTokenRotation. split; [|split].
  - intros Hv. run. rewrite Hv. by run.
  - intros Hv. run. by rewrite Hv.
  - intros d Hv Hty. run. rewrite Hv. simpl.
    by destruct (decide (d_type d = Some "refresh")).
Qed.

Lemma rotation_breach_outcome (token : string) (ua ip : option string)
    (w : world) (decoded : Decoded) :
  available w →
  well_formed (store w) →
  jwt_verify token (jwt_refreshSecret config) (clock w) = Verified decoded →
  d_type decoded = Some "refresh" →
  store w !! (REFRESH_TOKEN_PREFIX +:+ token) = None →
  fst (rotate token ua ip w) = Thrown security_breach.
Proof.
  intros Hw Hwf Hv Hty Hrec.
  destruct (truthy (d_tokenFamily decoded)) eqn:Hf.
  - destruct (d_tokenFamily decoded) as [f|] eqn:Hfam; [|done].
    destruct (revoke_store_returns f (store w) Hwf) as [m' Hm'].
    destruct (rotation_breach_run config jwt_sign jwt_verify JSON_stringify
                JSON_parse token ua ip w decoded f m') as [lg ->]; try done.
    simpl in Hf. by apply negb_true_iff, String.eqb_neq in Hf.
  - rewrite (available_inv w Hw). unfold refreshTokenRotation. run.
    rewrite Hv. simpl. rewrite decide_True by done. run. unfold get.
    rewrite Hrec. simpl. unfold revokeTokenFamily. by rewrite Hf.
Qed.

(** X21: the answers of the refresh endpoint.  Library errors do not
    mention a security breach.  A falsy [refreshToken] in the body is
    answered 400 without touching the world.  With the store available, a
    token that is expired or fails verification is answered 401; a token
    that verifies but is not of type ['refresh'] is answered 500, with the
    message ['Invalid token type'] unless in production; a refresh token
    without record, on a well-formed keyspace, is answered 401 with the
    code [TOKEN_REUSE_DETECTED]; and a refresh token whose record is there
    and parses is answered 200 with a new pair. *)
Theorem refresh_endpoint_answers (ua ip : option string) (w : world) :
  (∀ e, includes "security breach" (library_message e) = false) →
  let answer body :=
    handler (AuthController.refreshToken config jwt_sign jwt_verify JSON_stringify
               JSON_parse library_message body ua ip) w in
  (∀ body, truthy body = false →
     answer body
     = ({| status := 400; json := ErrorBody "Refresh token required" |}, w))
  ∧ (available w →
     ∀ token, token ≠ "" →
       (jwt_verify token (jwt_refreshSecret config) (clock w) = Expired →
        fst (answer (Some token))
        = {| status := 401; json := ErrorBody "Token expired" |})
       ∧ (jwt_verify token (jwt_refreshSecret config) (clock w) = Invalid →
          fst (answer (Some token))
          = {| status := 401; json := ErrorBody "Invalid token" |})
       ∧ (∀ decoded,
            jwt_verify token (jwt_refreshSecret config) (clock w) = Verified decoded →
            (d_type decoded ≠ Some "refresh" →
             fst (answer (Some token))
             = {| status := 500;
                  json := ErrorBody (if production then "Internal Server Error"
                                     else "Invalid token type") |})
            ∧ (d_type decoded = Some "refresh" →
               well_formed (store w) →
               store w !! (REFRESH_TOKEN_PREFIX +:+ token) = None →
               fst (answer (Some token))
               = {| status := 401;
                    json := ReuseBody
                      "Security breach detected. All sessions have been terminated."
                      "TOKEN_REUSE_DETECTED" |})
            ∧ (∀ str ttl,
                 d_type decoded = Some "refresh" →
                 store w !! (REFRESH_TOKEN_PREFIX +:+ token)
                 = Some (RString str ttl) →
                 str ≠ "" →
                 is_Some (JSON_parse str) →
                 ∃ pair,
                   fst (rotate token ua ip w) = Returned pair
                   ∧ fst (answer (Some token))
                     = {| status := 200;
                          json := TokensBody (accessToken pair)
                                    (refreshToken pair) |}))).
Proof.
  clear findUnique.
  intros Hlib answer. unfold answer, asyncHandler, AuthController.refreshToken.
  split.
  - intros body Hbody. rewrite Hbody. simpl. unfold errorHandler. simpl.
    by rewrite andb_false_r.
  - intros Hw token Htoken.
    assert (Htruthy : truthy (Some token) = true)
      by (simpl; by apply negb_true_iff, String.eqb_neq).
    rewrite Htruthy. simpl.
    destruct (rotation_rejects_run token ua ip w Hw) as (Hexp & Hinv & Htype).
    split; [|split].
    + intros Hv. specialize (Hexp Hv).
      destruct (rotate token ua ip w) as [o w1]. simpl in Hexp. subst o.
      simpl. rewrite Hlib. unfold errorHandler. simpl.
      by rewrite andb_false_r.
    + intros Hv. specialize (Hinv Hv).
      destruct (rotate token ua ip w) as [o w1]. simpl in Hinv. subst o.
      simpl. rewrite Hlib. unfold errorHandler. simpl.
      by rewrite andb_false_r.
    + intros d Hv. split; [|split].
      * intros Hty. specialize (Htype d Hv Hty).
        destruct (rotate token ua ip w) as [o w1]. simpl in Htype. subst o.
        simpl. unfold errorHandler. simpl. by rewrite andb_true_r.
      * intros Hty Hwf Hrec.
        pose proof (rotation_breach_outcome token ua ip w d Hw Hwf Hv Hty Hrec)
          as Hbreach.
        destruct (rotate token ua ip w) as [o w1]. simpl in Hbreach. by subst o.
      * intros str ttl Hty Hrec Hstr [data Hparse].
        destruct (rotation_run config jwt_sign jwt_verify JSON_stringify
                    JSON_parse token ua ip w d str ttl data Hw Hv Hty Hrec Hstr
                    Hparse) as (pair & w1 & Hrun & _).
        exists pair. by rewrite Hrun.
Qed.

(** ** Revoking a session *)

(** X22: [revokeSession] does not ask whose session it revokes.  For any
    authenticated user and any non-empty family, with the store available
    and the keyspace well formed, it answers 200 and afterwards the family's
    pointer is gone, every user's index has lost exactly that family, and no
    session listing of any user that returns mentions it. *)
Theorem revokeSession_any_family (user : User) (f : string) (w : world) :
  available w →
  well_formed (store w) →
  f ≠ "" →
  ∃ w',
    handler (AuthController.revokeSession (Some user) (Some f)) w
    = ({| status := 200; json := MessageBody "Session revoked successfully" |}, w')
    ∧ store w' !! (TOKEN_FAMILY_PREFIX +:+ f) = None
    ∧ (∀ other,
         members_of (store w') (USER_SESSIONS_PREFIX +:+ other)
         = members_of (store w) (USER_SESSIONS_PREFIX +:+ other) ∖ {[f]})
    ∧ (∀ other authorization w2 w3 l current,
         store w2 = store w' →
         available w2 →
         handler (AuthController.getSessions JSON_parse (Some other) authorization) w2
         = ({| status := 200; json := SessionsBody l current |}, w3) →
         ∀ x, x ∈ l → s_tokenFamily x ≠ f).
Proof.
  clear config jwt_sign jwt_verify JSON_stringify findUnique.
  intros Hw Hwf Hf.
  assert (Htruthy : truthy (Some f) = true)
    by (simpl; by apply negb_true_iff, String.eqb_neq).
  destruct w as [m t fs lg]. unfold available in Hw. simpl in *. subst fs.
  destruct (revoke_run f m t lg Htruthy) as [lg' Hrun].
  destruct (revoke_store_returns f m Hwf) as [m' Hm'].
  rewrite Hm' in Hrun. simpl in Hrun.
  apply revoke_store_frame in Hm' as (Hidx & Hptr & _ & _).
  exists (World m' t [] lg').
  unfold asyncHandler, AuthController.revokeSession, call, send.
  rewrite Htruthy. simpl. rewrite Hrun. split; [done|]. simpl.
  split; [done|].
  assert (Hmem : ∀ other,
            members_of m' (USER_SESSIONS_PREFIX +:+ other)
            = members_of m (USER_SESSIONS_PREFIX +:+ other) ∖ {[f]}).
  { intros other. apply members_of_srem_value, Hidx, prefix_append. }
  split; [done|].
  intros other authorization w2 w3 l current Hst Hw2.
  unfold AuthController.getSessions.
  destruct (getUserSessions JSON_parse (u_id other) w2) as [[l0|e] w4] eqn:Hlist;
    [|destruct (errorHandler_sends_error production (error_object library_name
                  library_message (Uncaught e))) as (st & msg & ->);
      intros [=]].
  intros [= <- _ _] x Hx Hfam.
  pose proof (getUserSessions_within_index JSON_parse (u_id other) l0 w2 w4 x
                Hw2 Hlist Hx) as Hin.
  rewrite Hst, Hfam in Hin. simpl in Hin. rewrite Hmem in Hin. set_solver.
Qed.


(** ** Logging in *)

Lemma fail_closed_generateTokenPair (uuid : string) (user : User)
    (ua ip : option string) :
  fail_closed (generateTokenPair config jwt_sign JSON_stringify uuid user ua ip).
Proof.
  unfold generateTokenPair.
  apply fail_closed_bind; [apply fail_closed_sign|intros access].
  apply fail_closed_bind; [apply fail_closed_sign|intros refresh].
  apply fail_closed_bind; [apply fail_closed_getRedisClient|intros _].
  apply fail_closed_bind; [apply fail_closed_Date_now|intros created].
  apply fail_closed_bind; [apply fail_closed_Date_now|intros used].
  apply fail_closed_bind; [apply fail_closed_round_trip|intros _].
  apply fail_closed_bind; [apply fail_closed_round_trip|intros _].
  apply fail_closed_bind; [apply fail_closed_round_trip|intros _].
  apply fail_closed_ret.
Qed.

(** X24: the answers of [login].  Credentials that do not validate are
    answered 401 without a round-trip to the store.  For credentials that
    validate, with the store available and the user's index key not held by
    a string, the answer is 200 with the two tokens [generateTokenPair]
    returned; and when the store rejected a round-trip (its error not having
    one of the names [errorHandler] tests for), the answer is a 500 that
    carries an error message and no token. *)
Theorem login_answers (validateCredentials : string → string → option User)
    (uuid email password : string) (ua ip : option string) (w : world) :
  let answer :=
    handler (AuthController.login config jwt_sign JSON_stringify
               validateCredentials uuid email password ua ip) w in
  (validateCredentials email password = None →
   answer
   = ({| status := 401; json := ErrorBody "Invalid email or password" |}, w))
  ∧ (∀ user,
       validateCredentials email password = Some user →
       (available w →
        ¬ holds_string (store w !! (USER_SESSIONS_PREFIX +:+ u_id user)) →
        ∃ tokens w',
          generateTokenPair config jwt_sign JSON_stringify uuid
            {| u_id := u_id user; u_email := u_email user; u_role := u_role user |}
            ua ip w
          = (Returned tokens, w')
          ∧ answer
            = ({| status := 200;
                  json := LoginBody user (i_accessToken tokens)
                            (i_refreshToken tokens) |}, w'))
       ∧ (rejected w (snd answer) →
          library_name RedisUnavailable
          ∉ ["ValidationError"; "UnauthorizedError"; "JsonWebTokenError";
             "TokenExpiredError"] →
          status (fst answer) = 500
          ∧ ∃ message, json (fst answer) = ErrorBody message)).
Proof.
  clear jwt_verify JSON_parse findUnique.
  intros answer. unfold answer, asyncHandler, AuthController.login. split.
  - intros ->. simpl. unfold errorHandler. simpl. by rewrite andb_false_r.
  - intros user ->. unfold call, send. split.
    + intros Hw Hidx.
      destruct (issue_returns config jwt_sign JSON_stringify uuid
                  {| u_id := u_id user; u_email := u_email user;
                     u_role := u_role user |} ua ip w Hw Hidx)
        as (tokens & w' & Hrun).
      exists tokens, w'. by rewrite Hrun.
    + pose proof (fail_closed_generateTokenPair uuid
                    {| u_id := u_id user; u_email := u_email user;
                       u_role := u_role user |} ua ip w) as Hfc.
      destruct (generateTokenPair _ _ _ _ _ _ _ w) as [[tokens|e] w1]; simpl;
        specialize (Hfc _ _ eq_refl); intros Hrej Hname.
      * destruct Hfc as [Hq|[_ [=]]]. by destruct (quiet_not_rejected _ _ Hq).
      * destruct Hfc as [Hq|[_ [= ->]]];
          [by destruct (quiet_not_rejected _ _ Hq)|].
        unfold errorHandler. simpl.
        assert (Hn : ∀ n, n ∈ ["ValidationError"; "UnauthorizedError";
                               "JsonWebTokenError"; "TokenExpiredError"] →
                     String.eqb (library_name RedisUnavailable) n = false).
        { intros n Hin. apply String.eqb_neq. intros Heq. apply Hname.
          by rewrite Heq. }
        rewrite !Hn by (repeat first [apply list_elem_of_here
                                     |apply list_elem_of_further]).
        simpl. rewrite andb_false_r.
        destruct (negb _); simpl; rewrite ?andb_true_r; eauto.
Qed.

End Endpoints.

(** ** The further properties on concrete worlds *)

Lemma access1_verified :
  demo_verify access1 (jwt_secret demo_config) (clock w_logged_in)
  = Verified {| d_id := "u1"; d_email := "a@x"; d_role := "admin";
                d_tokenFamily := Some "f1"; d_type := None;
                d_exp := Some 86405 |}.
Proof. vm_compute. reflexivity. Qed.

Lemma demo_verify_sign (p : TokenPayload) (type : option string)
    (secret expiresIn : string) (ms ms' : Z) :
  ms' / 1000 < ms / 1000 + demo_validity expiresIn →
  demo_verify (demo_sign p type secret expiresIn ms) secret ms'
  = Verified {| d_id := p_id p; d_email := p_email p; d_role := p_role p;
                d_tokenFamily := p_tokenFamily p; d_type := type;
                d_exp := Some (ms / 1000 + demo_validity expiresIn) |}.
Proof.
  intros Hms. unfold demo_verify, demo_sign.
  rewrite pos_of_bits_of_pos. simpl. rewrite decode_encode.
  rewrite String.eqb_refl. simpl. by rewrite decide_True.
Qed.

Lemma token1_signed :
  token1 = demo_sign {| p_id := "u1"; p_email := "a@x"; p_role := "admin";
                        p_tokenFamily := Some "f1" |}
             (Some "refresh") "s2" "7d" 5000.
Proof. vm_compute. reflexivity. Qed.

Lemma token1_verified (ms : Z) :
  ms / 1000 < 604805 →
  demo_verify token1 (jwt_refreshSecret demo_config) ms
  = Verified {| d_id := "u1"; d_email := "a@x"; d_role := "admin";
                d_tokenFamily := Some "f1"; d_type := Some "refresh";
                d_exp := Some 604805 |}.
Proof.
  intros Hms. rewrite token1_signed.
  exact (demo_verify_sign _ (Some "refresh") "s2" "7d" 5000 ms Hms).
Qed.

Lemma record1 :
  store w_logged_in !! (REFRESH_TOKEN_PREFIX +:+ token1)
  = Some (RString
            (demo_stringify
               {| userId := "u1"; tokenFamily := "f1"; createdAt := 5000;
                  lastUsedAt := 5000; userAgent := Some "ua";
                  ipAddress := None |})
            (Some 604800)).
Proof. vm_compute. reflexivity. Qed.

Lemma demo_stringify_not_empty (d : RefreshTokenData) : demo_stringify d ≠ "".
Proof. discriminate. Qed.

Lemma demo_sign_not_empty p type secret expiresIn ms :
  demo_sign p type secret expiresIn ms ≠ "".
Proof. discriminate. Qed.

Lemma pair1_fresh : refreshToken pair1 ≠ token1.
Proof.
  assert (H : String.eqb (refreshToken pair1) token1 = false)
    by (vm_compute; reflexivity).
  intros Heq%String.eqb_eq. rewrite H in Heq. discriminate.
Qed.

Lemma pair1_not_empty : refreshToken pair1 ≠ "".
Proof.
  assert (H : String.eqb (refreshToken pair1) "" = false)
    by (vm_compute; reflexivity).
  intros Heq%String.eqb_eq. rewrite H in Heq. discriminate.
Qed.

Lemma store_World m t fs lg : store (World m t fs lg) = m.
Proof. reflexivity. Qed.

(** Witness of X4: the family of [alice]'s rotated session is revoked. *)
Lemma revokeTokenFamily_effect_witness :
  store (snd (revokeTokenFamily (Some "f1") w_rotated))
    !! (TOKEN_FAMILY_PREFIX +:+ "f1") = None
  ∧ store (snd (revokeTokenFamily (Some "f1") w_rotated))
      !! (REFRESH_TOKEN_PREFIX +:+ refreshToken pair1) = None
  ∧ members_of (store (snd (revokeTokenFamily (Some "f1") w_rotated)))
      (USER_SESSIONS_PREFIX +:+ "u1")
    = members_of (store w_rotated) (USER_SESSIONS_PREFIX +:+ "u1") ∖ {["f1"]}.
Proof.
  destruct (revokeTokenFamily_effect "f1" w_rotated
              (snd (revokeTokenFamily (Some "f1") w_rotated)))
    as (Hptr & Hrec & Hidx & _).
  - discriminate.
  - apply returned_eta. vm_compute. reflexivity.
  - split; [exact Hptr|]. split.
    + apply Hrec; [vm_compute; reflexivity|apply pair1_not_empty].
    + apply Hidx. reflexivity.
Defined.

(** Witness of X3: [alice]'s first access token, two seconds after the
    login. *)
Lemma blacklist_then_blacklisted_witness :
  ∃ w', blacklistAccessToken demo_config demo_verify access1 w_logged_in
        = (Returned tt, w')
        ∧ fst (isTokenBlacklisted access1 w') = Returned true.
Proof.
  destruct (blacklist_then_blacklisted demo_config demo_verify access1
              w_logged_in _ 86405 eq_refl access1_verified eq_refl)
    as (w' & Hrun & Hlisted & _).
  - vm_compute. reflexivity.
  - exists w'. split; [exact Hrun|exact Hlisted].
Defined.


(** Witness of X7: after it, the record of the first refresh token is
    gone. *)
Lemma rotation_single_use_witness :
  store (snd rotation1) !! (REFRESH_TOKEN_PREFIX +:+ token1) = None
  ∧ store (snd rotation1) !! (USER_SESSIONS_PREFIX +:+ "u1")
    = store w_logged_in !! (USER_SESSIONS_PREFIX +:+ "u1").
Proof.
  destruct (rotation_single_use demo_config demo_sign demo_verify demo_stringify
              demo_parse token1 None (Some "ip") w_logged_in (snd rotation1) pair1
              (returned_eta rotation1 pair1 rotation1_returned))
    as (d & _ & Hgone & _ & _ & Hidx).
  split; [apply Hgone, pair1_fresh|]. apply Hidx. reflexivity.
Defined.

(** Witness of X8: the first refresh token is replayed two seconds after
    the rotation. *)
Lemma replay_revokes_successor_witness :
  ∃ w3, refreshTokenRotation demo_config demo_sign demo_verify demo_stringify
          demo_parse token1 None None w_rotated = (Thrown security_breach, w3)
        ∧ store w3 !! (REFRESH_TOKEN_PREFIX +:+ refreshToken pair1) = None
        ∧ store w3 !! (TOKEN_FAMILY_PREFIX +:+ "f1") = None.
Proof.
  destruct (replay_revokes_successor demo_config demo_sign demo_verify
              demo_stringify demo_parse token1 None (Some "ip") None None
              w_logged_in (snd rotation1) w_rotated pair1
              {| d_id := "u1"; d_email := "a@x"; d_role := "admin";
                 d_tokenFamily := Some "f1"; d_type := Some "refresh";
                 d_exp := Some 604805 |} "f1")
    as (w3 & Hrun & Hrec & Hptr & _).
  - exact (returned_eta rotation1 pair1 rotation1_returned).
  - exact pair1_fresh.
  - exact pair1_not_empty.
  - apply token1_verified. vm_compute. reflexivity.
  - reflexivity.
  - discriminate.
  - exact (store_World (store (snd rotation1)) 9000 [] []).
  - reflexivity.
  - unfold well_formed. compute_done.
  - apply token1_verified. vm_compute. reflexivity.
  - exists w3. split; [exact Hrun|]. split; [exact Hrec|exact Hptr].
Defined.

(** Witness of X9: the store fails at the fourth round-trip of the first
    rotation. *)
Lemma rotation_interrupted_witness :
  ∃ w', refreshTokenRotation demo_config demo_sign demo_verify demo_stringify
          demo_parse token1 None (Some "ip")
          (World (store (snd login1)) 7000 [false; false; false; true] [])
        = (Thrown RedisUnavailable, w')
        ∧ store w' = delete (REFRESH_TOKEN_PREFIX +:+ token1) (store (snd login1)).
Proof.
  destruct (rotation_interrupted demo_config demo_sign demo_verify demo_stringify
              demo_parse token1 None (Some "ip")
              (World (store (snd login1)) 7000 [false; false; false; true] [])
              _ _ _ _ [] eq_refl
              (token1_verified 7000 eq_refl) eq_refl record1
              (demo_stringify_not_empty _) (demo_parse_stringify _))
    as (w' & Hrun & Hstore & _).
  exists w'. split; [exact Hrun|exact Hstore].
Defined.

(** Witness of X5: [alice] logs out of her three devices. *)
Lemma revokeAllUserTokens_effect_witness :
  ∃ w1, revokeAllUserTokens "u1" w_three_devices = (Returned tt, w1)
        ∧ store w1 !! (USER_SESSIONS_PREFIX +:+ "u1") = None
        ∧ store w1 !! (TOKEN_FAMILY_PREFIX +:+ "f2") = None
        ∧ fst (getUserSessions demo_parse "u1" w1) = Returned [].
Proof.
  destruct (revokeAllUserTokens_effect demo_parse "u1" w_three_devices)
    as (w1 & Hrun & Hw1 & _ & Hidx & Hfam & _ & _ & Hlist).
  - reflexivity.
  - unfold well_formed. compute_done.
  - exists w1. split; [exact Hrun|]. split; [exact Hidx|]. split.
    + apply (Hfam "f2"). compute_done.
    + apply Hlist; [reflexivity|exact Hw1].
Defined.

Lemma issued2_signed :
  i_refreshToken issued2
  = demo_sign {| p_id := "u1"; p_email := "a@x"; p_role := "admin";
                 p_tokenFamily := Some "f2" |}
      (Some "refresh") "s2" "7d" 7000.
Proof. vm_compute. reflexivity. Qed.

Lemma login2_available : available (snd login2).
Proof. vm_compute. reflexivity. Qed.

(** Witness of X10: the second login of [alice] is listed. *)
Lemma issue_then_listed_witness :
  ∃ l, fst (getUserSessions demo_parse "u1" (snd login2)) = Returned l
       ∧ {| s_tokenFamily := "f2"; s_createdAt := 7000; s_lastUsedAt := 7000;
            s_userAgent := Some "phone"; s_ipAddress := None |} ∈ l.
Proof.
  assert (Hne : i_refreshToken issued2 ≠ "").
  { rewrite issued2_signed. apply demo_sign_not_empty. }
  assert (Hlist : fst (getUserSessions demo_parse "u1" (snd login2))
            = Returned
                [ {| s_tokenFamily := "f2"; s_createdAt := 7000;
                     s_lastUsedAt := 7000; s_userAgent := Some "phone";
                     s_ipAddress := None |};
                  {| s_tokenFamily := "f1"; s_createdAt := 5000;
                     s_lastUsedAt := 5000; s_userAgent := Some "ua";
                     s_ipAddress := None |} ])
    by (vm_compute; reflexivity).
  eexists. split; [exact Hlist|].
  exact (issue_then_listed demo_config demo_sign demo_stringify demo_parse
           "f2" alice (Some "phone") None w_logged_in (snd login2) issued2
           demo_parse_stringify (returned_eta login2 issued2 login2_returned)
           Hne (demo_stringify_not_empty _) (snd login2) _ _ eq_refl
           login2_available (returned_eta _ _ Hlist)).
Defined.

(** Witness of X11: the refresh token of the second login is exchanged a
    second later, from a known address. *)
Lemma issue_then_rotate_witness :
  ∃ pair w3,
    refreshTokenRotation demo_config demo_sign demo_verify demo_stringify
      demo_parse (i_refreshToken issued2) None (Some "10.0.0.2")
      (World (store (snd login2)) 8000 [] [])
    = (Returned pair, w3)
    ∧ store w3 !! (REFRESH_TOKEN_PREFIX +:+ refreshToken pair)
      = Some (RString
                (demo_stringify
                   {| userId := "u1"; tokenFamily := "f2"; createdAt := 7000;
                      lastUsedAt := 8000; userAgent := Some "phone";
                      ipAddress := Some "10.0.0.2" |})
                (Some 604800)).
Proof.
  assert (Hv : demo_verify (i_refreshToken issued2) (jwt_refreshSecret demo_config)
                 8000
               = Verified {| d_id := "u1"; d_email := "a@x"; d_role := "admin";
                             d_tokenFamily := Some "f2";
                             d_type := Some "refresh"; d_exp := Some 604807 |}).
  { rewrite issued2_signed.
    exact (demo_verify_sign _ (Some "refresh") "s2" "7d" 7000 8000 eq_refl). }
  destruct (issue_then_rotate demo_config demo_sign demo_verify demo_stringify
              demo_parse "f2" alice (Some "phone") None None (Some "10.0.0.2")
              w_logged_in (snd login2) (World (store (snd login2)) 8000 [] [])
              issued2 _ demo_parse_stringify
              (returned_eta login2 issued2 login2_returned)
              (demo_stringify_not_empty _) eq_refl eq_refl Hv eq_refl)
    as (pair & w3 & Hrun & Hrec).
  exists pair, w3. split; [exact Hrun|exact Hrec].
Defined.

(** Witness of X12: the sweep of the keyspace with a dangling family. *)
Lemma cleanup_keeps_sessions_witness :
  ∃ w1, cleanupExpiredTokens w_dangling = (Returned tt, w1)
        ∧ ∀ l l1 w2 w3,
            getUserSessions demo_parse "u1" w_dangling = (Returned l, w2) →
            getUserSessions demo_parse "u1" w1 = (Returned l1, w3) →
            l1 ≡ₚ l.
Proof.
  destruct (cleanup_keeps_sessions demo_parse w_dangling)
    as (w1 & Hrun & _ & Hlist & _).
  - reflexivity.
  - intros k Hk. apply well_formed_index; [|exact Hk].
    unfold well_formed. compute_done.
  - exists w1. split; [exact Hrun|]. exact (Hlist "u1").
Defined.

(** Witness of X2: the keyspace after [alice]'s first login is sound. *)
Lemma sound_invariant_witness : sound demo_parse (store (snd login1)).
Proof.
  destruct (sound_invariant demo_config demo_sign demo_verify demo_stringify
              demo_parse demo_parse_stringify) as (Hempty & Hissue & _).
  assert (Hf : "f1" ≠ "") by discriminate.
  exact (Hissue "f1" alice (Some "ua") None Hf w_empty Hempty).
Defined.

(** ** The callers on concrete worlds *)

Lemma access1_not_listed :
  store w_logged_in !! (BLACKLIST_PREFIX +:+ access1) = None.
Proof. vm_compute. reflexivity. Qed.

Lemma demo_message_plain (e : error) :
  includes "security breach" (demo_message e) = false.
Proof. reflexivity. Qed.




(** Witness of X20: [alice] logs out and presents the token again. *)
Lemma logout_then_rejected_witness :
  ∃ w1,
    asyncHandler demo_name demo_message false
      (AuthController.logout demo_config demo_verify (Some ("Bearer " +:+ access1)))
      w_logged_in
    = ({| status := 200; json := MessageBody "Logged out successfully" |}, w1)
    ∧ fst (requireAuth demo_config demo_verify demo_users
             (Some ("Bearer " +:+ access1)) w1)
      = Returned (unauthorized "Token has been revoked").
Proof.
  destruct (logout_then_rejected demo_config demo_verify demo_users demo_name
              demo_message
              false access1 w_logged_in _ 86405 eq_refl access1_verified eq_refl
              eq_refl)
    as (w1 & Hrun & Hw1 & Hguard).
  exists w1. split; [exact Hrun|]. exact (Hguard w1 eq_refl Hw1).
Defined.

(** Witness of X21: the token without [type], and the replay of [alice]'s
    first refresh token after its rotation. *)
Lemma refresh_endpoint_answers_witness :
  fst (asyncHandler demo_name demo_message false
         (AuthController.refreshToken demo_config demo_sign demo_verify
            demo_stringify demo_parse demo_message (Some untyped_token) None None)
         w_logged_in)
  = {| status := 500; json := ErrorBody "Invalid token type" |}
  ∧ fst (asyncHandler demo_name demo_message false
           (AuthController.refreshToken demo_config demo_sign demo_verify
              demo_stringify demo_parse demo_message (Some token1) None None)
           w_rotated)
    = {| status := 401;
         json := ReuseBody
           "Security breach detected. All sessions have been terminated."
           "TOKEN_REUSE_DETECTED" |}.
Proof.
  split.
  - pose proof (refresh_endpoint_answers demo_config demo_sign demo_verify
                  demo_stringify demo_parse demo_name demo_message false None None
                  w_logged_in demo_message_plain) as H.
    cbv zeta in H. destruct H as (_ & H). specialize (H eq_refl untyped_token).
    destruct H as (_ & _ & H); [apply demo_sign_not_empty|].
    destruct (H {| d_id := "u1"; d_email := "a@x"; d_role := "admin";
                   d_tokenFamily := Some "f1"; d_type := None;
                   d_exp := Some 604805 |}) as (Htype & _).
    + exact (demo_verify_sign _ None "s2" "7d" 5000 7000 eq_refl).
    + apply Htype. discriminate.
  - pose proof (refresh_endpoint_answers demo_config demo_sign demo_verify
                  demo_stringify demo_parse demo_name demo_message false None None
                  w_rotated demo_message_plain) as H.
    cbv zeta in H. destruct H as (_ & H). specialize (H eq_refl token1).
    destruct H as (_ & _ & H).
    { rewrite token1_signed. apply demo_sign_not_empty. }
    destruct (H {| d_id := "u1"; d_email := "a@x"; d_role := "admin";
                   d_tokenFamily := Some "f1"; d_type := Some "refresh";
                   d_exp := Some 604805 |}) as (_ & Hreuse & _).
    + apply token1_verified. vm_compute. reflexivity.
    + apply Hreuse; [reflexivity| |vm_compute; reflexivity].
      unfold well_formed. compute_done.
Defined.

(** Witness of X22: [alice] revokes the session of [bob]. *)
Lemma revokeSession_any_family_witness :
  "g1" ∈ members_of (store w_two_users) (USER_SESSIONS_PREFIX +:+ "u2")
  ∧ ∃ w',
      asyncHandler demo_name demo_message false
        (AuthController.revokeSession (Some alice) (Some "g1")) w_two_users
      = ({| status := 200; json := MessageBody "Session revoked successfully" |}, w')
      ∧ "g1" ∉ members_of (store w') (USER_SESSIONS_PREFIX +:+ "u2").
Proof.
  split; [compute_done|].
  destruct (revokeSession_any_family demo_parse demo_name demo_message false alice "g1"
              w_two_users) as (w' & Hrun & _ & Hmem & _).
  - reflexivity.
  - unfold well_formed. compute_done.
  - discriminate.
  - exists w'. split; [exact Hrun|]. rewrite Hmem.
    intros [_ Hout]%elem_of_difference. apply Hout, elem_of_singleton.
    reflexivity.
Defined.

(** Witness of X25: the three devices of [alice]. *)
Lemma sessions_listed_once_witness :
  ∃ l, fst (getUserSessions demo_parse "u1" w_three_devices) = Returned l
       ∧ NoDup (s_tokenFamily <$> l)
       ∧ (length l ≤ 3)%nat.
Proof.
  assert (Hlist : fst (getUserSessions demo_parse "u1" w_three_devices)
            = Returned
                [ {| s_tokenFamily := "f3"; s_createdAt := 8000;
                     s_lastUsedAt := 8000; s_userAgent := None;
                     s_ipAddress := Some "10.0.0.3" |};
                  {| s_tokenFamily := "f2"; s_createdAt := 7000;
                     s_lastUsedAt := 7000; s_userAgent := Some "phone";
                     s_ipAddress := None |};
                  {| s_tokenFamily := "f1"; s_createdAt := 5000;
                     s_lastUsedAt := 5000; s_userAgent := Some "ua";
                     s_ipAddress := None |} ])
    by (vm_compute; reflexivity).
  assert (Hsize : size (members_of (store w_three_devices)
                          (USER_SESSIONS_PREFIX +:+ "u1")) = 3%nat)
    by (vm_compute; reflexivity).
  destruct (sessions_listed_once demo_parse "u1" w_three_devices _ _ eq_refl
              (returned_eta _ _ Hlist)) as [Hnodup Hlen].
  eexists. split; [exact Hlist|]. split; [exact Hnodup|].
  rewrite Hsize in Hlen. exact Hlen.
Defined.
